(** * The pending-transaction queue of the herder (src/herder/TransactionQueue.cpp)

    A shallow embedding of [TransactionQueue] and of the static helpers of
    its translation unit, followed by the properties of the queue that the
    specification states.

    Modelling conventions.
    - [size_t] and [uint128_t] values are integers of [Z] reduced modulo
      2^64 and 2^128 after every arithmetic operation, as unsigned
      arithmetic does.
    - [int64_t] values are integers of [Z]; signed arithmetic is exact
      (signed overflow is undefined in C++, the model describes the
      executions without it).
    - A failed [assert], a dereferenced end iterator or an access to the
      front of an empty container ends the execution: every operation that
      can reach one returns an [option], [None] standing for the abort.
    - The medida counters behind [mSizeByAge] are write-only observability
      and are left out of the state. The vector has one counter for each
      age from 0 and below [mPendingDepth] ([sizeByAgeAt]); the operations
      index it with the age of an entry, which is in that range in every
      state they produce from a queue constructed with a positive pending
      depth. The operations of the model do not perform the access: a
      property that asserts a result for a state the constructor produces
      has the positive pending depth as a hypothesis. *)

From Stdlib Require Import ZArith Lia List Bool Sorted.
From stdpp Require Import base option list gmap.

Local Open Scope Z_scope.

(** ** Integer domains *)

Definition to_uint64 (z : Z) : Z := z mod 2 ^ 64.
Definition to_uint128 (z : Z) : Z := z mod 2 ^ 128.

Definition is_int64 (z : Z) : bool := (- 2 ^ 63 <=? z) && (z <? 2 ^ 63).
Definition is_uint32 (z : Z) : bool := (0 <=? z) && (z <? 2 ^ 32).
Definition is_uint64 (z : Z) : bool := (0 <=? z) && (z <? 2 ^ 64).

(** ** Transactions *)

Abbreviation AccountID := N (only parsing).
Abbreviation Hash := N (only parsing).

(** Modelled from the spec: the XDR enumeration [EnvelopeType] is declared
    outside the translation unit; the queue distinguishes the fee-bump
    envelope from the plain one. *)
Inductive EnvelopeType : Set :=
  | ENVELOPE_TYPE_TX
  | ENVELOPE_TYPE_TX_FEE_BUMP.

Definition EnvelopeType_eqb (a b : EnvelopeType) : bool :=
  match a, b with
  | ENVELOPE_TYPE_TX, ENVELOPE_TYPE_TX => true
  | ENVELOPE_TYPE_TX_FEE_BUMP, ENVELOPE_TYPE_TX_FEE_BUMP => true
  | _, _ => false
  end.

(** The attributes of a [TransactionFrameBase] that the queue reads.
    [getInnerFullHash] is the accessor of [FeeBumpTransactionFrame]. *)
Record TransactionFrameBase : Set := mkTx {
  getFullHash : Hash;
  getInnerFullHash : Hash;
  getEnvelopeType : EnvelopeType;
  getSourceID : AccountID;
  getFeeSourceID : AccountID;
  getSeqNum : Z;            (* int64_t *)
  getNumOperations : Z;     (* uint32_t *)
  getFeeBid : Z             (* int64_t *)
}.

Abbreviation Transactions := (list TransactionFrameBase) (only parsing).

(** The attributes are in the range of their C++ types and the fee bid is
    not negative. *)
Definition tx_in_range (tx : TransactionFrameBase) : bool :=
  is_int64 (getSeqNum tx) && is_uint32 (getNumOperations tx)
  && (0 <=? getFeeBid tx) && (getFeeBid tx <? 2 ^ 63).

Inductive TransactionResultCode : Set :=
  | txBAD_SEQ
  | txINSUFFICIENT_FEE
  | txINSUFFICIENT_BALANCE.

Inductive AddResult : Set :=
  | ADD_STATUS_PENDING
  | ADD_STATUS_DUPLICATE
  | ADD_STATUS_ERROR
  | ADD_STATUS_TRY_AGAIN_LATER.

(** ** Queue state *)

Module AccountState.

Record t : Set := mk {
  mTotalFees : Z;                 (* int64_t *)
  mQueueSizeOps : Z;              (* size_t *)
  mAge : Z;                       (* size_t *)
  mTransactions : list TransactionFrameBase
}.

(** [AccountState{}] *)
Definition init : t := mk 0 0 0 [].

End AccountState.

Module AccountTxQueueInfo.

Record t : Set := mk {
  mMaxSeq : Z;
  mTotalFees : Z;
  mQueueSizeOps : Z;
  mAge : Z
}.

End AccountTxQueueInfo.

Abbreviation AccountStates := (gmap N AccountState.t) (only parsing).
Abbreviation BannedTransactions := (gset N) (only parsing).

Record TransactionQueue : Type := mkQueue {
  mPendingDepth : Z;                              (* int const *)
  mAccountStates : gmap N AccountState.t;
  mBannedTransactions : list (gset N);            (* std::deque *)
  mLedgerVersion : Z;                             (* uint32 *)
  mQueueSizeOps : Z;                              (* size_t *)
  mPoolLedgerMultiplier : Z                       (* int *)
}.

Definition setAccountStates (q : TransactionQueue) (m : gmap N AccountState.t)
  : TransactionQueue :=
  mkQueue (mPendingDepth q) m (mBannedTransactions q) (mLedgerVersion q)
          (mQueueSizeOps q) (mPoolLedgerMultiplier q).

Definition setBannedTransactions (q : TransactionQueue) (b : list (gset N))
  : TransactionQueue :=
  mkQueue (mPendingDepth q) (mAccountStates q) b (mLedgerVersion q)
          (mQueueSizeOps q) (mPoolLedgerMultiplier q).

Definition setQueueSizeOps (q : TransactionQueue) (n : Z) : TransactionQueue :=
  mkQueue (mPendingDepth q) (mAccountStates q) (mBannedTransactions q)
          (mLedgerVersion q) n (mPoolLedgerMultiplier q).

Definition setLedgerVersion (q : TransactionQueue) (v : Z) : TransactionQueue :=
  mkQueue (mPendingDepth q) (mAccountStates q) (mBannedTransactions q)
          v (mQueueSizeOps q) (mPoolLedgerMultiplier q).

(** The collaborators reached through [mApp]: the validator, the ledger
    view and the envelope conversion of the version upgrade. *)
Record Application : Type := mkApp {
  (* tx->checkValid(ltx, seqNum) *)
  checkValid : TransactionFrameBase -> Z -> bool;
  (* getAvailableBalance(ltx.loadHeader(), loadAccount(ltx, id)) *)
  getAvailableBalance : AccountID -> Z;
  (* getLedgerManager().getLastMaxTxSetSizeOps(), a size_t *)
  getLastMaxTxSetSizeOps : Z;
  (* getLedgerManager().getLastClosedLedgerHeader().header.ledgerVersion *)
  lclLedgerVersion : Z;
  (* makeTransactionFromWire(networkID, convertForV13(envelope)) *)
  convertForV13 : TransactionFrameBase -> TransactionFrameBase
}.

(** ** Loops that can abort *)

Fixpoint forEach {S A : Type} (body : S -> A -> option S) (l : list A) (s : S)
  : option S :=
  match l with
  | [] => Some s
  | x :: l' => s' ← body s x; forEach body l' s'
  end.

(** [std::map<K, V>] with [operator[]]: an association list kept in
    ascending key order, a missing key starting from the default value. *)
Fixpoint stdMapUpdate {V : Type} (k : N) (dflt : V) (f : V -> V)
    (m : list (N * V)) : list (N * V) :=
  match m with
  | [] => [(k, f dflt)]
  | (k', v) :: m' =>
      if (k <? k')%N then (k, f dflt) :: m
      else if (k =? k')%N then (k', f v) :: m'
      else (k', v) :: stdMapUpdate k dflt f m'
  end.

(** ** Static helpers *)

Definition FEE_MULTIPLIER : Z := 10.

(** Modelled from the spec: [bigMultiply] of util/numeric is outside the
    translation unit; it is the widening product of two 64-bit values in
    [uint128_t]. *)
Definition bigMultiply (a b : Z) : Z := to_uint128 (a * b).

Definition canReplaceByFee (tx oldTx : TransactionFrameBase) : bool :=
  let newFee := getFeeBid tx in
  let newNumOps := Z.max 1 (getNumOperations tx) in
  let oldFee := getFeeBid oldTx in
  let oldNumOps := Z.max 1 (getNumOperations oldTx) in
  let v1 := bigMultiply newFee oldNumOps in
  let v2 := bigMultiply oldFee newNumOps in
  to_uint128 (FEE_MULTIPLIER * v2) <=? v1.

(** [findBySeq]: [Some None] is the result [false] (the iterator argument
    is left as it was), [Some (Some i)] the result [true] with the
    iterator at [begin() + i], where [i = size()] is [end()]. *)
Definition findBySeq (seq : Z) (transactions : list TransactionFrameBase)
  : option (option nat) :=
  front ← head transactions;
  back ← last transactions;
  let firstSeq := getSeqNum front in
  let lastSeq := getSeqNum back in
  if (seq <? firstSeq) || (lastSeq + 1 <? seq) then Some None
  else if negb (seq - firstSeq <=? Z.of_nat (length transactions)) then None
  else
    let i := Z.to_nat (seq - firstSeq) in
    match transactions !! i with
    | None => Some (Some i)
    | Some t => if getSeqNum t =? seq then Some (Some i) else None
    end.

Definition isDuplicateTx (oldTx newTx : TransactionFrameBase) : bool :=
  if EnvelopeType_eqb (getEnvelopeType oldTx) (getEnvelopeType newTx)
  then (getFullHash oldTx =? getFullHash newTx)%N
  else
    match getEnvelopeType oldTx with
    | ENVELOPE_TYPE_TX_FEE_BUMP =>
        (getInnerFullHash oldTx =? getFullHash newTx)%N
    | _ => false
    end.

(** [findTx]: the new value of [txIter]. *)
Definition findTx (tx : TransactionFrameBase)
    (transactions : list TransactionFrameBase) (txIter : nat) : option nat :=
  r ← findBySeq (getSeqNum tx) transactions;
  let iter := default (length transactions) r in
  match transactions !! iter with
  | Some t =>
      if (getFullHash t =? getFullHash tx)%N then Some iter else Some txIter
  | None => Some txIter
  end.

(** ** Queries *)

Definition isBanned (q : TransactionQueue) (hash : Hash) : bool :=
  existsb (fun transactions : gset N => bool_decide (hash ∈ transactions))
          (mBannedTransactions q).

Definition countBanned (q : TransactionQueue) (index : nat) : option Z :=
  transactions ← mBannedTransactions q !! index;
  Some (Z.of_nat (size transactions)).

Definition getAccountTransactionQueueInfo (q : TransactionQueue)
    (accountID : AccountID) : AccountTxQueueInfo.t :=
  match mAccountStates q !! accountID with
  | None => AccountTxQueueInfo.mk 0 0 0 0
  | Some st =>
      let txs := AccountState.mTransactions st in
      let seqNum := match last txs with
                    | None => 0
                    | Some t => getSeqNum t
                    end in
      AccountTxQueueInfo.mk seqNum (AccountState.mTotalFees st)
        (AccountState.mQueueSizeOps st) (AccountState.mAge st)
  end.

(** [operator==] on [AccountTxQueueInfo]. *)
Definition AccountTxQueueInfo_eqb (x y : AccountTxQueueInfo.t) : bool :=
  (AccountTxQueueInfo.mMaxSeq x =? AccountTxQueueInfo.mMaxSeq y)
  && (AccountTxQueueInfo.mTotalFees x =? AccountTxQueueInfo.mTotalFees y)
  && (AccountTxQueueInfo.mQueueSizeOps x =? AccountTxQueueInfo.mQueueSizeOps y).

(** ** Operations of the queue *)

Definition withTotalFees (st : AccountState.t) (fees : Z) : AccountState.t :=
  AccountState.mk fees (AccountState.mQueueSizeOps st) (AccountState.mAge st)
                  (AccountState.mTransactions st).

Definition withQueueSizeOps (st : AccountState.t) (n : Z) : AccountState.t :=
  AccountState.mk (AccountState.mTotalFees st) n (AccountState.mAge st)
                  (AccountState.mTransactions st).

Definition withAge (st : AccountState.t) (age : Z) : AccountState.t :=
  AccountState.mk (AccountState.mTotalFees st) (AccountState.mQueueSizeOps st)
                  age (AccountState.mTransactions st).

Definition withTransactions (st : AccountState.t)
    (txs : list TransactionFrameBase) : AccountState.t :=
  AccountState.mk (AccountState.mTotalFees st) (AccountState.mQueueSizeOps st)
                  (AccountState.mAge st) txs.

Definition isEmpty {A : Type} (l : list A) : bool :=
  match l with [] => true | _ => false end.

Definition releaseFeeMaybeEraseAccountState (q : TransactionQueue)
    (tx : TransactionFrameBase) : option TransactionQueue :=
  let id := getFeeSourceID tx in
  st ← mAccountStates q !! id;
  if negb (getFeeBid tx <=? AccountState.mTotalFees st) then None
  else
    let st' := withTotalFees st (AccountState.mTotalFees st - getFeeBid tx) in
    if isEmpty (AccountState.mTransactions st')
       && (AccountState.mTotalFees st' =? 0)
    then Some (setAccountStates q (delete id (mAccountStates q)))
    else Some (setAccountStates q (<[id := st']> (mAccountStates q))).

(** One round of the first loop of [dropTransactions]; [stateIter] is the
    key of the account the iterator points to. *)
Definition dropOne (stateIter : AccountID) (q : TransactionQueue)
    (tx : TransactionFrameBase) : option TransactionQueue :=
  st ← mAccountStates q !! stateIter;
  let st' := withQueueSizeOps st
               (to_uint64 (AccountState.mQueueSizeOps st - getNumOperations tx)) in
  let q1 := setAccountStates q (<[stateIter := st']> (mAccountStates q)) in
  let q2 := setQueueSizeOps q1 (to_uint64 (mQueueSizeOps q1 - getNumOperations tx)) in
  releaseFeeMaybeEraseAccountState q2 tx.

(** [dropTransactions(stateIter, begin() + b, begin() + e)] *)
Definition dropTransactions (q : TransactionQueue) (stateIter : AccountID)
    (b e : nat) : option TransactionQueue :=
  st0 ← mAccountStates q !! stateIter;
  let range := take (e - b) (drop b (AccountState.mTransactions st0)) in
  q1 ← forEach (dropOne stateIter) range q;
  st ← mAccountStates q1 !! stateIter;
  let txs := take b (AccountState.mTransactions st)
             ++ drop e (AccountState.mTransactions st) in
  let st' := withTransactions st txs in
  if isEmpty txs then
    if AccountState.mTotalFees st' =? 0
    then Some (setAccountStates q1 (delete stateIter (mAccountStates q1)))
    else Some (setAccountStates q1
                 (<[stateIter := withAge st' 0]> (mAccountStates q1)))
  else Some (setAccountStates q1 (<[stateIter := st']> (mAccountStates q1))).

(** [bannedFront.emplace(hash)] *)
Definition banFront (q : TransactionQueue) (hash : Hash)
  : option TransactionQueue :=
  match mBannedTransactions q with
  | [] => None
  | bannedFront :: rest =>
      Some (setBannedTransactions q (({[ hash ]} ∪ bannedFront) :: rest))
  end.

(** The search of [ban] for the banned transaction with the lowest
    sequence number that is queued. *)
Definition banSearch (transactions : list TransactionFrameBase)
    (txIter : nat) (tx : TransactionFrameBase) : option nat :=
  let lower := match transactions !! txIter with
               | None => true
               | Some t => getSeqNum tx <? getSeqNum t
               end in
  if lower then findTx tx transactions txIter else Some txIter.

Definition banAccount (q : TransactionQueue)
    (kv : N * list TransactionFrameBase) : option TransactionQueue :=
  match mAccountStates q !! kv.1 with
  | None => Some q
  | Some st =>
      let transactions := AccountState.mTransactions st in
      if isEmpty transactions then Some q
      else
        txIter ← forEach (banSearch transactions) kv.2 (length transactions);
        q1 ← forEach (fun q' t => banFront q' (getFullHash t))
                     (drop txIter transactions) q;
        dropTransactions q1 kv.1 txIter (length transactions)
  end.

Definition groupBySource (banTxs : list TransactionFrameBase)
  : list (N * list TransactionFrameBase) :=
  fold_left (fun m tx => stdMapUpdate (getSourceID tx) [] (fun l => l ++ [tx]) m)
            banTxs [].

Definition ban (q : TransactionQueue) (banTxs : list TransactionFrameBase)
  : option TransactionQueue :=
  _ ← head (mBannedTransactions q);
  q1 ← forEach (fun q' tx => banFront q' (getFullHash tx)) banTxs q;
  forEach banAccount (groupBySource banTxs) q1.

(** The highest applied sequence number of each source account, as the
    first loop of [removeApplied] builds it in [seqByAccount]. *)
Definition maxSeqByAccount (appliedTxs : list TransactionFrameBase)
  : list (N * Z) :=
  fold_left (fun m tx => stdMapUpdate (getSourceID tx) 0
                           (fun seq => Z.max seq (getSeqNum tx)) m)
            appliedTxs [].

Definition removeAppliedAccount (q : TransactionQueue) (kv : N * Z)
  : option TransactionQueue :=
  match mAccountStates q !! kv.1 with
  | None => Some q
  | Some st =>
      let transactions := AccountState.mTransactions st in
      match head transactions with
      | None => Some q
      | Some front =>
          if getSeqNum front <=? kv.2 then
            found ← findBySeq kv.2 transactions;
            let txIter := default (length transactions) found in
            let txIter := if (txIter <? length transactions)%nat
                          then S txIter else txIter in
            let q1 := setAccountStates q
                        (<[kv.1 := withAge st 0]> (mAccountStates q)) in
            dropTransactions q1 kv.1 0 txIter
          else Some q
      end
  end.

Definition removeApplied (q : TransactionQueue)
    (appliedTxs : list TransactionFrameBase) : option TransactionQueue :=
  forEach removeAppliedAccount (maxSeqByAccount appliedTxs) q.

(** One round of the eviction loop of [shift]. *)
Definition shiftEvict (q : TransactionQueue) (toBan : TransactionFrameBase)
  : option TransactionQueue :=
  q1 ← releaseFeeMaybeEraseAccountState q toBan;
  banFront q1 (getFullHash toBan).

(** One round of the loop of [shift] over [mAccountStates]; [it] is the key
    of the entry the iterator points to. An entry erased by an earlier
    round is not visited. *)
Definition shiftAccount (q : TransactionQueue) (it : AccountID)
  : option TransactionQueue :=
  match mAccountStates q !! it with
  | None => Some q
  | Some st =>
      let st1 := if isEmpty (AccountState.mTransactions st) then st
                 else withAge st (to_uint64 (AccountState.mAge st + 1)) in
      let q1 := setAccountStates q (<[it := st1]> (mAccountStates q)) in
      if to_uint64 (mPendingDepth q) =? AccountState.mAge st1 then
        q2 ← forEach shiftEvict (AccountState.mTransactions st1) q1;
        st2 ← mAccountStates q2 !! it;
        let q3 := setQueueSizeOps q2
                    (to_uint64 (mQueueSizeOps q2 - AccountState.mQueueSizeOps st2)) in
        let st3 := withTransactions (withQueueSizeOps st2 0) [] in
        if AccountState.mTotalFees st3 =? 0
        then Some (setAccountStates q3 (delete it (mAccountStates q3)))
        else Some (setAccountStates q3
                     (<[it := withAge st3 0]> (mAccountStates q3)))
      else Some q1
  end.

Definition shift (q : TransactionQueue) : option TransactionQueue :=
  match mBannedTransactions q with
  | [] => None
  | ring =>
      let q1 := setBannedTransactions q (∅ :: removelast ring) in
      forEach shiftAccount (map_to_list (mAccountStates q1)).*1 q1
  end.

Section WithApplication.

Variable mApp : Application.

Definition maxQueueSizeOps (q : TransactionQueue) : Z :=
  to_uint64 (getLastMaxTxSetSizeOps mApp * to_uint64 (mPoolLedgerMultiplier q)).

(** The values [canAdd] has computed when it reaches the capacity check:
    the locals [netFee], [netOps], [seqNum] and the two iterators it hands
    back ([stateFound] is [stateIter != end()], [oldTxIter] an index with
    the size of the queue for [end()]). *)
Record Located : Set := mkLocated {
  netFee : Z;
  netOps : Z;
  seqNum : Z;
  stateFound : bool;
  oldTxIter : nat
}.

(** [canAdd] from the lookup of the source account to the end of the
    replace-by-fee logic: an early return or the values above. *)
Definition canAddLocate (q : TransactionQueue) (tx : TransactionFrameBase)
  : option (AddResult * option TransactionResultCode + Located) :=
  let netFee := getFeeBid tx in
  let netOps := getNumOperations tx in
  match mAccountStates q !! getSourceID tx with
  | None => Some (inr (mkLocated netFee netOps 0 false 0))
  | Some st =>
      let transactions := AccountState.mTransactions st in
      let oldTxIter := length transactions in
      if isEmpty transactions
      then Some (inr (mkLocated netFee netOps 0 true oldTxIter))
      else
        match getEnvelopeType tx with
        | ENVELOPE_TYPE_TX_FEE_BUMP =>
            found ← findBySeq (getSeqNum tx) transactions;
            match found with
            | None => Some (inl (ADD_STATUS_ERROR, Some txBAD_SEQ))
            | Some i =>
                match transactions !! i with
                | Some oldTx =>
                    if isDuplicateTx oldTx tx
                    then Some (inl (ADD_STATUS_DUPLICATE, None))
                    else if negb (canReplaceByFee tx oldTx)
                    then Some (inl (ADD_STATUS_ERROR, Some txINSUFFICIENT_FEE))
                    else
                      let netOps := netOps - getNumOperations oldTx in
                      let oldFee := getFeeBid oldTx in
                      let netFee :=
                        if (getFeeSourceID oldTx =? getFeeSourceID tx)%N
                        then netFee - oldFee else netFee in
                      Some (inr (mkLocated netFee netOps (getSeqNum tx - 1)
                                           true i))
                | None =>
                    Some (inr (mkLocated netFee netOps (getSeqNum tx - 1)
                                         true i))
                end
            end
        | _ =>
            found ← findBySeq (getSeqNum tx) transactions;
            let dup := match found with
                       | Some i =>
                           match transactions !! i with
                           | Some t => isDuplicateTx t tx
                           | None => false
                           end
                       | None => false
                       end in
            if dup then Some (inl (ADD_STATUS_DUPLICATE, None))
            else
              back ← last transactions;
              Some (inr (mkLocated netFee netOps (getSeqNum back) true
                                   oldTxIter))
        end
  end.

(** What [canAdd] returns: the queue (changed by [ban] on a capacity
    rejection only), the status, the code written to the result of the
    transaction by the queue, and the two iterators. *)
Record CanAdd : Type := mkCanAdd {
  caQueue : TransactionQueue;
  caResult : AddResult;
  caCode : option TransactionResultCode;
  caStateFound : bool;
  caOldTxIter : nat
}.

Definition canAdd (q : TransactionQueue) (tx : TransactionFrameBase)
  : option CanAdd :=
  if isBanned q (getFullHash tx)
  then Some (mkCanAdd q ADD_STATUS_TRY_AGAIN_LATER None false 0)
  else
    located ← canAddLocate q tx;
    match located with
    | inl (res, code) => Some (mkCanAdd q res code true 0)
    | inr loc =>
        if maxQueueSizeOps q <? to_uint64 (netOps loc + mQueueSizeOps q)
        then
          q' ← ban q [tx];
          Some (mkCanAdd q' ADD_STATUS_TRY_AGAIN_LATER None
                         (stateFound loc) (oldTxIter loc))
        else if negb (checkValid mApp tx (seqNum loc))
        then Some (mkCanAdd q ADD_STATUS_ERROR None
                            (stateFound loc) (oldTxIter loc))
        else
          let totalFees :=
            match mAccountStates q !! getFeeSourceID tx with
            | None => 0
            | Some st => AccountState.mTotalFees st
            end in
          if getAvailableBalance mApp (getFeeSourceID tx) - netFee loc
             <? totalFees
          then Some (mkCanAdd q ADD_STATUS_ERROR (Some txINSUFFICIENT_BALANCE)
                              (stateFound loc) (oldTxIter loc))
          else Some (mkCanAdd q ADD_STATUS_PENDING None
                              (stateFound loc) (oldTxIter loc))
    end.

Definition isPending (r : AddResult) : bool :=
  match r with ADD_STATUS_PENDING => true | _ => false end.

(** The mutation of [tryAdd] after [canAdd] has answered
    [ADD_STATUS_PENDING]. *)
Definition tryAddCommit (q : TransactionQueue) (tx : TransactionFrameBase)
    (stateFound : bool) (oldTxIter : nat) : option TransactionQueue :=
  let src := getSourceID tx in
  let q0 := if stateFound then q
            else setAccountStates q (<[src := AccountState.init]> (mAccountStates q)) in
  let oldTxIter := if stateFound then oldTxIter else 0%nat in
  st ← mAccountStates q0 !! src;
  q3 ←
    (if (oldTxIter <? length (AccountState.mTransactions st))%nat then
       oldTx ← AccountState.mTransactions st !! oldTxIter;
       q1 ← releaseFeeMaybeEraseAccountState q0 oldTx;
       st1 ← mAccountStates q1 !! src;
       let st2 := withQueueSizeOps st1
                    (to_uint64 (AccountState.mQueueSizeOps st1
                                - getNumOperations oldTx)) in
       let st3 := withTransactions st2
                    (<[oldTxIter := tx]> (AccountState.mTransactions st2)) in
       let q2 := setAccountStates q1 (<[src := st3]> (mAccountStates q1)) in
       Some (setQueueSizeOps q2
               (to_uint64 (mQueueSizeOps q2 - getNumOperations oldTx)))
     else
       let st1 := withTransactions st (AccountState.mTransactions st ++ [tx]) in
       Some (setAccountStates q0 (<[src := st1]> (mAccountStates q0))));
  st4 ← mAccountStates q3 !! src;
  let st5 := withQueueSizeOps st4
               (to_uint64 (AccountState.mQueueSizeOps st4 + getNumOperations tx)) in
  let q4 := setAccountStates q3 (<[src := st5]> (mAccountStates q3)) in
  let q5 := setQueueSizeOps q4 (to_uint64 (mQueueSizeOps q4 + getNumOperations tx)) in
  let fs := getFeeSourceID tx in
  let fst := default AccountState.init (mAccountStates q5 !! fs) in
  Some (setAccountStates q5
          (<[fs := withTotalFees fst (AccountState.mTotalFees fst + getFeeBid tx)]>
             (mAccountStates q5))).

(** [tryAdd]: the queue afterwards, the status and the code the queue
    wrote to the result of [tx]. *)
Definition tryAdd (q : TransactionQueue) (tx : TransactionFrameBase)
  : option (TransactionQueue * AddResult * option TransactionResultCode) :=
  ca ← canAdd q tx;
  if negb (isPending (caResult ca))
  then Some (caQueue ca, caResult ca, caCode ca)
  else
    q' ← tryAddCommit (caQueue ca) tx (caStateFound ca) (caOldTxIter ca);
    Some (q', caResult ca, caCode ca).

(** [maybeVersionUpgraded]: the queue afterwards and the replaced
    transactions. *)
Definition maybeVersionUpgraded (q : TransactionQueue)
  : TransactionQueue * list (TransactionFrameBase * TransactionFrameBase) :=
  let lcl := lclLedgerVersion mApp in
  if (mLedgerVersion q <? 13) && (13 <=? lcl) then
    let q1 := setBannedTransactions q
                (map (fun _ => ∅) (mBannedTransactions q)) in
    let res := flat_map (fun kv : N * AccountState.t =>
                           map (fun txFrame => (txFrame, convertForV13 mApp txFrame))
                               (AccountState.mTransactions kv.2))
                        (map_to_list (mAccountStates q1)) in
    let q2 := setAccountStates q1
                ((fun st => withTransactions st
                              (map (convertForV13 mApp)
                                   (AccountState.mTransactions st)))
                 <$> mAccountStates q1) in
    (setLedgerVersion q2 lcl, res)
  else (setLedgerVersion q lcl, []).

End WithApplication.

(** ** Invariants of the queue state used by the properties *)

(** Invariant 4 of the data model: the sequence numbers of a queue
    increase by one from its first element. *)
Fixpoint contiguousFrom (s : Z) (l : list TransactionFrameBase) : bool :=
  match l with
  | [] => true
  | t :: l' => (getSeqNum t =? s) && contiguousFrom (s + 1) l'
  end.

Definition contiguous (l : list TransactionFrameBase) : bool :=
  match l with
  | [] => true
  | t :: _ => contiguousFrom (getSeqNum t) l
  end.

(** The front slot of the ban ring holds the hash. *)
Definition inFrontSlot (q : TransactionQueue) (hash : Hash) : Prop :=
  match mBannedTransactions q with
  | [] => False
  | bannedFront :: _ => hash ∈ bannedFront
  end.

(** ** Sample states, after the scenarios of the specification *)

Definition sampleApp : Application :=
  mkApp (fun _ _ => true) (fun _ => 1000) 100 12 (fun t => t).

(** Scenario 1 of the specification: account 10 queued at sequence 5. *)
Definition samplePlain : TransactionFrameBase :=
  mkTx 1 0 ENVELOPE_TYPE_TX 10 10 5 1 100.

Definition sampleQueue : TransactionQueue :=
  mkQueue 4
    {[ 10%N := AccountState.mk 100 1 0 [samplePlain] ]}
    [∅; ∅] 12 1 2.

(** Scenario 4: a fee bump over it that bids 999. *)
Definition sampleBump999 : TransactionFrameBase :=
  mkTx 2 1 ENVELOPE_TYPE_TX_FEE_BUMP 10 10 5 1 999.

(** The transaction in the slot [canAdd] hands to [tryAdd] for
    replacement, if that slot is not the end of the queue. *)
Definition replacedTx (q : TransactionQueue) (tx : TransactionFrameBase)
    (slot : nat) : option TransactionFrameBase :=
  st ← mAccountStates q !! getSourceID tx;
  AccountState.mTransactions st !! slot.

(** The queue of the source account of [tx], empty if it has no entry. *)
Definition sourceQueue (q : TransactionQueue) (tx : TransactionFrameBase)
  : list TransactionFrameBase :=
  match mAccountStates q !! getSourceID tx with
  | None => []
  | Some st => AccountState.mTransactions st
  end.

(** A fee bump of account 10 with a sequence number far from its queue and
    more operations than the pool admits. *)
Definition sampleBumpFar : TransactionFrameBase :=
  mkTx 3 1 ENVELOPE_TYPE_TX_FEE_BUMP 10 10 9 500 100000.

(** The sample queue after [sampleBumpFar] has been banned. *)
Definition sampleQueueBanned : TransactionQueue :=
  mkQueue 4
    {[ 10%N := AccountState.mk 100 1 0 [samplePlain] ]}
    [{[ 3%N ]}; ∅] 12 1 2.

(** A fee bump of account 10 at the sequence number after its queue, with
    more operations than the pool admits. *)
Definition sampleBumpBig : TransactionFrameBase :=
  mkTx 8 9 ENVELOPE_TYPE_TX_FEE_BUMP 10 10 6 500 100000.

(** The queue after [tx] has been appended to the queue [st] of its source
    account: the append branch of [tryAdd] written out. *)
Definition appended (q : TransactionQueue) (tx : TransactionFrameBase)
    (st : AccountState.t) : TransactionQueue :=
  let st' := AccountState.mk (AccountState.mTotalFees st)
               (to_uint64 (AccountState.mQueueSizeOps st + getNumOperations tx))
               (AccountState.mAge st)
               (AccountState.mTransactions st ++ [tx]) in
  let m := <[getSourceID tx := st']> (mAccountStates q) in
  let fst := default AccountState.init (m !! getFeeSourceID tx) in
  mkQueue (mPendingDepth q)
    (<[getFeeSourceID tx :=
         withTotalFees fst (AccountState.mTotalFees fst + getFeeBid tx)]> m)
    (mBannedTransactions q) (mLedgerVersion q)
    (to_uint64 (mQueueSizeOps q + getNumOperations tx))
    (mPoolLedgerMultiplier q).

(** A fee bump of account 10 at the sequence number after its queue. *)
Definition sampleBumpNext : TransactionFrameBase :=
  mkTx 5 6 ENVELOPE_TYPE_TX_FEE_BUMP 10 10 6 1 200.

(** Scenario 5: account 20 pays the fee of the transaction queued for
    account 10, and is asked to pay for one of account 30. *)
Definition sampleSponsored : TransactionFrameBase :=
  mkTx 6 0 ENVELOPE_TYPE_TX 10 20 5 1 600.

Definition sampleQueueSponsored : TransactionQueue :=
  mkQueue 4
    {[ 10%N := AccountState.mk 0 1 0 [sampleSponsored];
       20%N := AccountState.mk 600 0 0 [] ]}
    [∅; ∅] 12 1 2.

Definition sampleSponsored2 : TransactionFrameBase :=
  mkTx 7 0 ENVELOPE_TYPE_TX 30 20 8 1 500.

(** ** Sequences of operations on the queue *)

Inductive QueueOp : Type :=
  | OpTryAdd (tx : TransactionFrameBase)
  | OpRemoveApplied (appliedTxs : list TransactionFrameBase)
  | OpBan (banTxs : list TransactionFrameBase)
  | OpShift
  | OpVersionUpgrade.

(** One public operation, with the application as it is at the call. *)
Definition runOp (q : TransactionQueue) (call : Application * QueueOp)
  : option TransactionQueue :=
  match call.2 with
  | OpTryAdd tx => r ← tryAdd call.1 q tx; Some r.1.1
  | OpRemoveApplied appliedTxs => removeApplied q appliedTxs
  | OpBan banTxs => ban q banTxs
  | OpShift => shift q
  | OpVersionUpgrade => Some (maybeVersionUpgraded call.1 q).1
  end.

Definition runOps (calls : list (Application * QueueOp)) (q : TransactionQueue)
  : option TransactionQueue :=
  forEach runOp calls q.





(** The ban ring keeps its slots, the front one possibly larger. *)
Definition frontGrows (q q' : TransactionQueue) : Prop :=
  match mBannedTransactions q, mBannedTransactions q' with
  | [], [] => True
  | bannedFront :: rest, bannedFront' :: rest' =>
      bannedFront ⊆ bannedFront' /\ rest' = rest
  | _, _ => False
  end.

(** The slot of index [k] of the ban ring holds the hash. *)
Definition inSlot (q : TransactionQueue) (k : nat) (hash : Hash) : Prop :=
  exists transactions : gset N,
    mBannedTransactions q !! k = Some transactions /\ hash ∈ transactions.


Definition samplePlain11 : TransactionFrameBase :=
  mkTx 4 0 ENVELOPE_TYPE_TX 11 11 7 1 100.

(** The sample queue after [samplePlain11] has been banned, then after one
    [shift], and after a version upgrade instead. *)
Definition sampleQueueBan11 : TransactionQueue :=
  mkQueue 4
    {[ 10%N := AccountState.mk 100 1 0 [samplePlain] ]}
    [{[ 4%N ]}; ∅] 12 1 2.

Definition sampleQueueBan11Shifted : TransactionQueue :=
  mkQueue 4
    {[ 10%N := AccountState.mk 100 1 1 [samplePlain] ]}
    [∅; {[ 4%N ]}] 12 1 2.


(** ** Fee reservations *)

(** The fees that the transactions of [l] reserve on account [k]. *)
Fixpoint feesOn (k : N) (l : list TransactionFrameBase) : Z :=
  match l with
  | [] => 0
  | t :: l' =>
      (if (getFeeSourceID t =? k)%N then getFeeBid t else 0) + feesOn k l'
  end.

(** The operations of the transactions of [l]. *)
Fixpoint opsOf (l : list TransactionFrameBase) : Z :=
  match l with
  | [] => 0
  | t :: l' => getNumOperations t + opsOf l'
  end.

(** The fees that all queued transactions reserve on account [k]. *)
Fixpoint reservedIn (k : N) (l : list (N * AccountState.t)) : Z :=
  match l with
  | [] => 0
  | kv :: l' => feesOn k (AccountState.mTransactions kv.2) + reservedIn k l'
  end.

Definition reservedOn (k : N) (m : gmap N AccountState.t) : Z :=
  reservedIn k (map_to_list m).

Definition feesOfEntry (o : option AccountState.t) : Z :=
  match o with
  | Some st => AccountState.mTotalFees st
  | None => 0
  end.

(** An entry after [r] of its reserved fees have been released: it is
    erased when its queue is empty and nothing stays reserved. *)
Definition releasedEntry (r : Z) (st : AccountState.t)
  : option AccountState.t :=
  let fees := AccountState.mTotalFees st - r in
  if isEmpty (AccountState.mTransactions st) && (fees =? 0) then None
  else Some (withTotalFees st fees).

(** Invariants 1 and 3 of the data model, and the positive fees the
    validator lets through: every entry reserves the fee bids of the
    queued transactions it pays for, every queued transaction has a
    positive fee bid and a fee source with an entry, the operation counter
    of an entry is the sum over its queue, and an entry with an empty
    queue has age 0 and fees reserved. *)
Definition entryOk (m : gmap N AccountState.t) (kv : N * AccountState.t)
  : bool :=
  (AccountState.mTotalFees kv.2 =? reservedOn kv.1 m)
  && forallb (fun t => (0 <? getFeeBid t)
                       && bool_decide (is_Some (m !! getFeeSourceID t)))
             (AccountState.mTransactions kv.2)
  && (AccountState.mQueueSizeOps kv.2
      =? opsOf (AccountState.mTransactions kv.2))
  && (if isEmpty (AccountState.mTransactions kv.2)
      then (AccountState.mAge kv.2 =? 0)
           && negb (AccountState.mTotalFees kv.2 =? 0)
      else true).

Definition feesOk (q : TransactionQueue) : bool :=
  forallb (entryOk (mAccountStates q)) (map_to_list (mAccountStates q)).

(** ** What [shift] does, account by account *)

(** The next [shift] evicts the queue of the account: the queue is not
    empty and its age reaches [mPendingDepth]. *)
Definition agesOut (q : TransactionQueue) (st : AccountState.t) : bool :=
  negb (isEmpty (AccountState.mTransactions st))
  && (to_uint64 (mPendingDepth q) =? to_uint64 (AccountState.mAge st + 1)).

(** The age of an account is incremented only when its queue is not
    empty. *)
Definition aged (st : AccountState.t) : AccountState.t :=
  if isEmpty (AccountState.mTransactions st) then st
  else withAge st (to_uint64 (AccountState.mAge st + 1)).

(** The transactions that [shift] evicts from the given entries. *)
Definition evictedOf (q : TransactionQueue) (l : list (N * AccountState.t))
  : list TransactionFrameBase :=
  flat_map (fun kv : N * AccountState.t =>
              if agesOut q kv.2 then AccountState.mTransactions kv.2 else [])
           l.

Definition evicted (q : TransactionQueue) : list TransactionFrameBase :=
  evictedOf q (map_to_list (mAccountStates q)).

(** The entry of account [k], which was [st] before [shift], once the loop
    of [shift] has visited the entries [visited]. *)
Definition shiftedEntry (q : TransactionQueue)
    (visited : list (N * AccountState.t)) (k : N) (st : AccountState.t)
  : option AccountState.t :=
  let r := feesOn k (evictedOf q visited) in
  if bool_decide (k ∈ visited.*1) then
    if agesOut q st
    then releasedEntry r (AccountState.mk (AccountState.mTotalFees st) 0 0 [])
    else releasedEntry r (aged st)
  else releasedEntry r st.

Definition shiftedTo (q : TransactionQueue)
    (visited : list (N * AccountState.t)) : TransactionQueue :=
  mkQueue (mPendingDepth q)
    (map_imap (shiftedEntry q visited) (mAccountStates q))
    (list_to_set (map getFullHash (evictedOf q visited))
     :: removelast (mBannedTransactions q))
    (mLedgerVersion q)
    (to_uint64 (mQueueSizeOps q - opsOf (evictedOf q visited)))
    (mPoolLedgerMultiplier q).

(** The queue after [shift], in closed form. *)
Definition shifted (q : TransactionQueue) : TransactionQueue :=
  shiftedTo q (map_to_list (mAccountStates q)).

(** The state in which [shift] is called: the invariants of the fee
    reservations, a positive [mPendingDepth], a ban ring with a slot and
    an operation counter in the range of [size_t]. *)
Definition shiftReady (q : TransactionQueue) : bool :=
  feesOk q
  && (0 <? mPendingDepth q) && (mPendingDepth q <? 2 ^ 64)
  && is_uint64 (mQueueSizeOps q)
  && negb (isEmpty (mBannedTransactions q)).

(** Scenario 6 after three [shift]s: account 10 has age 3 with a pending
    depth of 4; account 20 pays the fee of the second transaction of
    account 10 and has a transaction of its own, admitted later. *)
Definition sampleOld1 : TransactionFrameBase :=
  mkTx 21 0 ENVELOPE_TYPE_TX 10 10 5 1 100.

Definition sampleOld2 : TransactionFrameBase :=
  mkTx 22 23 ENVELOPE_TYPE_TX_FEE_BUMP 10 20 6 2 300.

Definition sampleYoung : TransactionFrameBase :=
  mkTx 24 0 ENVELOPE_TYPE_TX 20 20 9 1 50.

Definition sampleQueueOld : TransactionQueue :=
  mkQueue 4
    {[ 10%N := AccountState.mk 100 3 3 [sampleOld1; sampleOld2];
       20%N := AccountState.mk 350 1 1 [sampleYoung] ]}
    [{[ 7%N ]}; ∅] 12 4 2.

(** ** What [removeApplied] does, account by account *)

(** The value of a key in a [std::map] modelled as an association list. *)
Fixpoint stdMapFind {V : Type} (k : N) (m : list (N * V)) : option V :=
  match m with
  | [] => None
  | (k', v) :: m' => if (k =? k')%N then Some v else stdMapFind k m'
  end.

(** The highest sequence number among the applied transactions of the
    account, if there is one. *)
Definition maxAppliedSeq (a : N) (appliedTxs : list TransactionFrameBase)
  : option Z :=
  match filter (fun tx => getSourceID tx = a) appliedTxs with
  | [] => None
  | tx :: txs => Some (foldr Z.max (getSeqNum tx) (map getSeqNum txs))
  end.

(** [removeApplied] drops from the queue of the entry when the queue is
    not empty and its first sequence number is not above [maxSeq]. *)
Definition dropsApplied (st : AccountState.t) (maxSeq : Z) : bool :=
  match head (AccountState.mTransactions st) with
  | None => false
  | Some front => getSeqNum front <=? maxSeq
  end.

(** The transactions it drops are those with a sequence number up to
    [maxSeq], the ones it keeps those above. *)
Definition removedFrom (st : AccountState.t) (maxSeq : Z)
  : list TransactionFrameBase :=
  if dropsApplied st maxSeq
  then filter (fun t => getSeqNum t <= maxSeq) (AccountState.mTransactions st)
  else [].

Definition keptFrom (st : AccountState.t) (maxSeq : Z)
  : list TransactionFrameBase :=
  if dropsApplied st maxSeq
  then filter (fun t => maxSeq < getSeqNum t) (AccountState.mTransactions st)
  else AccountState.mTransactions st.

(** The transactions dropped for the visited pairs of account and highest
    applied sequence number. *)
Definition removedOf (q : TransactionQueue) (visited : list (N * Z))
  : list TransactionFrameBase :=
  flat_map (fun kv : N * Z =>
              match mAccountStates q !! kv.1 with
              | Some st => removedFrom st kv.2
              | None => []
              end)
           visited.

(** The entry of account [k], which was [st] before [removeApplied], once
    the loop has visited the pairs [visited]. *)
Definition appliedEntry (q : TransactionQueue) (visited : list (N * Z))
    (k : N) (st : AccountState.t) : option AccountState.t :=
  let r := feesOn k (removedOf q visited) in
  match stdMapFind k visited with
  | Some maxSeq =>
      if dropsApplied st maxSeq
      then releasedEntry r
             (AccountState.mk (AccountState.mTotalFees st)
                (to_uint64 (AccountState.mQueueSizeOps st
                            - opsOf (removedFrom st maxSeq)))
                0 (keptFrom st maxSeq))
      else releasedEntry r st
  | None => releasedEntry r st
  end.

Definition appliedTo (q : TransactionQueue) (visited : list (N * Z))
  : TransactionQueue :=
  mkQueue (mPendingDepth q)
    (map_imap (appliedEntry q visited) (mAccountStates q))
    (mBannedTransactions q)
    (mLedgerVersion q)
    (to_uint64 (mQueueSizeOps q - opsOf (removedOf q visited)))
    (mPoolLedgerMultiplier q).

(** The state in which [removeApplied] is called: the invariants of the
    fee reservations, contiguous queues and operation counters in the
    range of [size_t]. *)
Definition appliedReady (q : TransactionQueue) : bool :=
  feesOk q
  && is_uint64 (mQueueSizeOps q)
  && forallb (fun kv : N * AccountState.t =>
                contiguous (AccountState.mTransactions kv.2)
                && is_uint64 (AccountState.mQueueSizeOps kv.2))
             (map_to_list (mAccountStates q)).

(** Account 10 has a transaction queued at sequence 10 and pays the fee of
    the fee bump queued for account 20; a transaction of account 10 with
    the earlier sequence number 3 is applied together with that fee
    bump. *)
Definition sampleOwn : TransactionFrameBase :=
  mkTx 31 0 ENVELOPE_TYPE_TX 10 10 10 1 100.

Definition samplePaidFor : TransactionFrameBase :=
  mkTx 32 33 ENVELOPE_TYPE_TX_FEE_BUMP 20 10 5 2 300.

Definition sampleEarlier : TransactionFrameBase :=
  mkTx 34 0 ENVELOPE_TYPE_TX 10 10 3 1 100.

Definition sampleQueuePaying : TransactionQueue :=
  mkQueue 4
    {[ 10%N := AccountState.mk 400 1 2 [sampleOwn];
       20%N := AccountState.mk 0 2 1 [samplePaidFor] ]}
    [∅; ∅] 12 3 2.

Definition sampleQueuePaid : TransactionQueue :=
  mkQueue 4
    {[ 10%N := AccountState.mk 100 1 2 [sampleOwn] ]}
    [∅; ∅] 12 1 2.

(** A validator that checks the sequence number against the one it is
    given, as the transaction frames do. *)
Definition sampleAppStrict : Application :=
  mkApp (fun tx seq => (seq =? 0) || (getSeqNum tx =? seq + 1))
        (fun _ => 100000) 100 12 (fun t => t).

(** Scenario 3: the fee bump that bids 1000, queued in place of
    [samplePlain]. *)
Definition sampleBump1000 : TransactionFrameBase :=
  mkTx 2 1 ENVELOPE_TYPE_TX_FEE_BUMP 10 10 5 1 1000.

Definition sampleQueueBumped : TransactionQueue :=
  mkQueue 4
    {[ 10%N := AccountState.mk 1000 1 0 [sampleBump1000] ]}
    [∅; ∅] 12 1 2.

(** A banned fee bump over [samplePlain] that bids 999, and a plain
    transaction at the same sequence number that bids 1000. *)
Definition sampleBumpBanned : TransactionFrameBase :=
  mkTx 3 1 ENVELOPE_TYPE_TX_FEE_BUMP 10 10 5 1 999.

Definition samplePlainRich : TransactionFrameBase :=
  mkTx 9 0 ENVELOPE_TYPE_TX 10 10 5 1 1000.

(** A plain transaction of account 10 at the sequence number after its
    queue. *)
Definition samplePlainNext : TransactionFrameBase :=
  mkTx 41 0 ENVELOPE_TYPE_TX 10 10 6 1 100.

(** Every account has a spendable balance of 2000. *)
Definition sampleAppRich : Application :=
  mkApp (fun _ _ => true) (fun _ => 2000) 100 12 (fun t => t).

(** A transaction of account 10 at sequence 5 that bids 10. *)
Definition sampleCheap : TransactionFrameBase :=
  mkTx 42 0 ENVELOPE_TYPE_TX 10 10 5 1 10.

(** ** Queues that only lose transactions *)

(** Every entry of [q'] is an entry of [q], and its queue is related by
    [R] to the queue it had in [q]. *)
Definition queuesUnder (R : relation (list TransactionFrameBase))
    (q q' : TransactionQueue) : Prop :=
  forall a st', mAccountStates q' !! a = Some st' ->
    exists st, mAccountStates q !! a = Some st
               /\ R (AccountState.mTransactions st')
                    (AccountState.mTransactions st).

(** The queue is as it was or has been emptied. *)
Definition sameOrEmptied (l' l : list TransactionFrameBase) : Prop :=
  l' = l \/ l' = [].

(** ** The candidate set *)

(** The transactions of one queue that [toTxSet] adds: the loop over the
    queue stops after the transaction with the sequence number
    [startingSeq - 1]. *)
Fixpoint toTxSetAccount (startingSeq : Z) (txs : list TransactionFrameBase)
  : list TransactionFrameBase :=
  match txs with
  | [] => []
  | tx :: txs' =>
      tx :: (if getSeqNum tx =? startingSeq - 1 then []
             else toTxSetAccount startingSeq txs')
  end.

(** [toTxSet]: the transactions added to the set, in the order of the
    calls of [add]. [getStartingSequenceNumber] of
    transactions/TransactionUtils is outside the translation unit and is a
    parameter; [ledgerSeq] is the [uint32] sequence number of [lcl]. *)
Definition toTxSet (getStartingSequenceNumber : Z -> Z)
    (q : TransactionQueue) (ledgerSeq : Z) : list TransactionFrameBase :=
  let nextLedgerSeq := (ledgerSeq + 1) mod 2 ^ 32 in
  let startingSeq := getStartingSequenceNumber nextLedgerSeq in
  flat_map (fun kv : N * AccountState.t =>
              toTxSetAccount startingSeq (AccountState.mTransactions kv.2))
           (map_to_list (mAccountStates q)).

(** The first sequence number of a ledger: its number in the high 32
    bits. *)
Definition sampleStartingSeq (ledgerSeq : Z) : Z := Z.shiftl ledgerSeq 32.

(** Account 10 has three transactions queued at the end of the sequence
    numbers of ledger 1 and at the start of those of ledger 2. *)
Definition sampleEdge1 : TransactionFrameBase :=
  mkTx 51 0 ENVELOPE_TYPE_TX 10 10 8589934590 1 100.

Definition sampleEdge2 : TransactionFrameBase :=
  mkTx 52 0 ENVELOPE_TYPE_TX 10 10 8589934591 1 100.

Definition sampleEdge3 : TransactionFrameBase :=
  mkTx 53 0 ENVELOPE_TYPE_TX 10 10 8589934592 1 100.

Definition sampleQueueEdge : TransactionQueue :=
  mkQueue 4
    {[ 10%N := AccountState.mk 300 3 0 [sampleEdge1; sampleEdge2; sampleEdge3] ]}
    [∅; ∅] 12 3 2.

(** Every queue that is not empty has an age from 0 and below
    [mPendingDepth]: the eviction of [shift] comes before the age passes
    it. *)
Definition agesOk (q : TransactionQueue) : bool :=
  forallb (fun kv : N * AccountState.t =>
             isEmpty (AccountState.mTransactions kv.2)
             || ((0 <=? AccountState.mAge kv.2)
                 && (AccountState.mAge kv.2 <? mPendingDepth q)))
          (map_to_list (mAccountStates q)).

(** Every queue that is not empty has an age from [n] and below
    [mPendingDepth]. *)
Definition agesFrom (n : Z) (q : TransactionQueue) : Prop :=
  forall a st, mAccountStates q !! a = Some st ->
               AccountState.mTransactions st <> [] ->
               n <= AccountState.mAge st < mPendingDepth q.

(** The queue of an entry, empty for no entry. *)
Definition entryTxs (o : option AccountState.t) : list TransactionFrameBase :=
  match o with
  | Some st => AccountState.mTransactions st
  | None => []
  end.

(** The attributes of every queued transaction are in the range of their
    types. *)
Definition txsInRange (q : TransactionQueue) : bool :=
  forallb (fun kv : N * AccountState.t =>
             forallb tx_in_range (AccountState.mTransactions kv.2))
          (map_to_list (mAccountStates q)).

(** The invariants of the queue between two calls: those of the fee
    reservations, contiguous queues, counters and attributes in the range
    of their types. *)
Definition queueOk (q : TransactionQueue) : bool :=
  appliedReady q && txsInRange q.

(** The state between two calls: the invariants of the queue, a positive
    [mPendingDepth] and a ban ring with a slot. *)
Definition stateOk (q : TransactionQueue) : bool :=
  queueOk q && shiftReady q.

(** The calls made when a ledger closes. *)
Definition isMaintenance (op : QueueOp) : bool :=
  match op with
  | OpRemoveApplied _ | OpBan _ | OpShift => true
  | OpTryAdd _ | OpVersionUpgrade => false
  end.


(** [mSizeByAge[age]]: the constructor gives the vector one counter for
    each age from 0 and below [pendingDepth], none when [pendingDepth] is
    not positive; an access outside it ends the execution. *)
Definition sizeByAgeAt (q : TransactionQueue) (age : Z) : option unit :=
  if (0 <=? age) && (age <? mPendingDepth q) then Some tt else None.

(** * Properties *)

(** ** Integer helpers *)

Lemma to_uint64_small z : 0 <= z < 2 ^ 64 -> to_uint64 z = z.
Proof. intros. unfold to_uint64. apply Z.mod_small. lia. Qed.

Lemma to_uint64_sub_l a b : to_uint64 (to_uint64 a - b) = to_uint64 (a - b).
Proof. unfold to_uint64. apply Zminus_mod_idemp_l. Qed.

Lemma to_uint128_small z : 0 <= z < 2 ^ 128 -> to_uint128 z = z.
Proof. intros. unfold to_uint128. apply Z.mod_small. lia. Qed.

Lemma tx_in_range_spec tx :
  tx_in_range tx = true ->
  - 2 ^ 63 <= getSeqNum tx < 2 ^ 63
  /\ 0 <= getNumOperations tx < 2 ^ 32
  /\ 0 <= getFeeBid tx < 2 ^ 63.
Proof. unfold tx_in_range, is_int64, is_uint32. lia. Qed.

(** ** The fee rule *)

Lemma canReplaceByFee_exact tx oldTx :
  tx_in_range tx = true -> tx_in_range oldTx = true ->
  bigMultiply (getFeeBid tx) (Z.max 1 (getNumOperations oldTx))
    = getFeeBid tx * Z.max 1 (getNumOperations oldTx)
  /\ to_uint128 (FEE_MULTIPLIER
                 * bigMultiply (getFeeBid oldTx) (Z.max 1 (getNumOperations tx)))
    = FEE_MULTIPLIER * getFeeBid oldTx * Z.max 1 (getNumOperations tx)
  /\ FEE_MULTIPLIER * getFeeBid oldTx * Z.max 1 (getNumOperations tx) < 2 ^ 128.
Proof.
  intros [_ [Hops Hfee]]%tx_in_range_spec [_ [Hops' Hfee']]%tx_in_range_spec.
  unfold bigMultiply, FEE_MULTIPLIER.
  assert (H1 : 1 <= Z.max 1 (getNumOperations oldTx) < 2 ^ 32) by lia.
  assert (H2 : 1 <= Z.max 1 (getNumOperations tx) < 2 ^ 32) by lia.
  set (a := Z.max 1 (getNumOperations oldTx)) in *.
  set (b := Z.max 1 (getNumOperations tx)) in *.
  assert (Hp1 : 0 <= getFeeBid tx * a < 2 ^ 95).
  { change (2 ^ 95) with (2 ^ 63 * 2 ^ 32). nia. }
  assert (Hp2 : 0 <= getFeeBid oldTx * b < 2 ^ 95).
  { change (2 ^ 95) with (2 ^ 63 * 2 ^ 32). nia. }
  rewrite (to_uint128_small (getFeeBid tx * a)) by lia.
  rewrite (to_uint128_small (getFeeBid oldTx * b)) by lia.
  rewrite to_uint128_small by lia. lia.
Qed.

Lemma canReplaceByFee_spec tx oldTx :
  tx_in_range tx = true -> tx_in_range oldTx = true ->
  canReplaceByFee tx oldTx = true <->
  getFeeBid tx * Z.max 1 (getNumOperations oldTx)
    >= FEE_MULTIPLIER * getFeeBid oldTx * Z.max 1 (getNumOperations tx).
Proof.
  intros Htx Hold.
  destruct (canReplaceByFee_exact tx oldTx Htx Hold) as (E1 & E2 & _).
  unfold canReplaceByFee. cbv zeta. rewrite E1, E2. rewrite Z.leb_le. lia.
Qed.

(** ** Searching a contiguous queue *)

Lemma contiguousFrom_lookup l : forall s (i : nat) t,
  contiguousFrom s l = true -> l !! i = Some t ->
  getSeqNum t = s + Z.of_nat i.
Proof.
  induction l as [|x l IH]; intros s i t Hc Hl; [done|].
  simpl in Hc. apply andb_true_iff in Hc as [Hx Hc].
  destruct i as [|i]; simpl in Hl.
  - injection Hl as ->. lia.
  - rewrite (IH _ _ _ Hc Hl). lia.
Qed.

Lemma contiguous_lookup l front (i : nat) t :
  contiguous l = true -> head l = Some front -> l !! i = Some t ->
  getSeqNum t = getSeqNum front + Z.of_nat i.
Proof.
  destruct l as [|x l]; [done|]. intros Hc [= ->] Hl.
  eapply contiguousFrom_lookup; eauto.
Qed.

Lemma last_lookup_length {A} (l : list A) :
  last l = l !! (length l - 1)%nat.
Proof. rewrite last_lookup. f_equal. lia. Qed.

Lemma contiguous_last l front back :
  contiguous l = true -> head l = Some front -> last l = Some back ->
  getSeqNum back = getSeqNum front + Z.of_nat (length l) - 1.
Proof.
  intros Hc Hh Hl. rewrite last_lookup_length in Hl.
  rewrite (contiguous_lookup _ _ _ _ Hc Hh Hl).
  destruct l; [done|]. simpl length. lia.
Qed.

(** On a contiguous queue [findBySeq] passes its assertions and finds the
    slot by its offset from the first sequence number. *)
Lemma findBySeq_contiguous seq l front :
  contiguous l = true -> head l = Some front ->
  findBySeq seq l =
    Some (if (seq <? getSeqNum front)
             || (getSeqNum front + Z.of_nat (length l) <? seq)
          then None
          else Some (Z.to_nat (seq - getSeqNum front))).
Proof.
  intros Hc Hh. unfold findBySeq. rewrite Hh. simpl.
  destruct (last l) as [back|] eqn:Hl.
  2:{ destruct l; [done|]. by rewrite last_cons in Hl; destruct (last l). }
  simpl. rewrite (contiguous_last _ _ _ Hc Hh Hl).
  replace (getSeqNum front + Z.of_nat (length l) - 1 + 1)
    with (getSeqNum front + Z.of_nat (length l)) by lia.
  destruct ((seq <? getSeqNum front)
            || (getSeqNum front + Z.of_nat (length l) <? seq)) eqn:Hout; [done|].
  apply orb_false_iff in Hout as [H1 H2].
  apply Z.ltb_ge in H1, H2.
  replace (seq - getSeqNum front <=? Z.of_nat (length l)) with true
    by (symmetry; apply Z.leb_le; lia).
  simpl.
  destruct (l !! Z.to_nat (seq - getSeqNum front)) as [t|] eqn:Ht; [|done].
  rewrite (contiguous_lookup _ _ _ _ Hc Hh Ht).
  replace (getSeqNum front + Z.of_nat (Z.to_nat (seq - getSeqNum front)) =? seq)
    with true by (symmetry; apply Z.eqb_eq; lia).
  done.
Qed.

Lemma findBySeq_slot seq l (i : nat) t :
  contiguous l = true -> l !! i = Some t -> getSeqNum t = seq ->
  findBySeq seq l = Some (Some i).
Proof.
  intros Hc Hl Hs.
  destruct (head l) as [front|] eqn:Hh; [|by destruct l].
  rewrite (findBySeq_contiguous _ _ _ Hc Hh).
  pose proof (contiguous_lookup _ _ _ _ Hc Hh Hl) as Hi.
  pose proof (lookup_lt_Some _ _ _ Hl) as Hlt.
  replace ((seq <? getSeqNum front)
           || (getSeqNum front + Z.of_nat (length l) <? seq)) with false.
  - do 2 f_equal. lia.
  - symmetry. apply orb_false_iff. split; apply Z.ltb_ge; lia.
Qed.

(** ** Duplicates *)

Lemma isDuplicateTx_spec oldTx newTx :
  isDuplicateTx oldTx newTx = true <->
  (getEnvelopeType oldTx = getEnvelopeType newTx
   /\ getFullHash oldTx = getFullHash newTx)
  \/ (getEnvelopeType oldTx = ENVELOPE_TYPE_TX_FEE_BUMP
      /\ getEnvelopeType newTx = ENVELOPE_TYPE_TX
      /\ getInnerFullHash oldTx = getFullHash newTx).
Proof.
  unfold isDuplicateTx.
  destruct (getEnvelopeType oldTx), (getEnvelopeType newTx); simpl;
    rewrite ?N.eqb_eq; intuition congruence.
Qed.

Lemma isDuplicateTx_refl tx : isDuplicateTx tx tx = true.
Proof. apply isDuplicateTx_spec. by left. Qed.

(** ** Equality of account summaries *)

(** C10: [operator==] on [AccountTxQueueInfo] compares the highest
    sequence number, the total fees and the operation count, and nothing
    else: two summaries that differ in the age only are equal, and two
    summaries are equal exactly when the three compared fields are. *)
Theorem AccountTxQueueInfo_eq_ignores_age :
  (forall maxSeq totalFees queueSizeOps age1 age2,
     AccountTxQueueInfo_eqb
       (AccountTxQueueInfo.mk maxSeq totalFees queueSizeOps age1)
       (AccountTxQueueInfo.mk maxSeq totalFees queueSizeOps age2) = true)
  /\ (forall x y,
        AccountTxQueueInfo_eqb x y = true <->
        AccountTxQueueInfo.mMaxSeq x = AccountTxQueueInfo.mMaxSeq y
        /\ AccountTxQueueInfo.mTotalFees x = AccountTxQueueInfo.mTotalFees y
        /\ AccountTxQueueInfo.mQueueSizeOps x
           = AccountTxQueueInfo.mQueueSizeOps y).
Proof.
  split.
  - intros. unfold AccountTxQueueInfo_eqb. simpl. by rewrite !Z.eqb_refl.
  - intros x y. unfold AccountTxQueueInfo_eqb.
    rewrite !andb_true_iff, !Z.eqb_eq. tauto.
Qed.

(** ** Admission: replace-by-fee *)

(** C1, as the code has it: for a fee-bump transaction [tx] that is not
    banned and a queued transaction [oldTx] of the same sequence number
    that [tx] does not duplicate, [tryAdd] permits the replacement exactly
    when fee_bid(tx) * max(1, num_ops(old)) >= 10 * fee_bid(old) *
    max(1, num_ops(tx)); the two products are computed in 128 bits without
    wrapping; when the inequality holds [canAdd] records the slot of
    [oldTx] for replacement, and when it fails [tryAdd] writes
    txINSUFFICIENT_FEE, returns ADD_STATUS_ERROR and leaves the queue as
    it was, [oldTx] still queued. *)
Theorem replace_by_fee_rule (mApp : Application) (q : TransactionQueue)
    (tx oldTx : TransactionFrameBase) (st : AccountState.t) (i : nat) :
  tx_in_range tx = true -> tx_in_range oldTx = true ->
  isBanned q (getFullHash tx) = false ->
  getEnvelopeType tx = ENVELOPE_TYPE_TX_FEE_BUMP ->
  mAccountStates q !! getSourceID tx = Some st ->
  contiguous (AccountState.mTransactions st) = true ->
  AccountState.mTransactions st !! i = Some oldTx ->
  getSeqNum oldTx = getSeqNum tx ->
  isDuplicateTx oldTx tx = false ->
  let permitted :=
    getFeeBid tx * Z.max 1 (getNumOperations oldTx)
    >= 10 * getFeeBid oldTx * Z.max 1 (getNumOperations tx) in
  (canReplaceByFee tx oldTx = true <-> permitted)
  /\ bigMultiply (getFeeBid tx) (Z.max 1 (getNumOperations oldTx))
     = getFeeBid tx * Z.max 1 (getNumOperations oldTx)
  /\ to_uint128 (FEE_MULTIPLIER
                 * bigMultiply (getFeeBid oldTx) (Z.max 1 (getNumOperations tx)))
     = 10 * getFeeBid oldTx * Z.max 1 (getNumOperations tx)
  /\ (permitted ->
      canAddLocate q tx
      = Some (inr (mkLocated
                     (if (getFeeSourceID oldTx =? getFeeSourceID tx)%N
                      then getFeeBid tx - getFeeBid oldTx else getFeeBid tx)
                     (getNumOperations tx - getNumOperations oldTx)
                     (getSeqNum tx - 1) true i)))
  /\ (~ permitted ->
      tryAdd mApp q tx = Some (q, ADD_STATUS_ERROR, Some txINSUFFICIENT_FEE)
      /\ mAccountStates q !! getSourceID tx = Some st
      /\ AccountState.mTransactions st !! i = Some oldTx).
Proof.
  intros Htx Hold Hban Hty Hst Hc Hi Hseq Hdup permitted.
  pose proof (canReplaceByFee_spec tx oldTx Htx Hold) as Hrule.
  destruct (canReplaceByFee_exact tx oldTx Htx Hold) as (E1 & E2 & _).
  change FEE_MULTIPLIER with 10 in Hrule, E2 |- *.
  assert (Hloc : canAddLocate q tx =
            if canReplaceByFee tx oldTx
            then Some (inr (mkLocated
                     (if (getFeeSourceID oldTx =? getFeeSourceID tx)%N
                      then getFeeBid tx - getFeeBid oldTx else getFeeBid tx)
                     (getNumOperations tx - getNumOperations oldTx)
                     (getSeqNum tx - 1) true i))
            else Some (inl (ADD_STATUS_ERROR, Some txINSUFFICIENT_FEE))).
  { unfold canAddLocate. rewrite Hst.
    destruct (AccountState.mTransactions st) as [|t0 txs] eqn:Htxs;
      [by rewrite lookup_nil in Hi|].
    rewrite <- Htxs in *. replace (isEmpty (AccountState.mTransactions st))
      with false by (by rewrite Htxs).
    rewrite Hty, (findBySeq_slot _ _ _ _ Hc Hi Hseq). simpl.
    rewrite Hi, Hdup. by destruct (canReplaceByFee tx oldTx). }
  repeat split; try assumption; try apply Hrule.
  - intros Hp. apply Hrule in Hp. by rewrite Hloc, Hp.
  - assert (Hno : canReplaceByFee tx oldTx = false).
    { destruct (canReplaceByFee tx oldTx); [|done]. exfalso. apply H.
      by apply Hrule. }
    unfold tryAdd, canAdd. rewrite Hban, Hloc, Hno. done.
Qed.

Lemma replace_by_fee_rule_witness :
  tryAdd sampleApp sampleQueue sampleBump999
  = Some (sampleQueue, ADD_STATUS_ERROR, Some txINSUFFICIENT_FEE).
Proof.
  refine (proj1 (proj2 (proj2 (proj2 (proj2
    (replace_by_fee_rule sampleApp sampleQueue sampleBump999 samplePlain
       (AccountState.mk 100 1 0 [samplePlain]) 0
       eq_refl eq_refl eq_refl eq_refl eq_refl eq_refl eq_refl eq_refl eq_refl))))
    _)).
  cbn. lia.
Defined.

(** The fee rule is reached by fee bumps only, and after the ban and the
    duplicate checks: a fee bump that is queued already and is submitted
    again fails the inequality and is answered ADD_STATUS_DUPLICATE; a
    banned fee bump that fails it is answered ADD_STATUS_TRY_AGAIN_LATER;
    a plain transaction that satisfies it over the queued transaction of
    its sequence number replaces nothing (it is checked against the last
    queued sequence number and rejected by the validator). *)
Lemma replace_by_fee_gates_counterexample :
  (sourceQueue sampleQueueBumped sampleBump1000 = [sampleBump1000]
   /\ ~ getFeeBid sampleBump1000 * Z.max 1 (getNumOperations sampleBump1000)
        >= 10 * getFeeBid sampleBump1000
           * Z.max 1 (getNumOperations sampleBump1000)
   /\ tryAdd sampleApp sampleQueueBumped sampleBump1000
      = Some (sampleQueueBumped, ADD_STATUS_DUPLICATE, None))
  /\ (sourceQueue sampleQueueBanned sampleBumpBanned = [samplePlain]
      /\ getSeqNum sampleBumpBanned = getSeqNum samplePlain
      /\ ~ getFeeBid sampleBumpBanned * Z.max 1 (getNumOperations samplePlain)
           >= 10 * getFeeBid samplePlain
              * Z.max 1 (getNumOperations sampleBumpBanned)
      /\ tryAdd sampleApp sampleQueueBanned sampleBumpBanned
         = Some (sampleQueueBanned, ADD_STATUS_TRY_AGAIN_LATER, None))
  /\ (sourceQueue sampleQueue samplePlainRich = [samplePlain]
      /\ getSeqNum samplePlainRich = getSeqNum samplePlain
      /\ getFeeBid samplePlainRich * Z.max 1 (getNumOperations samplePlain)
         >= 10 * getFeeBid samplePlain
            * Z.max 1 (getNumOperations samplePlainRich)
      /\ canAddLocate sampleQueue samplePlainRich
         = Some (inr (mkLocated 1000 1 5 true 1))
      /\ tryAdd sampleAppStrict sampleQueue samplePlainRich
         = Some (sampleQueue, ADD_STATUS_ERROR, None)).
Proof.
  repeat split; try (vm_compute; reflexivity); cbn; lia.
Qed.

(** ** Admission: sequence numbers of fee bumps *)

(** C6, as the code has it: a fee-bump transaction that is not banned,
    whose source account has a queue that is not empty and whose sequence
    number lies outside [first queued, last queued + 1], is rejected:
    [tryAdd] writes txBAD_SEQ, returns ADD_STATUS_ERROR and leaves the
    queue as it was. *)
Theorem fee_bump_bad_seq (mApp : Application) (q : TransactionQueue)
    (tx front back : TransactionFrameBase) (st : AccountState.t) :
  isBanned q (getFullHash tx) = false ->
  getEnvelopeType tx = ENVELOPE_TYPE_TX_FEE_BUMP ->
  mAccountStates q !! getSourceID tx = Some st ->
  head (AccountState.mTransactions st) = Some front ->
  last (AccountState.mTransactions st) = Some back ->
  getSeqNum tx < getSeqNum front \/ getSeqNum back + 1 < getSeqNum tx ->
  tryAdd mApp q tx = Some (q, ADD_STATUS_ERROR, Some txBAD_SEQ).
Proof.
  intros Hban Hty Hst Hh Hl Hout.
  assert (Hfind : findBySeq (getSeqNum tx) (AccountState.mTransactions st)
                  = Some None).
  { unfold findBySeq. rewrite Hh, Hl. simpl.
    replace ((getSeqNum tx <? getSeqNum front)
             || (getSeqNum back + 1 <? getSeqNum tx)) with true; [done|].
    symmetry. apply orb_true_iff. rewrite !Z.ltb_lt. lia. }
  unfold tryAdd, canAdd, canAddLocate. rewrite Hban, Hst.
  destruct (AccountState.mTransactions st) eqn:Htxs; [done|].
  simpl isEmpty. cbv iota. rewrite Hty, Hfind. done.
Qed.

Lemma fee_bump_bad_seq_witness :
  tryAdd sampleApp sampleQueue sampleBumpFar
  = Some (sampleQueue, ADD_STATUS_ERROR, Some txBAD_SEQ).
Proof.
  apply (fee_bump_bad_seq sampleApp sampleQueue sampleBumpFar
           samplePlain samplePlain (AccountState.mk 100 1 0 [samplePlain]));
    try reflexivity.
  right. cbn. lia.
Defined.

(** A banned fee bump with a sequence number outside the interval is
    turned away by the ban check, which comes first: the answer is
    ADD_STATUS_TRY_AGAIN_LATER and no code is written. *)
Lemma fee_bump_bad_seq_banned_counterexample :
  getEnvelopeType sampleBumpFar = ENVELOPE_TYPE_TX_FEE_BUMP
  /\ sourceQueue sampleQueueBanned sampleBumpFar = [samplePlain]
  /\ getSeqNum samplePlain + 1 < getSeqNum sampleBumpFar
  /\ tryAdd sampleApp sampleQueueBanned sampleBumpFar
     = Some (sampleQueueBanned, ADD_STATUS_TRY_AGAIN_LATER, None)
  /\ tryAdd sampleApp sampleQueueBanned sampleBumpFar
     <> Some (sampleQueueBanned, ADD_STATUS_ERROR, Some txBAD_SEQ).
Proof.
  assert (H : tryAdd sampleApp sampleQueueBanned sampleBumpFar
              = Some (sampleQueueBanned, ADD_STATUS_TRY_AGAIN_LATER, None))
    by (vm_compute; reflexivity).
  repeat split; try reflexivity; try assumption.
  rewrite H. discriminate.
Qed.

(** ** Admission: what [canAdd] has computed at the capacity check *)

Lemma canAddLocate_nets q tx loc :
  canAddLocate q tx = Some (inr loc) ->
  netFee loc
  = match replacedTx q tx (oldTxIter loc) with
    | Some oldTx =>
        if (getFeeSourceID oldTx =? getFeeSourceID tx)%N
        then getFeeBid tx - getFeeBid oldTx else getFeeBid tx
    | None => getFeeBid tx
    end
  /\ netOps loc
     = getNumOperations tx
       - match replacedTx q tx (oldTxIter loc) with
         | Some oldTx => getNumOperations oldTx
         | None => 0
         end
  /\ stateFound loc
     = match mAccountStates q !! getSourceID tx with
       | Some _ => true
       | None => false
       end.
Proof.
  unfold canAddLocate, replacedTx.
  destruct (mAccountStates q !! getSourceID tx) as [st|] eqn:Hst; simpl.
  2:{ intros [= <-]. simpl. repeat split; lia. }
  destruct (AccountState.mTransactions st) as [|t0 txs] eqn:Htxs.
  { simpl. intros [= <-]. simpl. repeat split; lia. }
  rewrite <- Htxs. replace (isEmpty (AccountState.mTransactions st))
    with false by (by rewrite Htxs).
  destruct (getEnvelopeType tx).
  - destruct (findBySeq _ _) as [found|]; [simpl|done].
    match goal with |- context [if ?b then _ else _] => destruct b end;
      [done|].
    destruct (last _); [simpl|done]. intros [= <-]. simpl.
    rewrite (lookup_ge_None_2 _ _ (Nat.le_refl _)). repeat split; lia.
  - destruct (findBySeq _ _) as [[i|]|]; simpl; try done.
    destruct (AccountState.mTransactions st !! i) as [oldTx|] eqn:Hi.
    + destruct (isDuplicateTx oldTx tx); [done|].
      destruct (canReplaceByFee tx oldTx); [simpl|done].
      intros [= <-]. simpl. rewrite Hi. done.
    + intros [= <-]. simpl. rewrite Hi. repeat split; lia.
Qed.

(** ** Admission: the reservation check *)

(** C5: for a transaction that has passed the ban check, the sequence and
    fee checks, the capacity check and the validator, [tryAdd] returns
    ADD_STATUS_ERROR with txINSUFFICIENT_BALANCE exactly when the spendable
    balance of the fee source minus the marginal fee is below the total
    already reserved on the fee source (0 without an entry), the marginal
    fee being the bid of [tx] less the bid of the transaction it replaces
    when both have the same fee source; on this error the queue is as it
    was, and otherwise [canAdd] answers ADD_STATUS_PENDING. *)
Theorem reservation_check (mApp : Application) (q : TransactionQueue)
    (tx : TransactionFrameBase) (loc : Located) :
  isBanned q (getFullHash tx) = false ->
  canAddLocate q tx = Some (inr loc) ->
  to_uint64 (netOps loc + mQueueSizeOps q) <= maxQueueSizeOps mApp q ->
  checkValid mApp tx (seqNum loc) = true ->
  let totalFees := match mAccountStates q !! getFeeSourceID tx with
                   | None => 0
                   | Some st => AccountState.mTotalFees st
                   end in
  let marginal := match replacedTx q tx (oldTxIter loc) with
                  | Some oldTx =>
                      if (getFeeSourceID oldTx =? getFeeSourceID tx)%N
                      then getFeeBid tx - getFeeBid oldTx else getFeeBid tx
                  | None => getFeeBid tx
                  end in
  let short :=
    getAvailableBalance mApp (getFeeSourceID tx) - marginal < totalFees in
  (short ->
   tryAdd mApp q tx = Some (q, ADD_STATUS_ERROR, Some txINSUFFICIENT_BALANCE))
  /\ ((exists q', tryAdd mApp q tx
                  = Some (q', ADD_STATUS_ERROR, Some txINSUFFICIENT_BALANCE))
      -> short)
  /\ (~ short ->
      canAdd mApp q tx
      = Some (mkCanAdd q ADD_STATUS_PENDING None
                       (stateFound loc) (oldTxIter loc))).
Proof.
  intros Hban Hloc Hcap Hvalid totalFees marginal short.
  destruct (canAddLocate_nets _ _ _ Hloc) as (Hfee & _ & _).
  fold marginal in Hfee.
  assert (Hca : canAdd mApp q tx =
            if getAvailableBalance mApp (getFeeSourceID tx) - marginal
               <? totalFees
            then Some (mkCanAdd q ADD_STATUS_ERROR (Some txINSUFFICIENT_BALANCE)
                                (stateFound loc) (oldTxIter loc))
            else Some (mkCanAdd q ADD_STATUS_PENDING None
                                (stateFound loc) (oldTxIter loc))).
  { unfold canAdd. rewrite Hban, Hloc. simpl.
    replace (maxQueueSizeOps mApp q <? to_uint64 (netOps loc + mQueueSizeOps q))
      with false by (symmetry; apply Z.ltb_ge; lia).
    rewrite Hvalid, Hfee. done. }
  unfold short. rewrite <- Z.ltb_lt.
  destruct (_ <? _) eqn:Hlt.
  - split; [|split]; [| done | done].
    intros _. unfold tryAdd. rewrite Hca. done.
  - split; [done|]. split; [|done].
    intros [q' Hq']. unfold tryAdd in Hq'. rewrite Hca in Hq'. simpl in Hq'.
    destruct (tryAddCommit _ _ _ _); simpl in Hq'; congruence.
Qed.

Lemma reservation_check_witness :
  tryAdd sampleApp sampleQueueSponsored sampleSponsored2
  = Some (sampleQueueSponsored, ADD_STATUS_ERROR, Some txINSUFFICIENT_BALANCE).
Proof.
  refine (proj1 (reservation_check sampleApp sampleQueueSponsored
                   sampleSponsored2 (mkLocated 500 1 0 false 0)
                   eq_refl eq_refl _ eq_refl) _).
  - vm_compute. discriminate.
  - vm_compute. reflexivity.
Defined.

(** ** Admission: a fee bump at the sequence number after the queue *)



(** ** Admission: the capacity check *)

Lemma setAccountStates_id q : setAccountStates q (mAccountStates q) = q.
Proof. by destruct q. Qed.

Lemma withTransactions_id st :
  withTransactions st (AccountState.mTransactions st) = st.
Proof. by destruct st. Qed.

(** Dropping an empty range of a queue that is not empty changes nothing. *)
Lemma dropTransactions_nothing q stateIter st (n : nat) :
  mAccountStates q !! stateIter = Some st ->
  AccountState.mTransactions st <> [] ->
  dropTransactions q stateIter n n = Some q.
Proof.
  intros Hst Hne. unfold dropTransactions. rewrite Hst. simpl.
  rewrite Nat.sub_diag, take_0. simpl. rewrite Hst. simpl.
  rewrite take_drop.
  destruct (AccountState.mTransactions st) eqn:Htxs; [done|].
  simpl. rewrite <- Htxs, withTransactions_id, insert_id by done.
  by rewrite setAccountStates_id.
Qed.

(** Banning a transaction that is not queued only inserts its hash in the
    front slot of the ring. *)
Lemma ban_unqueued q tx bannedFront rest :
  mBannedTransactions q = bannedFront :: rest ->
  (sourceQueue q tx = []
   \/ findBySeq (getSeqNum tx) (sourceQueue q tx) <> None) ->
  (forall (i : nat) t,
     findBySeq (getSeqNum tx) (sourceQueue q tx) = Some (Some i) ->
     sourceQueue q tx !! i = Some t -> getFullHash t <> getFullHash tx) ->
  ban q [tx]
  = Some (setBannedTransactions q
            (({[ getFullHash tx ]} ∪ bannedFront) :: rest)).
Proof.
  intros Hring Hfind Hhash. unfold ban, banFront. rewrite Hring. simpl.
  unfold banFront. rewrite Hring. simpl.
  set (q1 := setBannedTransactions q _).
  unfold banAccount. simpl.
  change (mAccountStates q1) with (mAccountStates q).
  unfold sourceQueue in Hfind, Hhash.
  destruct (mAccountStates q !! getSourceID tx) as [st|] eqn:Hst; [|done].
  destruct (AccountState.mTransactions st) as [|t0 txs] eqn:Htxs; [done|].
  rewrite <- Htxs in *.
  replace (isEmpty (AccountState.mTransactions st)) with false
    by (by rewrite Htxs).
  assert (Hsearch : banSearch (AccountState.mTransactions st)
                      (length (AccountState.mTransactions st)) tx
                    = Some (length (AccountState.mTransactions st))).
  { unfold banSearch. rewrite (lookup_ge_None_2 _ _ (Nat.le_refl _)).
    unfold findTx.
    destruct (findBySeq _ _) as [[i|]|] eqn:Hfound; simpl.
    - destruct (_ !! i) as [t|] eqn:Ht; [|done].
      specialize (Hhash i t eq_refl Ht).
      by apply N.eqb_neq in Hhash as ->.
    - by rewrite (lookup_ge_None_2 _ _ (Nat.le_refl _)).
    - destruct Hfind as [Hfind|Hfind]; [by rewrite Htxs in Hfind|done]. }
  simpl. rewrite Hsearch. simpl. rewrite drop_all. simpl.
  rewrite (dropTransactions_nothing q1 _ st); [done|done|].
  by rewrite Htxs.
Qed.

(** A transaction that reaches the capacity check is not a duplicate of
    the queued transaction of its sequence number; full hashes being
    digests of the whole envelope, its full hash differs from that one's. *)
Lemma canAddLocate_slot_differs q tx loc :
  canAddLocate q tx = Some (inr loc) ->
  (forall t, t ∈ sourceQueue q tx -> getFullHash t = getFullHash tx ->
             getEnvelopeType t = getEnvelopeType tx) ->
  (sourceQueue q tx = []
   \/ findBySeq (getSeqNum tx) (sourceQueue q tx) <> None)
  /\ forall (i : nat) t,
       findBySeq (getSeqNum tx) (sourceQueue q tx) = Some (Some i) ->
       sourceQueue q tx !! i = Some t -> getFullHash t <> getFullHash tx.
Proof.
  unfold canAddLocate, sourceQueue. intros Hloc Hdigest.
  destruct (mAccountStates q !! getSourceID tx) as [st|];
    [|split; [by left|intros ??? H; by rewrite lookup_nil in H]].
  destruct (AccountState.mTransactions st) as [|t0 txs] eqn:Htxs;
    [split; [by left|intros ??? H; by rewrite lookup_nil in H]|].
  rewrite <- Htxs in *. replace (isEmpty (AccountState.mTransactions st))
    with false in Hloc by (by rewrite Htxs).
  assert (Hnodup : forall (i : nat) t,
            findBySeq (getSeqNum tx) (AccountState.mTransactions st)
            = Some (Some i) ->
            AccountState.mTransactions st !! i = Some t ->
            isDuplicateTx t tx = false).
  { intros i t Hfound Ht. rewrite Hfound in Hloc. simpl in Hloc.
    rewrite Ht in Hloc.
    destruct (isDuplicateTx t tx); [|done].
    by destruct (getEnvelopeType tx). }
  split.
  - right. intros Hnone. rewrite Hnone in Hloc.
    by destruct (getEnvelopeType tx).
  - intros i t Hfound Ht Heq.
    pose proof (Hnodup i t Hfound Ht) as Hd.
    assert (isDuplicateTx t tx = true); [|congruence].
    apply isDuplicateTx_spec. left. split; [|done].
    apply Hdigest; [|done]. by eapply list_elem_of_lookup_2.
Qed.

(** C7, as the code has it: a transaction that is not banned and has
    passed the duplicate, sequence and fee checks (full hashes being
    digests of the whole envelope: a queued transaction with the full hash
    of [tx] has its envelope type), and whose net operation count (its own
    less that of the transaction it replaces) added to the operation count
    of the queue exceeds [maxQueueSizeOps] - the per-ledger cap of the
    last closed ledger times the pool multiplier - is answered
    ADD_STATUS_TRY_AGAIN_LATER, and the queue differs only by the full
    hash of [tx] in the front slot of the ban ring: the account states and
    the operation counter are as they were. *)
Theorem capacity_rejection (mApp : Application) (q : TransactionQueue)
    (tx : TransactionFrameBase) (loc : Located)
    (bannedFront : gset N) (rest : list (gset N)) :
  mBannedTransactions q = bannedFront :: rest ->
  isBanned q (getFullHash tx) = false ->
  (forall t, t ∈ sourceQueue q tx -> getFullHash t = getFullHash tx ->
             getEnvelopeType t = getEnvelopeType tx) ->
  canAddLocate q tx = Some (inr loc) ->
  maxQueueSizeOps mApp q < to_uint64 (netOps loc + mQueueSizeOps q) ->
  netOps loc
  = getNumOperations tx
    - match replacedTx q tx (oldTxIter loc) with
      | Some oldTx => getNumOperations oldTx
      | None => 0
      end
  /\ maxQueueSizeOps mApp q
     = (getLastMaxTxSetSizeOps mApp * (mPoolLedgerMultiplier q mod 2 ^ 64))
       mod 2 ^ 64
  /\ exists q',
       tryAdd mApp q tx = Some (q', ADD_STATUS_TRY_AGAIN_LATER, None)
       /\ mBannedTransactions q'
          = ({[ getFullHash tx ]} ∪ bannedFront) :: rest
       /\ mAccountStates q' = mAccountStates q
       /\ mQueueSizeOps q' = mQueueSizeOps q
       /\ mPendingDepth q' = mPendingDepth q
       /\ mLedgerVersion q' = mLedgerVersion q
       /\ mPoolLedgerMultiplier q' = mPoolLedgerMultiplier q.
Proof.
  intros Hring Hban Hdigest Hloc Hcap.
  destruct (canAddLocate_nets _ _ _ Hloc) as (_ & Hops & _).
  destruct (canAddLocate_slot_differs _ _ _ Hloc Hdigest) as [Hfind Hhash].
  split; [done|]. split; [done|].
  exists (setBannedTransactions q
            (({[ getFullHash tx ]} ∪ bannedFront) :: rest)).
  split; [|by repeat split].
  unfold tryAdd, canAdd. rewrite Hban, Hloc. simpl.
  replace (maxQueueSizeOps mApp q <? to_uint64 (netOps loc + mQueueSizeOps q))
    with true by (symmetry; apply Z.ltb_lt; lia).
  by rewrite (ban_unqueued q tx bannedFront rest Hring Hfind Hhash).
Qed.

Lemma capacity_rejection_witness :
  exists q',
    tryAdd sampleApp sampleQueue sampleBumpBig
    = Some (q', ADD_STATUS_TRY_AGAIN_LATER, None)
    /\ mBannedTransactions q' = ({[ 8%N ]} ∪ ∅) :: [∅]
    /\ mAccountStates q' = mAccountStates sampleQueue
    /\ mQueueSizeOps q' = mQueueSizeOps sampleQueue
    /\ mPendingDepth q' = mPendingDepth sampleQueue
    /\ mLedgerVersion q' = mLedgerVersion sampleQueue
    /\ mPoolLedgerMultiplier q' = mPoolLedgerMultiplier sampleQueue.
Proof.
  refine (proj2 (proj2
    (capacity_rejection sampleApp sampleQueue sampleBumpBig
       (mkLocated 100000 500 5 true 1) ∅ [∅] eq_refl eq_refl _ eq_refl _))).
  - intros t Ht. vm_compute in Ht. apply list_elem_of_singleton in Ht.
    subst t. discriminate.
  - vm_compute. reflexivity.
Defined.

(** A fee bump that is not banned and not a duplicate, and that would
    overflow the pool, is rejected for its sequence number before the
    capacity check is reached: the answer is ADD_STATUS_ERROR with
    txBAD_SEQ, and nothing is banned. *)
Lemma capacity_after_bad_seq_counterexample :
  isBanned sampleQueue (getFullHash sampleBumpFar) = false
  /\ (forall t, t ∈ sourceQueue sampleQueue sampleBumpFar ->
                isDuplicateTx t sampleBumpFar = false
                /\ getFullHash t <> getFullHash sampleBumpFar)
  /\ maxQueueSizeOps sampleApp sampleQueue
     < to_uint64 (getNumOperations sampleBumpFar + mQueueSizeOps sampleQueue)
  /\ tryAdd sampleApp sampleQueue sampleBumpFar
     = Some (sampleQueue, ADD_STATUS_ERROR, Some txBAD_SEQ)
  /\ tryAdd sampleApp sampleQueue sampleBumpFar
     <> Some (setBannedTransactions sampleQueue
                [{[ getFullHash sampleBumpFar ]} ∪ ∅; ∅],
              ADD_STATUS_TRY_AGAIN_LATER, None).
Proof.
  assert (H : tryAdd sampleApp sampleQueue sampleBumpFar
              = Some (sampleQueue, ADD_STATUS_ERROR, Some txBAD_SEQ))
    by (vm_compute; reflexivity).
  split; [reflexivity|]. split.
  - intros t Ht. vm_compute in Ht. apply list_elem_of_singleton in Ht.
    subst t. split; [reflexivity|discriminate].
  - split; [vm_compute; reflexivity|]. split; [exact H|].
    rewrite H. discriminate.
Qed.

(** ** The ban ring under the operations *)

Lemma forEach_preserves {S A : Type} (R : S -> S -> Prop)
    (body : S -> A -> option S) :
  (forall s, R s s) ->
  (forall s1 s2 s3, R s1 s2 -> R s2 s3 -> R s1 s3) ->
  (forall s x s', body s x = Some s' -> R s s') ->
  forall l s s', forEach body l s = Some s' -> R s s'.
Proof.
  intros Hrefl Htrans Hbody l.
  induction l as [|x l IH]; intros s s' Hrun; simpl in Hrun.
  - injection Hrun as ->. apply Hrefl.
  - apply bind_Some in Hrun as (s1 & Hx & Hrun).
    eapply Htrans; [eapply Hbody|eapply IH]; eauto.
Qed.

Lemma frontGrows_refl q : frontGrows q q.
Proof. unfold frontGrows. destruct (mBannedTransactions q); done. Qed.

Lemma frontGrows_trans q1 q2 q3 :
  frontGrows q1 q2 -> frontGrows q2 q3 -> frontGrows q1 q3.
Proof.
  unfold frontGrows.
  destruct (mBannedTransactions q1), (mBannedTransactions q2),
    (mBannedTransactions q3); try done.
  intros [H1 ->] [H2 ->]. split; [set_solver|done].
Qed.

Lemma frontGrows_same q q' :
  mBannedTransactions q' = mBannedTransactions q -> frontGrows q q'.
Proof.
  unfold frontGrows. intros ->. destruct (mBannedTransactions q); done.
Qed.

Lemma frontGrows_length q q' :
  frontGrows q q' ->
  length (mBannedTransactions q') = length (mBannedTransactions q).
Proof.
  unfold frontGrows.
  destruct (mBannedTransactions q), (mBannedTransactions q'); try done.
  by intros [_ ->].
Qed.

Lemma frontGrows_inSlot q q' k hash :
  frontGrows q q' -> inSlot q k hash -> inSlot q' k hash.
Proof.
  unfold frontGrows, inSlot.
  destruct (mBannedTransactions q), (mBannedTransactions q'); try done.
  intros [Hsub ->] (s & Hs & Hin). destruct k as [|k]; simpl in *.
  - injection Hs as ->. eexists. split; [done|set_solver].
  - eauto.
Qed.


Lemma inSlot_0 q hash : inSlot q 0 hash <-> inFrontSlot q hash.
Proof.
  unfold inSlot, inFrontSlot. destruct (mBannedTransactions q); simpl.
  - split; [by intros (? & ? & ?)|done].
  - split; [by intros (? & [= ->] & ?)|eauto].
Qed.

Lemma isBanned_inSlot q hash :
  isBanned q hash = true <-> exists k, inSlot q k hash.
Proof.
  unfold isBanned, inSlot. rewrite existsb_exists. split.
  - intros (s & Hs & Hin). apply bool_decide_eq_true in Hin.
    apply list_elem_of_In, list_elem_of_lookup in Hs as [k Hk]. eauto.
  - intros (k & s & Hk & Hin). exists s. split.
    + apply list_elem_of_In. eapply list_elem_of_lookup_2; eauto.
    + by apply bool_decide_eq_true.
Qed.

Lemma releaseFee_ring q tx q' :
  releaseFeeMaybeEraseAccountState q tx = Some q' ->
  mBannedTransactions q' = mBannedTransactions q
  /\ mQueueSizeOps q' = mQueueSizeOps q.
Proof.
  unfold releaseFeeMaybeEraseAccountState. intros H.
  apply bind_Some in H as (st & _ & H).
  destruct (negb _); [done|].
  destruct (_ && _); by injection H as <-.
Qed.

Lemma dropOne_ring stateIter q tx q' :
  dropOne stateIter q tx = Some q' ->
  mBannedTransactions q' = mBannedTransactions q.
Proof.
  unfold dropOne. intros H. apply bind_Some in H as (st & _ & H).
  apply releaseFee_ring in H as [-> _]. done.
Qed.

Lemma dropTransactions_ring q stateIter b e q' :
  dropTransactions q stateIter b e = Some q' ->
  mBannedTransactions q' = mBannedTransactions q.
Proof.
  unfold dropTransactions. intros H.
  apply bind_Some in H as (st0 & _ & H).
  apply bind_Some in H as (q1 & Hloop & H).
  apply bind_Some in H as (st & _ & H).
  assert (Hq1 : mBannedTransactions q1 = mBannedTransactions q).
  { revert Hloop.
    apply (forEach_preserves
             (fun a b => mBannedTransactions b = mBannedTransactions a)).
    - done.
    - intros ??? E1 E2. by rewrite E2.
    - intros ???. apply dropOne_ring. }
  rewrite <- Hq1.
  destruct (isEmpty _); [destruct (_ =? _)|]; by injection H as <-.
Qed.

Lemma banFront_grows q hash q' :
  banFront q hash = Some q' -> frontGrows q q' /\ inFrontSlot q' hash.
Proof.
  unfold banFront, frontGrows, inFrontSlot.
  destruct (mBannedTransactions q) eqn:Hr; [done|].
  intros [= <-]. simpl. set_solver.
Qed.

Lemma forEach_banFront_grows {A} (f : A -> Hash) l q q' :
  forEach (fun q0 t => banFront q0 (f t)) l q = Some q' -> frontGrows q q'.
Proof.
  apply (forEach_preserves frontGrows).
  - apply frontGrows_refl.
  - apply frontGrows_trans.
  - intros ??? H. by apply banFront_grows in H as [? _].
Qed.

Lemma banAccount_grows q kv q' :
  banAccount q kv = Some q' -> frontGrows q q'.
Proof.
  unfold banAccount. intros H.
  destruct (mAccountStates q !! kv.1) as [st|];
    [|injection H as <-; apply frontGrows_refl].
  destruct (isEmpty _); [injection H as <-; apply frontGrows_refl|].
  apply bind_Some in H as (txIter & _ & H).
  apply bind_Some in H as (q1 & Hban & H).
  apply forEach_banFront_grows in Hban.
  apply dropTransactions_ring in H.
  eapply frontGrows_trans; [exact Hban|by apply frontGrows_same].
Qed.

Lemma ban_grows q banTxs q' :
  ban q banTxs = Some q' -> frontGrows q q'.
Proof.
  unfold ban. intros H.
  apply bind_Some in H as (f & _ & H).
  apply bind_Some in H as (q1 & Hban & H).
  apply forEach_banFront_grows in Hban.
  eapply frontGrows_trans; [exact Hban|].
  revert H. apply (forEach_preserves frontGrows).
  - apply frontGrows_refl.
  - apply frontGrows_trans.
  - apply banAccount_grows.
Qed.

Lemma ban_inFrontSlot q tx l q' :
  ban q (tx :: l) = Some q' -> inFrontSlot q' (getFullHash tx).
Proof.
  unfold ban. intros H.
  apply bind_Some in H as (f & _ & H).
  apply bind_Some in H as (q1 & Hban & H).
  simpl in Hban. apply bind_Some in Hban as (q0 & Hfront & Hban).
  apply banFront_grows in Hfront as [_ Hin].
  apply forEach_banFront_grows in Hban.
  assert (Hgrow : frontGrows q0 q').
  { eapply frontGrows_trans; [exact Hban|].
    revert H. apply (forEach_preserves frontGrows).
    - apply frontGrows_refl.
    - apply frontGrows_trans.
    - apply banAccount_grows. }
  apply inSlot_0. eapply frontGrows_inSlot; [exact Hgrow|].
  by apply inSlot_0.
Qed.


Lemma tryAddCommit_ring q tx found slot q' :
  tryAddCommit q tx found slot = Some q' ->
  mBannedTransactions q' = mBannedTransactions q.
Proof.
  unfold tryAddCommit. intros H.
  apply bind_Some in H as (st & _ & H).
  apply bind_Some in H as (q3 & H3 & H).
  apply bind_Some in H as (st4 & _ & H).
  injection H as <-. simpl.
  destruct (_ <? _)%nat.
  - apply bind_Some in H3 as (oldTx & _ & H3).
    apply bind_Some in H3 as (q1 & Hrel & H3).
    apply bind_Some in H3 as (st1 & _ & H3).
    injection H3 as <-. simpl. apply releaseFee_ring in Hrel as [-> _].
    by destruct found.
  - injection H3 as <-. by destruct found.
Qed.

Lemma tryAdd_grows mApp q tx r :
  tryAdd mApp q tx = Some r -> frontGrows q r.1.1.
Proof.
  unfold tryAdd, canAdd. intros H.
  destruct (isBanned q (getFullHash tx)).
  { simpl in H. injection H as <-. apply frontGrows_refl. }
  apply bind_Some in H as (ca & Hca & H).
  apply bind_Some in Hca as (located & _ & Hca).
  assert (Hgrow : frontGrows q (caQueue ca)).
  { destruct located as [[res code]|loc].
    - injection Hca as <-. apply frontGrows_refl.
    - destruct (_ <? _).
      + apply bind_Some in Hca as (q1 & Hban & Hca). injection Hca as <-.
        by apply ban_grows in Hban.
      + destruct (negb _); [injection Hca as <-; apply frontGrows_refl|].
        destruct (_ <? _); injection Hca as <-; apply frontGrows_refl. }
  destruct (negb _).
  - by injection H as <-.
  - apply bind_Some in H as (q1 & Hcommit & H). injection H as <-. simpl.
    apply tryAddCommit_ring in Hcommit.
    eapply frontGrows_trans; [exact Hgrow|by apply frontGrows_same].
Qed.










(** ** Bans expire with the ring *)




(** ** A second submission *)

Lemma canAddLocate_early q tx res code :
  canAddLocate q tx = Some (inl (res, code)) -> res <> ADD_STATUS_PENDING.
Proof.
  unfold canAddLocate.
  destruct (mAccountStates q !! getSourceID tx) as [st|]; [|done].
  destruct (isEmpty _); [done|].
  destruct (getEnvelopeType tx).
  - destruct (findBySeq _ _) as [found|]; [simpl|done].
    match goal with |- context [if ?b then _ else _] => destruct b end.
    + by intros [= <- <-].
    + by destruct (last _).
  - destruct (findBySeq _ _) as [[i|]|]; simpl; try done.
    + destruct (_ !! i) as [oldTx|]; [|done].
      destruct (isDuplicateTx oldTx tx); [by intros [= <- <-]|].
      destruct (negb _); [by intros [= <- <-]|done].
    + by intros [= <- <-].
Qed.

(** An answer ADD_STATUS_PENDING comes from the mutation of [tryAdd], run
    on the queue as it was, for a transaction that is not banned. *)
Lemma tryAdd_pending mApp q tx q' code :
  tryAdd mApp q tx = Some (q', ADD_STATUS_PENDING, code) ->
  isBanned q (getFullHash tx) = false
  /\ exists found slot, tryAddCommit q tx found slot = Some q'.
Proof.
  unfold tryAdd, canAdd. intros H.
  destruct (isBanned q (getFullHash tx)); [done|]. split; [done|].
  apply bind_Some in H as (ca & Hca & H).
  apply bind_Some in Hca as (located & Hloc & Hca).
  destruct located as [[res c]|loc].
  - injection Hca as <-. simpl in H. apply canAddLocate_early in Hloc.
    destruct res; simpl in H; congruence.
  - destruct (_ <? _).
    { apply bind_Some in Hca as (q1 & _ & Hca). injection Hca as <-.
      simpl in H. congruence. }
    destruct (negb _); [injection Hca as <-; simpl in H; congruence|].
    destruct (_ <? _); injection Hca as <-; simpl in H; [congruence|].
    apply bind_Some in H as (q1 & Hcommit & H). injection H as <- <-. eauto.
Qed.

(** The mutation of [tryAdd] leaves [tx] in the queue of its source
    account. *)
Lemma tryAddCommit_queued q tx found slot q' :
  tryAddCommit q tx found slot = Some q' ->
  exists (j : nat), sourceQueue q' tx !! j = Some tx.
Proof.
  unfold tryAddCommit. intros H.
  apply bind_Some in H as (st & Hst & H).
  apply bind_Some in H as (q3 & H3 & H).
  apply bind_Some in H as (st4 & Hst4 & H).
  assert (Hin : exists j : nat, AccountState.mTransactions st4 !! j = Some tx).
  { destruct (_ <? _)%nat eqn:Hslot.
    - apply bind_Some in H3 as (oldTx & Hold & H3).
      apply bind_Some in H3 as (q1 & Hrel & H3).
      apply bind_Some in H3 as (st1 & Hst1 & H3).
      injection H3 as <-. simpl in Hst4. rewrite lookup_insert_eq in Hst4.
      injection Hst4 as <-. simpl.
      exists (if found then slot else 0%nat).
      apply list_lookup_insert_eq.
      unfold releaseFeeMaybeEraseAccountState in Hrel.
      apply bind_Some in Hrel as (fst & Hfst & Hrel).
      destruct (negb _); [done|].
      apply Nat.ltb_lt in Hslot.
      destruct (decide (getFeeSourceID oldTx = getSourceID tx)) as [E|NE].
      + rewrite E in *. rewrite Hst in Hfst. injection Hfst as <-.
        destruct (_ && _) eqn:Hempty; injection Hrel as <-; simpl in Hst1.
        * by rewrite lookup_delete_eq in Hst1.
        * rewrite lookup_insert_eq in Hst1. by injection Hst1 as <-.
      + destruct (_ && _); injection Hrel as <-; simpl in Hst1.
        * rewrite lookup_delete_ne in Hst1 by done. congruence.
        * rewrite lookup_insert_ne in Hst1 by done. congruence.
    - injection H3 as <-. simpl in Hst4. rewrite lookup_insert_eq in Hst4.
      injection Hst4 as <-. simpl.
      exists (length (AccountState.mTransactions st)).
      by rewrite list_lookup_middle. }
  injection H as <-. unfold sourceQueue. simpl.
  destruct (decide (getFeeSourceID tx = getSourceID tx)) as [E|NE].
  - rewrite E, lookup_insert_eq. simpl. rewrite lookup_insert_eq. done.
  - rewrite lookup_insert_ne, lookup_insert_eq by done. done.
Qed.

Lemma isBanned_ring q q' hash :
  mBannedTransactions q' = mBannedTransactions q ->
  isBanned q' hash = isBanned q hash.
Proof. unfold isBanned. by intros ->. Qed.

(** C8: when [tryAdd] of [tx] has answered ADD_STATUS_PENDING and the
    queue of the source account is contiguous afterwards (invariant 4), a
    second [tryAdd] of [tx] answers ADD_STATUS_DUPLICATE, writes no code
    and leaves the queue as it is; two transactions are duplicates when
    their envelope types and full hashes are equal, or when the stored one
    is a fee bump whose inner full hash is the full hash of the plain new
    one. *)
Theorem duplicate_after_pending (mApp : Application) (q q' : TransactionQueue)
    (tx : TransactionFrameBase) (code : option TransactionResultCode) :
  tryAdd mApp q tx = Some (q', ADD_STATUS_PENDING, code) ->
  contiguous (sourceQueue q' tx) = true ->
  tryAdd mApp q' tx = Some (q', ADD_STATUS_DUPLICATE, None)
  /\ (exists j : nat, sourceQueue q' tx !! j = Some tx)
  /\ forall stored new,
       isDuplicateTx stored new = true <->
       (getEnvelopeType stored = getEnvelopeType new
        /\ getFullHash stored = getFullHash new)
       \/ (getEnvelopeType stored = ENVELOPE_TYPE_TX_FEE_BUMP
           /\ getEnvelopeType new = ENVELOPE_TYPE_TX
           /\ getInnerFullHash stored = getFullHash new).
Proof.
  intros Hadd Hc.
  apply tryAdd_pending in Hadd as (Hban & found & slot & Hcommit).
  pose proof (tryAddCommit_ring _ _ _ _ _ Hcommit) as Hring.
  destruct (tryAddCommit_queued _ _ _ _ _ Hcommit) as [j Hj].
  split; [|split; [eauto|apply isDuplicateTx_spec]].
  unfold tryAdd, canAdd. rewrite (isBanned_ring _ _ _ Hring), Hban.
  assert (Hloc : canAddLocate q' tx = Some (inl (ADD_STATUS_DUPLICATE, None))).
  { unfold canAddLocate. unfold sourceQueue in Hc, Hj.
    destruct (mAccountStates q' !! getSourceID tx) as [st|]; [|done].
    destruct (AccountState.mTransactions st) as [|t0 txs] eqn:Htxs; [done|].
    rewrite <- Htxs in *. replace (isEmpty (AccountState.mTransactions st))
      with false by (by rewrite Htxs).
    rewrite (findBySeq_slot _ _ _ _ Hc Hj eq_refl). simpl.
    rewrite Hj, isDuplicateTx_refl. by destruct (getEnvelopeType tx). }
  rewrite Hloc. done.
Qed.

Lemma duplicate_after_pending_witness :
  tryAdd sampleApp
    (appended sampleQueue sampleBumpNext (AccountState.mk 100 1 0 [samplePlain]))
    sampleBumpNext
  = Some (appended sampleQueue sampleBumpNext
            (AccountState.mk 100 1 0 [samplePlain]),
          ADD_STATUS_DUPLICATE, None).
Proof.
  refine (proj1 (duplicate_after_pending sampleApp sampleQueue _
                   sampleBumpNext None _ _)).
  - vm_compute. reflexivity.
  - vm_compute. reflexivity.
Defined.

(** ** Releasing fee reservations *)

Lemma feesOn_app k l1 l2 : feesOn k (l1 ++ l2) = feesOn k l1 + feesOn k l2.
Proof. induction l1 as [|t l1 IH]; simpl; [done|]. rewrite IH. lia. Qed.

Lemma opsOf_app l1 l2 : opsOf (l1 ++ l2) = opsOf l1 + opsOf l2.
Proof. induction l1 as [|t l1 IH]; simpl; [done|]. rewrite IH. lia. Qed.

Lemma feesOn_nonneg k l :
  (forall t, t ∈ l -> 0 < getFeeBid t) -> 0 <= feesOn k l.
Proof.
  induction l as [|t l IH]; intros Hpos; simpl; [done|].
  assert (0 < getFeeBid t) by (apply Hpos; left).
  assert (0 <= feesOn k l) by (apply IH; intros; apply Hpos; by right).
  destruct (_ =? _)%N; lia.
Qed.

Lemma feesOn_other k l :
  (forall t, t ∈ l -> getFeeSourceID t <> k) -> feesOn k l = 0.
Proof.
  induction l as [|t l IH]; intros Hne; simpl; [done|].
  rewrite IH by (intros; apply Hne; by right).
  assert (getFeeSourceID t <> k) as ->%N.eqb_neq by (apply Hne; left). done.
Qed.

Lemma withTotalFees_id st :
  withTotalFees st (AccountState.mTotalFees st) = st.
Proof. by destruct st. Qed.

Lemma feesOfEntry_released r st :
  feesOfEntry (releasedEntry r st) = AccountState.mTotalFees st - r.
Proof.
  unfold releasedEntry. destruct (_ && _) eqn:E; simpl; [|done].
  apply andb_true_iff in E as [_ E]. apply Z.eqb_eq in E. lia.
Qed.

Lemma releasedEntry_0 st :
  (AccountState.mTransactions st = [] -> AccountState.mTotalFees st <> 0) ->
  releasedEntry 0 st = Some st.
Proof.
  intros Hidle. unfold releasedEntry. rewrite Z.sub_0_r, withTotalFees_id.
  destruct (AccountState.mTransactions st); simpl; [|done].
  by apply Z.eqb_neq in Hidle as ->.
Qed.

Lemma releasedEntry_compose r f st :
  0 <= f -> r + f <= AccountState.mTotalFees st ->
  releasedEntry r st ≫= releasedEntry f = releasedEntry (r + f) st.
Proof.
  intros Hf Hle. unfold releasedEntry.
  replace (AccountState.mTotalFees st - (r + f))
    with (AccountState.mTotalFees st - r - f) by lia.
  destruct (AccountState.mTransactions st) eqn:Htxs; simpl.
  - destruct (AccountState.mTotalFees st - r =? 0) eqn:E1; simpl.
    + apply Z.eqb_eq in E1.
      replace (AccountState.mTotalFees st - r - f =? 0) with true; [done|].
      symmetry. apply Z.eqb_eq. lia.
    + rewrite Htxs. simpl. by destruct (_ =? 0).
  - rewrite Htxs. done.
Qed.

Lemma releasedEntry_idle r st st' :
  releasedEntry r st = Some st' ->
  AccountState.mTransactions st' = [] -> AccountState.mTotalFees st' <> 0.
Proof.
  unfold releasedEntry. destruct (_ && _) eqn:E; [done|].
  intros [= <-]. simpl. intros Htxs. rewrite Htxs in E. simpl in E.
  by apply Z.eqb_neq.
Qed.

(** The preconditions under which the fees of [ts] can be released one
    after the other without a failed assertion. *)
Definition releasable (ts : list TransactionFrameBase)
    (m : gmap N AccountState.t) : Prop :=
  (forall t, t ∈ ts -> 0 < getFeeBid t)
  /\ (forall k, feesOn k ts <= feesOfEntry (m !! k))
  /\ (forall k st, m !! k = Some st -> AccountState.mTransactions st = [] ->
                   AccountState.mTotalFees st <> 0).

Lemma releaseFee_lookup q tx st :
  mAccountStates q !! getFeeSourceID tx = Some st ->
  getFeeBid tx <= AccountState.mTotalFees st ->
  exists q',
    releaseFeeMaybeEraseAccountState q tx = Some q'
    /\ (forall k, mAccountStates q' !! k
                  = if decide (k = getFeeSourceID tx)
                    then releasedEntry (getFeeBid tx) st
                    else mAccountStates q !! k)
    /\ mBannedTransactions q' = mBannedTransactions q
    /\ mQueueSizeOps q' = mQueueSizeOps q
    /\ mPendingDepth q' = mPendingDepth q
    /\ mLedgerVersion q' = mLedgerVersion q
    /\ mPoolLedgerMultiplier q' = mPoolLedgerMultiplier q.
Proof.
  intros Hst Hle. unfold releaseFeeMaybeEraseAccountState. rewrite Hst. simpl.
  replace (getFeeBid tx <=? AccountState.mTotalFees st) with true
    by (symmetry; by apply Z.leb_le).
  simpl. unfold releasedEntry.
  destruct (_ && _); eexists; (split; [reflexivity|]); simpl;
    (split; [|done]); intros k; destruct (decide _) as [->|NE].
  - apply lookup_delete_eq.
  - by apply lookup_delete_ne.
  - apply lookup_insert_eq.
  - by apply lookup_insert_ne.
Qed.

(** One release step keeps the rest of the list releasable. *)
Lemma releasable_step t ts (m m' : gmap N AccountState.t) st :
  releasable (t :: ts) m ->
  m !! getFeeSourceID t = Some st ->
  (forall k, m' !! k = if decide (k = getFeeSourceID t)
                       then releasedEntry (getFeeBid t) st else m !! k) ->
  releasable ts m'.
Proof.
  intros (Hpos & Hle & Hidle) Hst Hm'.
  assert (Hpos' : forall t', t' ∈ ts -> 0 < getFeeBid t')
    by (intros; apply Hpos; by right).
  split; [done|]. split.
  - intros k. specialize (Hle k). simpl in Hle. rewrite Hm'.
    destruct (decide (k = getFeeSourceID t)) as [->|NE].
    + rewrite feesOfEntry_released. rewrite Hst in Hle. simpl in Hle.
      rewrite N.eqb_refl in Hle. lia.
    + replace (getFeeSourceID t =? k)%N with false in Hle; [lia|].
      symmetry. apply N.eqb_neq. congruence.
  - intros k st'. rewrite Hm'. destruct (decide _); [|apply Hidle].
    apply releasedEntry_idle.
Qed.

Lemma releasable_head t ts (m : gmap N AccountState.t) :
  releasable (t :: ts) m ->
  exists st, m !! getFeeSourceID t = Some st
             /\ getFeeBid t + feesOn (getFeeSourceID t) ts
                <= AccountState.mTotalFees st
             /\ 0 < getFeeBid t
             /\ 0 <= feesOn (getFeeSourceID t) ts.
Proof.
  intros (Hpos & Hle & _).
  assert (0 < getFeeBid t) by (apply Hpos; left).
  assert (0 <= feesOn (getFeeSourceID t) ts)
    by (apply feesOn_nonneg; intros; apply Hpos; by right).
  specialize (Hle (getFeeSourceID t)). simpl in Hle.
  rewrite N.eqb_refl in Hle.
  destruct (m !! getFeeSourceID t) as [st|]; simpl in Hle; [|lia].
  exists st. repeat split; lia.
Qed.

Lemma to_uint64_range z : 0 <= to_uint64 z < 2 ^ 64.
Proof. unfold to_uint64. apply Z.mod_pos_bound. lia. Qed.

(** The eviction loop of [shift] on a releasable list: every fee is
    released, every hash joins the front slot. *)
Lemma forEach_shiftEvict ts : forall q bannedFront rest,
  mBannedTransactions q = bannedFront :: rest ->
  releasable ts (mAccountStates q) ->
  exists q',
    forEach shiftEvict ts q = Some q'
    /\ (forall k, mAccountStates q' !! k
                  = mAccountStates q !! k ≫= releasedEntry (feesOn k ts))
    /\ mBannedTransactions q'
       = (list_to_set (map getFullHash ts) ∪ bannedFront) :: rest
    /\ mQueueSizeOps q' = mQueueSizeOps q
    /\ mPendingDepth q' = mPendingDepth q
    /\ mLedgerVersion q' = mLedgerVersion q
    /\ mPoolLedgerMultiplier q' = mPoolLedgerMultiplier q.
Proof.
  induction ts as [|t ts IH]; intros q bannedFront rest Hring Hrel.
  - exists q. split; [done|]. split.
    + intros k. simpl. destruct (mAccountStates q !! k) as [st|] eqn:Hk;
        [simpl|done].
      symmetry. apply releasedEntry_0. destruct Hrel as (_ & _ & Hidle).
      by apply (Hidle k).
    + repeat split; try done. rewrite Hring. simpl.
      by rewrite (left_id_L ∅ (∪)).
  - destruct (releasable_head _ _ _ Hrel) as (st & Hst & Hle & Hpos & Hnn).
    destruct (releaseFee_lookup q t st Hst) as (q1 & Hq1 & Hm1 & Hr1 & Ho1 & Hc1);
      [lia|].
    pose proof (releasable_step _ _ _ _ _ Hrel Hst Hm1) as Hrel1.
    set (q2 := setBannedTransactions q1
                 (({[ getFullHash t ]} ∪ bannedFront) :: rest)).
    destruct (IH q2 ({[ getFullHash t ]} ∪ bannedFront) rest eq_refl Hrel1)
      as (q' & Hrun & Hm' & Hr' & Ho' & Hc').
    exists q'. split.
    { simpl. unfold shiftEvict. rewrite Hq1. simpl.
      unfold banFront. rewrite Hr1, Hring. exact Hrun. }
    split.
    { intros k. rewrite Hm'. simpl mAccountStates. rewrite Hm1. simpl.
      destruct (decide (k = getFeeSourceID t)) as [->|NE].
      - rewrite Hst. simpl. rewrite N.eqb_refl.
        apply releasedEntry_compose; lia.
      - replace (getFeeSourceID t =? k)%N with false
          by (symmetry; apply N.eqb_neq; congruence).
        done. }
    split.
    { rewrite Hr'. f_equal. simpl.
      by rewrite (assoc_L (∪)), (comm_L (∪) (list_to_set _)). }
    simpl in Ho', Hc'. rewrite Ho', Ho1. split; [done|].
    destruct Hc' as (-> & -> & ->). done.
Qed.

(** The first loop of [dropTransactions] on a releasable list taken from
    the queue of [stateIter]: the operation counters go down, every fee is
    released. *)
Lemma forEach_dropOne stateIter ts : forall q st,
  mAccountStates q !! stateIter = Some st ->
  AccountState.mTransactions st <> [] ->
  0 <= AccountState.mQueueSizeOps st < 2 ^ 64 ->
  0 <= mQueueSizeOps q < 2 ^ 64 ->
  releasable ts (mAccountStates q) ->
  exists q',
    forEach (dropOne stateIter) ts q = Some q'
    /\ (forall k, mAccountStates q' !! k
                  = if decide (k = stateIter)
                    then Some (AccountState.mk
                                 (AccountState.mTotalFees st - feesOn k ts)
                                 (to_uint64 (AccountState.mQueueSizeOps st
                                             - opsOf ts))
                                 (AccountState.mAge st)
                                 (AccountState.mTransactions st))
                    else mAccountStates q !! k
                         ≫= releasedEntry (feesOn k ts))
    /\ mBannedTransactions q' = mBannedTransactions q
    /\ mQueueSizeOps q' = to_uint64 (mQueueSizeOps q - opsOf ts)
    /\ mPendingDepth q' = mPendingDepth q
    /\ mLedgerVersion q' = mLedgerVersion q
    /\ mPoolLedgerMultiplier q' = mPoolLedgerMultiplier q.
Proof.
  induction ts as [|t ts IH]; intros q st Hst Hne Hops Hqops Hrel.
  - exists q. split; [done|]. split.
    + intros k. simpl. rewrite !Z.sub_0_r.
      destruct (decide (k = stateIter)) as [->|NE].
      * rewrite Hst, to_uint64_small by done. by destruct st.
      * destruct (mAccountStates q !! k) as [st'|] eqn:Hk; [simpl|done].
        symmetry. apply releasedEntry_0. destruct Hrel as (_ & _ & Hidle).
        by apply (Hidle k).
    + simpl. rewrite Z.sub_0_r, to_uint64_small by done. done.
  - set (st1 := withQueueSizeOps st
                  (to_uint64 (AccountState.mQueueSizeOps st
                              - getNumOperations t))).
    set (q1 := setQueueSizeOps
                 (setAccountStates q (<[stateIter := st1]> (mAccountStates q)))
                 (to_uint64 (mQueueSizeOps q - getNumOperations t))).
    assert (Hrel1 : releasable (t :: ts) (mAccountStates q1)).
    { destruct Hrel as (Hpos & Hle & Hidle). split; [done|]. split.
      - intros k. specialize (Hle k). simpl mAccountStates.
        destruct (decide (k = stateIter)) as [->|NE].
        + rewrite lookup_insert_eq. by rewrite Hst in Hle.
        + by rewrite lookup_insert_ne.
      - intros k st'. simpl mAccountStates.
        destruct (decide (k = stateIter)) as [->|NE].
        + rewrite lookup_insert_eq. intros [= <-]. done.
        + rewrite lookup_insert_ne by done. apply Hidle. }
    destruct (releasable_head _ _ _ Hrel1) as (fst & Hfst & Hle & Hpos & Hnn).
    destruct (releaseFee_lookup q1 t fst Hfst)
      as (q2 & Hq2 & Hm2 & Hr2 & Ho2 & Hc2); [lia|].
    pose proof (releasable_step _ _ _ _ _ Hrel1 Hfst Hm2) as Hrel2.
    set (st2 := AccountState.mk
                  (AccountState.mTotalFees st
                   - (if (getFeeSourceID t =? stateIter)%N
                      then getFeeBid t else 0))
                  (to_uint64 (AccountState.mQueueSizeOps st
                              - getNumOperations t))
                  (AccountState.mAge st) (AccountState.mTransactions st)).
    assert (Hst2 : mAccountStates q2 !! stateIter = Some st2).
    { rewrite Hm2. simpl mAccountStates in Hfst.
      destruct (decide (stateIter = getFeeSourceID t)) as [E|NE].
      - rewrite <- E, lookup_insert_eq in Hfst. injection Hfst as <-.
        unfold releasedEntry. simpl.
        destruct (AccountState.mTransactions st) eqn:Htxs; [done|]. simpl.
        unfold st2, st1, withTotalFees, withQueueSizeOps. simpl.
        rewrite <- E, N.eqb_refl, ?Htxs. done.
      - simpl. rewrite lookup_insert_eq. unfold st2, st1.
        replace (getFeeSourceID t =? stateIter)%N with false
          by (symmetry; apply N.eqb_neq; congruence).
        rewrite Z.sub_0_r. by destruct st. }
    destruct (IH q2 st2 Hst2) as (q' & Hrun & Hm' & Hr' & Ho' & Hc');
      [done|apply to_uint64_range|rewrite Ho2; apply to_uint64_range|done|].
    exists q'. split.
    { simpl. unfold dropOne. rewrite Hst. simpl. fold st1. fold q1.
      rewrite Hq2. exact Hrun. }
    split.
    { intros k. rewrite Hm'. destruct (decide (k = stateIter)) as [->|NE].
      - simpl. rewrite to_uint64_sub_l. do 2 f_equal; [|f_equal; lia].
        destruct (_ =? _)%N; lia.
      - rewrite Hm2. simpl mAccountStates. rewrite lookup_insert_ne by done.
        simpl. destruct (decide (k = getFeeSourceID t)) as [->|NE'].
        + unfold q1 in Hfst. simpl in Hfst.
          rewrite lookup_insert_ne in Hfst by done. rewrite Hfst. simpl.
          rewrite N.eqb_refl. apply releasedEntry_compose; lia.
        + replace (getFeeSourceID t =? k)%N with false
            by (symmetry; apply N.eqb_neq; congruence).
          done. }
    split; [by rewrite Hr', Hr2|].
    split.
    { rewrite Ho', Ho2. simpl. rewrite to_uint64_sub_l. f_equal. lia. }
    destruct Hc' as (-> & -> & ->). destruct Hc2 as (-> & -> & ->). done.
Qed.

(** ** The invariants of the fee reservations *)

Lemma reservedIn_app k l1 l2 :
  reservedIn k (l1 ++ l2) = reservedIn k l1 + reservedIn k l2.
Proof. induction l1 as [|kv l1 IH]; simpl; [done|]. rewrite IH. lia. Qed.

Lemma reservedIn_other k (l : list (N * AccountState.t)) :
  (forall kv t, kv ∈ l -> t ∈ AccountState.mTransactions kv.2 ->
                getFeeSourceID t <> k) ->
  reservedIn k l = 0.
Proof.
  induction l as [|kv l IH]; intros Hne; simpl; [done|].
  rewrite IH by (intros ????; eapply Hne; [by right|done]).
  rewrite feesOn_other; [done|]. intros t Ht. eapply Hne; [by left|done].
Qed.

Lemma reservedIn_nonneg k (l : list (N * AccountState.t)) :
  (forall kv t, kv ∈ l -> t ∈ AccountState.mTransactions kv.2 ->
                0 < getFeeBid t) ->
  0 <= reservedIn k l.
Proof.
  induction l as [|kv l IH]; intros Hpos; simpl; [done|].
  assert (0 <= reservedIn k l)
    by (apply IH; intros ????; eapply Hpos; [by right|done]).
  assert (0 <= feesOn k (AccountState.mTransactions kv.2)).
  { apply feesOn_nonneg. intros t Ht. eapply Hpos; [by left|done]. }
  lia.
Qed.

(** The invariants that [feesOk] checks, as propositions. *)
Record FeesInvariant (m : gmap N AccountState.t) : Prop := {
  fees_reserved : forall k, feesOfEntry (m !! k) = reservedOn k m;
  fees_positive : forall a st t,
    m !! a = Some st -> t ∈ AccountState.mTransactions st -> 0 < getFeeBid t;
  ops_counted : forall a st,
    m !! a = Some st ->
    AccountState.mQueueSizeOps st = opsOf (AccountState.mTransactions st);
  idle_entry : forall a st,
    m !! a = Some st -> AccountState.mTransactions st = [] ->
    AccountState.mAge st = 0 /\ AccountState.mTotalFees st <> 0
}.

Lemma feesOk_spec q : feesOk q = true -> FeesInvariant (mAccountStates q).
Proof.
  unfold feesOk. rewrite forallb_forall. intros Hall.
  assert (Hentry : forall a st, mAccountStates q !! a = Some st ->
                     entryOk (mAccountStates q) (a, st) = true).
  { intros a st Hst. apply Hall, list_elem_of_In. by apply elem_of_map_to_list. }
  assert (Htx : forall a st t, mAccountStates q !! a = Some st ->
            t ∈ AccountState.mTransactions st ->
            0 < getFeeBid t /\ is_Some (mAccountStates q !! getFeeSourceID t)).
  { intros a st t Hst Ht. apply Hentry in Hst. unfold entryOk in Hst.
    simpl in Hst. rewrite !andb_true_iff, forallb_forall in Hst.
    destruct Hst as [[[_ Hst] _] _]. apply list_elem_of_In, Hst in Ht.
    apply andb_true_iff in Ht as [Hp Hs]. apply bool_decide_eq_true in Hs.
    split; [lia|done]. }
  split.
  - intros k. destruct (mAccountStates q !! k) as [st|] eqn:Hk; simpl.
    + apply Hentry in Hk. unfold entryOk in Hk. simpl in Hk.
      rewrite !andb_true_iff in Hk. lia.
    + symmetry. apply reservedIn_other. intros [a st] t Hkv Ht Heq.
      apply elem_of_map_to_list in Hkv.
      destruct (Htx _ _ _ Hkv Ht) as [_ [st' Hst']]. congruence.
  - intros a st t Hst Ht. by destruct (Htx _ _ _ Hst Ht).
  - intros a st Hst. apply Hentry in Hst. unfold entryOk in Hst.
    simpl in Hst. rewrite !andb_true_iff in Hst. lia.
  - intros a st Hst Hempty. apply Hentry in Hst. unfold entryOk in Hst.
    simpl in Hst. rewrite Hempty in Hst. simpl in Hst.
    rewrite !andb_true_iff, negb_true_iff in Hst. lia.
Qed.

Lemma evictedOf_app q l1 l2 :
  evictedOf q (l1 ++ l2) = evictedOf q l1 ++ evictedOf q l2.
Proof. unfold evictedOf. apply flat_map_app. Qed.

Lemma feesOn_evictedOf_le q k (l : list (N * AccountState.t)) :
  (forall kv t, kv ∈ l -> t ∈ AccountState.mTransactions kv.2 ->
                0 < getFeeBid t) ->
  0 <= feesOn k (evictedOf q l) <= reservedIn k l.
Proof.
  induction l as [|kv l IH]; intros Hpos; simpl; [done|].
  assert (0 <= feesOn k (evictedOf q l) <= reservedIn k l)
    by (apply IH; intros ????; eapply Hpos; [by right|done]).
  assert (0 <= feesOn k (AccountState.mTransactions kv.2)).
  { apply feesOn_nonneg. intros t Ht. eapply Hpos; [by left|done]. }
  rewrite feesOn_app. destruct (agesOut q kv.2); simpl; lia.
Qed.

(** While [shift] runs, the fees released so far and those of the entry
    being visited are within what is reserved. *)
Lemma evicted_within_reserved (q : TransactionQueue) k P a st R :
  FeesInvariant (mAccountStates q) ->
  map_to_list (mAccountStates q) = P ++ (a, st) :: R ->
  0 <= feesOn k (evictedOf q P)
  /\ 0 <= feesOn k (AccountState.mTransactions st)
  /\ feesOn k (evictedOf q P) + feesOn k (AccountState.mTransactions st)
     <= feesOfEntry (mAccountStates q !! k).
Proof.
  intros Hinv Hlist. rewrite (fees_reserved _ Hinv). unfold reservedOn.
  assert (Hpos : forall kv t, kv ∈ map_to_list (mAccountStates q) ->
            t ∈ AccountState.mTransactions kv.2 -> 0 < getFeeBid t).
  { intros [a' st'] t Hkv Ht. apply elem_of_map_to_list in Hkv.
    eapply fees_positive; eauto. }
  rewrite Hlist in Hpos |- *. rewrite reservedIn_app. simpl.
  assert (0 <= feesOn k (evictedOf q P) <= reservedIn k P).
  { apply feesOn_evictedOf_le. intros ????. eapply Hpos; [|done].
    apply elem_of_app. by left. }
  assert (0 <= reservedIn k R).
  { apply reservedIn_nonneg. intros ????. eapply Hpos; [|done].
    apply elem_of_app. right. by right. }
  assert (0 <= feesOn k (AccountState.mTransactions st)).
  { apply feesOn_nonneg. intros t Ht. apply (Hpos (a, st)); [|done].
    apply elem_of_app. right. by left. }
  lia.
Qed.

Lemma queue_eq q1 q2 :
  mPendingDepth q1 = mPendingDepth q2 ->
  (forall k, mAccountStates q1 !! k = mAccountStates q2 !! k) ->
  mBannedTransactions q1 = mBannedTransactions q2 ->
  mLedgerVersion q1 = mLedgerVersion q2 ->
  mQueueSizeOps q1 = mQueueSizeOps q2 ->
  mPoolLedgerMultiplier q1 = mPoolLedgerMultiplier q2 ->
  q1 = q2.
Proof.
  destruct q1, q2. simpl. intros -> Hm -> -> -> ->. f_equal.
  by apply map_eq.
Qed.

(** ** [shift], one account at a time *)

Lemma shiftedTo_lookup q P k :
  mAccountStates (shiftedTo q P) !! k
  = mAccountStates q !! k ≫= shiftedEntry q P k.
Proof. unfold shiftedTo. simpl. apply map_lookup_imap. Qed.

Lemma aged_fees st :
  AccountState.mTotalFees (aged st) = AccountState.mTotalFees st.
Proof. unfold aged. by destruct (isEmpty _). Qed.

Lemma shiftedEntry_fees q P k st :
  feesOfEntry (shiftedEntry q P k st)
  = AccountState.mTotalFees st - feesOn k (evictedOf q P).
Proof.
  unfold shiftedEntry. destruct (bool_decide _); [destruct (agesOut q st)|];
    rewrite feesOfEntry_released; [done|apply f_equal2, eq_refl|done].
  apply aged_fees.
Qed.

Lemma shiftedEntry_idle q P k st st' :
  shiftedEntry q P k st = Some st' ->
  AccountState.mTransactions st' = [] -> AccountState.mTotalFees st' <> 0.
Proof.
  unfold shiftedEntry. destruct (bool_decide _); [destruct (agesOut q st)|];
    apply releasedEntry_idle.
Qed.

(** The entries other than the one just visited see the fees released by
    the visit, and nothing else. *)
Lemma shiftedEntry_snoc_other q P a st k sk :
  k <> a ->
  let D := if agesOut q st then AccountState.mTransactions st else [] in
  0 <= feesOn k D ->
  feesOn k (evictedOf q P) + feesOn k D <= AccountState.mTotalFees sk ->
  shiftedEntry q (P ++ [(a, st)]) k sk
  = shiftedEntry q P k sk ≫= releasedEntry (feesOn k D).
Proof.
  intros Hne D Hnn Hle. unfold shiftedEntry.
  rewrite evictedOf_app, feesOn_app.
  replace (evictedOf q [(a, st)]) with D
    by (unfold evictedOf; simpl; by rewrite app_nil_r).
  replace (bool_decide (k ∈ (P ++ [(a, st)]).*1))
    with (bool_decide (k ∈ P.*1)).
  2:{ apply bool_decide_ext. rewrite fmap_app, elem_of_app. simpl.
      rewrite list_elem_of_singleton. tauto. }
  destruct (bool_decide _); [destruct (agesOut q sk)|];
    symmetry; apply releasedEntry_compose; try done.
  by rewrite aged_fees.
Qed.

Lemma shiftReady_spec q :
  shiftReady q = true ->
  FeesInvariant (mAccountStates q)
  /\ to_uint64 (mPendingDepth q) <> 0
  /\ 0 <= mQueueSizeOps q < 2 ^ 64
  /\ mBannedTransactions q <> [].
Proof.
  unfold shiftReady, is_uint64. rewrite !andb_true_iff.
  intros [[[[Hfees Hd1] Hd2] Hops] Hring].
  split; [by apply feesOk_spec|]. split; [|split; [lia|]].
  - rewrite to_uint64_small; lia.
  - by destruct (mBannedTransactions q).
Qed.

Lemma visit_facts (q : TransactionQueue) P a st R :
  map_to_list (mAccountStates q) = P ++ (a, st) :: R ->
  mAccountStates q !! a = Some st /\ a ∉ P.*1.
Proof.
  intros Hlist. split.
  - apply elem_of_map_to_list. rewrite Hlist. apply elem_of_app. right. left.
  - pose proof (NoDup_fst_map_to_list (mAccountStates q)) as Hnd.
    rewrite Hlist, fmap_app in Hnd. apply NoDup_app in Hnd as (_ & Hnd & _).
    intros Hin. apply (Hnd a Hin). simpl. left.
Qed.

(** Visiting an entry with an empty queue changes nothing. *)
Lemma shiftedTo_snoc_idle q P a st :
  AccountState.mTransactions st = [] ->
  mAccountStates q !! a = Some st -> a ∉ P.*1 ->
  shiftedTo q (P ++ [(a, st)]) = shiftedTo q P.
Proof.
  intros Hempty Hst Hfresh.
  assert (Hev : evictedOf q (P ++ [(a, st)]) = evictedOf q P).
  { rewrite evictedOf_app. simpl. unfold agesOut. rewrite Hempty. simpl.
    by rewrite app_nil_r. }
  unfold shiftedTo. rewrite Hev. f_equal.
  apply map_eq. intros k. rewrite !map_lookup_imap.
  destruct (mAccountStates q !! k) as [sk|] eqn:Hk; [simpl|done].
  unfold shiftedEntry. rewrite Hev.
  destruct (decide (k = a)) as [->|Hne].
  - rewrite Hst in Hk. injection Hk as <-.
    rewrite (bool_decide_eq_false_2 _ Hfresh).
    rewrite bool_decide_eq_true_2
      by (rewrite fmap_app, elem_of_app; right; simpl; left).
    unfold agesOut, aged. by rewrite Hempty.
  - replace (bool_decide (k ∈ (P ++ [(a, st)]).*1))
      with (bool_decide (k ∈ P.*1)); [done|].
    apply bool_decide_ext. rewrite fmap_app, elem_of_app. simpl.
    rewrite list_elem_of_singleton. tauto.
Qed.

(** The entries are as the closed form says while an account is being
    visited: releasable for the queue of that account. *)
Lemma shiftedTo_releasable (q : TransactionQueue) P a st R st1 :
  FeesInvariant (mAccountStates q) ->
  map_to_list (mAccountStates q) = P ++ (a, st) :: R ->
  AccountState.mTransactions st1 <> [] ->
  AccountState.mTotalFees st1
  = AccountState.mTotalFees st - feesOn a (evictedOf q P) ->
  releasable (AccountState.mTransactions st)
             (<[a := st1]> (mAccountStates (shiftedTo q P))).
Proof.
  intros Hinv Hlist Hne Hfees.
  destruct (visit_facts _ _ _ _ _ Hlist) as [Hst Hfresh].
  split; [|split].
  - intros t Ht. eapply fees_positive; eauto.
  - intros k.
    destruct (evicted_within_reserved q k P a st R Hinv Hlist) as (H1 & H2 & H3).
    destruct (decide (k = a)) as [->|Hka].
    + rewrite lookup_insert_eq. simpl. rewrite Hst in H3. simpl in H3. lia.
    + rewrite lookup_insert_ne, shiftedTo_lookup by done.
      destruct (mAccountStates q !! k) as [sk|]; simpl in *.
      * rewrite shiftedEntry_fees. lia.
      * lia.
  - intros k sk. destruct (decide (k = a)) as [->|Hka].
    + rewrite lookup_insert_eq. by intros [= <-].
    + rewrite lookup_insert_ne, shiftedTo_lookup by done.
      destruct (mAccountStates q !! k) as [sk0|]; [simpl|done].
      apply shiftedEntry_idle.
Qed.

(** One round of the loop of [shift] takes the closed form for the visited
    entries to the closed form with one more entry visited. *)
Lemma shiftAccount_step q P a st R :
  shiftReady q = true ->
  map_to_list (mAccountStates q) = P ++ (a, st) :: R ->
  shiftAccount (shiftedTo q P) a = Some (shiftedTo q (P ++ [(a, st)])).
Proof.
  intros Hready Hlist.
  destruct (shiftReady_spec _ Hready) as (Hinv & Hdepth & Hops & Hring).
  destruct (visit_facts _ _ _ _ _ Hlist) as [Hst Hfresh].
  set (r := feesOn a (evictedOf q P)).
  assert (Hcur : mAccountStates (shiftedTo q P) !! a = releasedEntry r st).
  { rewrite shiftedTo_lookup, Hst. simpl. unfold shiftedEntry.
    by rewrite (bool_decide_eq_false_2 _ Hfresh). }
  unfold shiftAccount. rewrite Hcur.
  destruct (AccountState.mTransactions st) as [|t0 txs] eqn:Htxs.
  - (* an empty queue: the entry is not touched *)
    rewrite (shiftedTo_snoc_idle q P a st Htxs Hst Hfresh).
    destruct (releasedEntry r st) as [st'|] eqn:Hrel; [|done].
    assert (Hst' : st' = withTotalFees st (AccountState.mTotalFees st - r)).
    { unfold releasedEntry in Hrel. destruct (_ && _); congruence. }
    destruct (idle_entry _ Hinv a st Hst Htxs) as [Hage _].
    rewrite Hst'. simpl. rewrite Htxs. simpl. rewrite Hage.
    apply Z.eqb_neq in Hdepth as ->.
    rewrite <- Hst', insert_id by done. by rewrite setAccountStates_id.
  - (* a queue with transactions: the age goes up *)
    assert (Hrel : releasedEntry r st
                   = Some (withTotalFees st (AccountState.mTotalFees st - r))).
    { unfold releasedEntry. by rewrite Htxs. }
    rewrite Hrel. simpl. rewrite Htxs. simpl.
    set (st1 := withAge (withTotalFees st (AccountState.mTotalFees st - r))
                        (to_uint64 (AccountState.mAge st + 1))).
    assert (Hout : agesOut q st
                   = (to_uint64 (mPendingDepth q)
                      =? to_uint64 (AccountState.mAge st + 1))).
    { unfold agesOut. by rewrite Htxs. }
    assert (Hev : evictedOf q (P ++ [(a, st)])
                  = evictedOf q P
                    ++ (if agesOut q st then AccountState.mTransactions st
                        else [])).
    { rewrite evictedOf_app. unfold evictedOf at 2. simpl.
      by rewrite app_nil_r. }
    assert (Hother : forall k, k <> a ->
              mAccountStates q !! k ≫= shiftedEntry q (P ++ [(a, st)]) k
              = (mAccountStates q !! k ≫= shiftedEntry q P k)
                ≫= releasedEntry
                     (feesOn k (if agesOut q st
                                then AccountState.mTransactions st else []))).
    { intros k Hka. destruct (mAccountStates q !! k) as [sk|] eqn:Hk;
        [simpl|done].
      destruct (evicted_within_reserved q k P a st R Hinv Hlist)
        as (H1 & H2 & H3).
      rewrite Hk in H3. simpl in H3.
      apply shiftedEntry_snoc_other; [done| |];
        destruct (agesOut q st); simpl; lia. }
    destruct (to_uint64 (mPendingDepth q)
              =? to_uint64 (AccountState.mAge st + 1)) eqn:Hc.
    + (* the age reaches the depth: eviction *)
      destruct (mBannedTransactions q) as [|f0 r0] eqn:Hr0; [done|].
      set (q1 := setAccountStates (shiftedTo q P)
                   (<[a := st1]> (mAccountStates (shiftedTo q P)))).
      destruct (forEach_shiftEvict (AccountState.mTransactions st) q1
                  (list_to_set (map getFullHash (evictedOf q P)))
                  (removelast (f0 :: r0)))
        as (q2 & Hrun & Hm2 & Hr2 & Ho2 & Hd2 & Hv2 & Hp2).
      { unfold q1, shiftedTo. simpl. by rewrite Hr0. }
      { unfold q1. simpl mAccountStates.
        eapply shiftedTo_releasable; eauto.
        unfold st1. simpl. by rewrite Htxs. }
      match goal with
      | |- forEach shiftEvict ?l ?s ≫= _ = _ =>
          change (forEach shiftEvict l s)
            with (forEach shiftEvict (AccountState.mTransactions st) q1)
      end.
      rewrite Hrun. simpl.
      set (f := feesOn a (AccountState.mTransactions st)).
      assert (Hst2 : mAccountStates q2 !! a
                = Some (withTotalFees st1 (AccountState.mTotalFees st - r - f))).
      { rewrite Hm2. unfold q1. simpl. rewrite lookup_insert_eq. simpl.
        unfold releasedEntry. unfold st1 at 1. simpl. fold f.
        by rewrite Htxs. }
      rewrite Hst2. simpl.
      rewrite Hout in Hev, Hother.
      assert (Hfin : forall k, k <> a ->
                mAccountStates q2 !! k
                = mAccountStates q !! k ≫= shiftedEntry q (P ++ [(a, st)]) k).
      { intros k Hka. rewrite Hother, Hm2 by done. unfold q1. simpl.
        rewrite lookup_insert_ne by done. by rewrite map_lookup_imap. }
      assert (Ha : shiftedEntry q (P ++ [(a, st)]) a st
                = if AccountState.mTotalFees st - r - f =? 0 then None
                  else Some (AccountState.mk
                               (AccountState.mTotalFees st - r - f) 0 0 [])).
      { unfold shiftedEntry. rewrite Hev, feesOn_app, Hout. fold r. fold f.
        rewrite bool_decide_eq_true_2
          by (rewrite fmap_app, elem_of_app; right; simpl; left).
        unfold releasedEntry. simpl.
        by replace (AccountState.mTotalFees st - (r + f))
          with (AccountState.mTotalFees st - r - f) by lia. }
      assert (Hopsst : AccountState.mQueueSizeOps st
                       = opsOf (AccountState.mTransactions st))
        by (by apply (ops_counted _ Hinv a)).
      destruct (AccountState.mTotalFees st - r - f =? 0) eqn:Ez;
        f_equal; apply queue_eq; simpl;
        rewrite ?Hd2, ?Hv2, ?Hp2, ?Ho2, ?Hr2, ?Hev, ?Hr0; unfold q1; simpl;
        try done.
      * intros k. rewrite map_lookup_imap.
        destruct (decide (k = a)) as [->|Hka].
        -- rewrite lookup_delete_eq, Hst. simpl. by rewrite Ha.
        -- rewrite lookup_delete_ne by done. by apply Hfin.
      * rewrite map_app, list_to_set_app_L. by rewrite (comm_L (∪)).
      * rewrite opsOf_app, to_uint64_sub_l, Hopsst. f_equal. lia.
      * intros k. rewrite map_lookup_imap.
        destruct (decide (k = a)) as [->|Hka].
        -- rewrite lookup_insert_eq, Hst. simpl. by rewrite Ha.
        -- rewrite lookup_insert_ne by done. by apply Hfin.
      * rewrite map_app, list_to_set_app_L. by rewrite (comm_L (∪)).
      * rewrite opsOf_app, to_uint64_sub_l, Hopsst. f_equal. lia.
    + (* the age stays below the depth *)
      rewrite Hout in Hev, Hother. rewrite app_nil_r in Hev.
      f_equal. apply queue_eq; simpl; rewrite ?Hev; try done.
      intros k. rewrite map_lookup_imap.
      destruct (decide (k = a)) as [->|Hka].
      * rewrite lookup_insert_eq, Hst. simpl. unfold shiftedEntry.
        rewrite Hev, Hout. fold r.
        rewrite bool_decide_eq_true_2
          by (rewrite fmap_app, elem_of_app; right; simpl; left).
        unfold releasedEntry, aged. rewrite Htxs. simpl. by rewrite Htxs.
      * rewrite lookup_insert_ne, Hother by done. rewrite map_lookup_imap.
        destruct (mAccountStates q !! k ≫= shiftedEntry q P k) as [sk|] eqn:Hk;
          [simpl|done].
        symmetry. apply releasedEntry_0.
        revert Hk. destruct (mAccountStates q !! k); [simpl|done].
        apply shiftedEntry_idle.
Qed.

(** ** [shift] in closed form *)

Lemma shift_loop q :
  shiftReady q = true ->
  forall R P,
    map_to_list (mAccountStates q) = P ++ R ->
    forEach shiftAccount R.*1 (shiftedTo q P) = Some (shiftedTo q (P ++ R)).
Proof.
  intros Hready R. induction R as [|[a st] R IH]; intros P Hlist.
  - by rewrite app_nil_r.
  - change (((a, st) :: R).*1) with (a :: R.*1). cbn [forEach].
    rewrite (shiftAccount_step q P a st R Hready Hlist).
    cbn [mbind option_bind].
    rewrite (IH (P ++ [(a, st)])) by (by rewrite <- app_assoc).
    by rewrite <- app_assoc.
Qed.

Lemma shift_start q :
  shiftReady q = true ->
  setBannedTransactions q (∅ :: removelast (mBannedTransactions q))
  = shiftedTo q [].
Proof.
  intros Hready.
  destruct (shiftReady_spec _ Hready) as (Hinv & _ & Hops & _).
  apply queue_eq; simpl; try done.
  - intros k. rewrite map_lookup_imap.
    destruct (mAccountStates q !! k) as [st|] eqn:Hk; [simpl|done].
    unfold shiftedEntry. simpl. symmetry. apply releasedEntry_0.
    intros Hempty. by destruct (idle_entry _ Hinv k st Hk Hempty).
  - by rewrite Z.sub_0_r, to_uint64_small.
Qed.

(** In a state that satisfies the invariants [shift] does not abort, and
    its result is the closed form. *)
Lemma shift_closed q : shiftReady q = true -> shift q = Some (shifted q).
Proof.
  intros Hready.
  destruct (shiftReady_spec _ Hready) as (_ & _ & _ & Hring).
  unfold shift. destruct (mBannedTransactions q) as [|f0 r0] eqn:Hr0; [done|].
  change (mAccountStates (setBannedTransactions q (∅ :: removelast (f0 :: r0))))
    with (mAccountStates q).
  rewrite <- Hr0, (shift_start q Hready).
  by apply (shift_loop q Hready (map_to_list (mAccountStates q)) []).
Qed.

Lemma evictedOf_elem q (l : list (N * AccountState.t)) a st t :
  (a, st) ∈ l -> agesOut q st = true ->
  t ∈ AccountState.mTransactions st -> t ∈ evictedOf q l.
Proof.
  intros Hin Hout Ht. unfold evictedOf. apply list_elem_of_In, in_flat_map.
  exists (a, st). split; [by apply list_elem_of_In|]. simpl. rewrite Hout.
  by apply list_elem_of_In.
Qed.

(** ** Aging eviction *)

(** C3: in a state that satisfies the invariants, [shift] returns, and for
    an account whose queue is not empty and whose age, incremented,
    reaches [mPendingDepth]: the ring is rotated and the full hash of each
    of its transactions is in the new front slot; every fee reservation of
    an evicted transaction is released from its fee source; the operation
    counter of the queue goes down by the operations of the evicted
    transactions, those of the account among them; and the entry of the
    account is erased if the fees that stay reserved on it are 0, and is
    otherwise left with an empty queue, no operations and age 0. An
    account that is not evicted has its age incremented only if its queue
    is not empty. *)
Theorem shift_evicts_aged (q : TransactionQueue) (a : N) (st : AccountState.t) :
  shiftReady q = true ->
  mAccountStates q !! a = Some st ->
  AccountState.mTransactions st <> [] ->
  to_uint64 (AccountState.mAge st + 1) = to_uint64 (mPendingDepth q) ->
  exists q',
    shift q = Some q'
    /\ (exists before after,
          evicted q = before ++ AccountState.mTransactions st ++ after)
    /\ (exists bannedFront,
          mBannedTransactions q'
          = bannedFront :: removelast (mBannedTransactions q)
          /\ forall t, t ∈ AccountState.mTransactions st ->
                       getFullHash t ∈ bannedFront)
    /\ (forall k, feesOfEntry (mAccountStates q' !! k)
                  = feesOfEntry (mAccountStates q !! k) - feesOn k (evicted q))
    /\ mQueueSizeOps q' = to_uint64 (mQueueSizeOps q - opsOf (evicted q))
    /\ (let remaining := AccountState.mTotalFees st - feesOn a (evicted q) in
        mAccountStates q' !! a
        = if remaining =? 0 then None
          else Some (AccountState.mk remaining 0 0 []))
    /\ (forall k sk,
          mAccountStates q !! k = Some sk -> agesOut q sk = false ->
          mAccountStates q' !! k
          = releasedEntry (feesOn k (evicted q)) (aged sk)).
Proof.
  intros Hready Hst Hne Hage.
  destruct (shiftReady_spec _ Hready) as (Hinv & _ & _ & _).
  assert (Hout : agesOut q st = true).
  { unfold agesOut. rewrite Hage, Z.eqb_refl.
    by destruct (AccountState.mTransactions st). }
  assert (Hvisited : forall k sk, mAccountStates q !! k = Some sk ->
            bool_decide (k ∈ (map_to_list (mAccountStates q)).*1) = true).
  { intros k sk Hk. apply bool_decide_eq_true, list_elem_of_fmap.
    exists (k, sk). split; [done|]. by apply elem_of_map_to_list. }
  exists (shifted q). split; [by apply shift_closed|].
  split.
  { assert (Hin : (a, st) ∈ map_to_list (mAccountStates q))
      by (by apply elem_of_map_to_list).
    apply list_elem_of_split in Hin as (P & R & Hlist).
    exists (evictedOf q P), (evictedOf q R). unfold evicted.
    rewrite Hlist, evictedOf_app. f_equal.
    change ((a, st) :: R) with ([(a, st)] ++ R). rewrite evictedOf_app.
    f_equal. unfold evictedOf. simpl. by rewrite Hout, app_nil_r. }
  split.
  { eexists. split; [reflexivity|]. intros t Ht.
    apply elem_of_list_to_set, list_elem_of_In, in_map, list_elem_of_In.
    eapply evictedOf_elem; eauto. by apply elem_of_map_to_list. }
  split.
  { intros k. unfold shifted. rewrite shiftedTo_lookup.
    destruct (mAccountStates q !! k) as [sk|] eqn:Hk; simpl.
    - apply shiftedEntry_fees.
    - pose proof (fees_reserved _ Hinv k) as Hres. rewrite Hk in Hres.
      simpl in Hres. unfold reservedOn in Hres.
      destruct (feesOn_evictedOf_le q k (map_to_list (mAccountStates q)));
        [|unfold evicted; lia].
      intros [a' st'] t Hkv Ht. apply elem_of_map_to_list in Hkv.
      eapply fees_positive; eauto. }
  split; [done|].
  split.
  { unfold shifted. rewrite shiftedTo_lookup, Hst. simpl.
    unfold shiftedEntry. rewrite (Hvisited _ _ Hst), Hout.
    unfold releasedEntry. simpl. done. }
  intros k sk Hk Hnot. unfold shifted. rewrite shiftedTo_lookup, Hk. simpl.
  unfold shiftedEntry. by rewrite (Hvisited _ _ Hk), Hnot.
Qed.

Lemma shift_evicts_aged_witness :
  exists q',
    shift sampleQueueOld = Some q'
    /\ (exists bannedFront,
          mBannedTransactions q' = bannedFront :: [{[ 7%N ]}]
          /\ 21%N ∈ bannedFront /\ 22%N ∈ bannedFront)
    /\ mAccountStates q' !! 10%N = None
    /\ mAccountStates q' !! 20%N
       = Some (AccountState.mk 50 1 2 [sampleYoung])
    /\ mQueueSizeOps q' = 1.
Proof.
  destruct (shift_evicts_aged sampleQueueOld 10
              (AccountState.mk 100 3 3 [sampleOld1; sampleOld2]))
    as (q' & Hshift & _ & (bannedFront & Hring & Hin) & _ & Hops & Ha & Hk).
  - vm_compute. reflexivity.
  - vm_compute. reflexivity.
  - discriminate.
  - vm_compute. reflexivity.
  - exists q'. split; [done|]. split; [|split; [|split]].
    + exists bannedFront. split; [done|].
      split; [apply (Hin sampleOld1); left|apply (Hin sampleOld2); right; left].
    + exact Ha.
    + apply (Hk 20%N (AccountState.mk 350 1 1 [sampleYoung])); reflexivity.
    + rewrite Hops. vm_compute. reflexivity.
Defined.

(** ** The map from source accounts to applied sequence numbers *)

Lemma stdMapUpdate_keys {V} k d (f : V -> V) m k' :
  k' ∈ (stdMapUpdate k d f m).*1 <-> k' = k \/ k' ∈ m.*1.
Proof.
  induction m as [|[k0 v] m IH]; simpl.
  - rewrite elem_of_cons. tauto.
  - destruct (k <? k0)%N eqn:Hlt; [simpl; by rewrite !elem_of_cons|].
    destruct (k =? k0)%N eqn:Heq.
    + apply N.eqb_eq in Heq as ->. simpl. rewrite !elem_of_cons. tauto.
    + simpl. rewrite !elem_of_cons, IH. tauto.
Qed.

Lemma stdMapUpdate_sorted {V} k d (f : V -> V) m :
  StronglySorted N.lt m.*1 -> StronglySorted N.lt (stdMapUpdate k d f m).*1.
Proof.
  induction m as [|[k0 v] m IH]; intros Hs; simpl.
  - repeat constructor.
  - apply StronglySorted_inv in Hs as [Hs Hall]. simpl in Hall.
    destruct (k <? k0)%N eqn:Hlt.
    + apply N.ltb_lt in Hlt. simpl. constructor; [by constructor|].
      constructor; [done|]. eapply Forall_impl; [exact Hall|].
      intros x Hx. simpl in Hx. lia.
    + destruct (k =? k0)%N eqn:Heq; simpl.
      * by constructor.
      * constructor; [by apply IH|].
        apply Forall_forall. intros x Hx%stdMapUpdate_keys.
        apply N.ltb_ge in Hlt. apply N.eqb_neq in Heq.
        destruct Hx as [->|Hx]; [lia|].
        rewrite Forall_forall in Hall. by apply Hall.
Qed.

Lemma sorted_keys_NoDup (l : list N) : StronglySorted N.lt l -> NoDup l.
Proof.
  induction 1 as [|x l Hs IH Hall]; constructor; [|done].
  intros Hin. rewrite Forall_forall in Hall. apply Hall in Hin. lia.
Qed.

Lemma stdMapFind_None {V} k (m : list (N * V)) :
  k ∉ m.*1 -> stdMapFind k m = None.
Proof.
  induction m as [|[k0 v] m IH]; intros Hnot; simpl; [done|].
  simpl in Hnot. apply not_elem_of_cons in Hnot as [Hne Hnot].
  apply N.eqb_neq in Hne as ->. by apply IH.
Qed.

Lemma stdMapFind_update {V} k d (f : V -> V) m a :
  StronglySorted N.lt m.*1 ->
  stdMapFind a (stdMapUpdate k d f m)
  = if (a =? k)%N then Some (f (default d (stdMapFind k m)))
    else stdMapFind a m.
Proof.
  induction m as [|[k0 v] m IH]; intros Hs; simpl.
  - by destruct (a =? k)%N.
  - apply StronglySorted_inv in Hs as [Hs Hall]. simpl in Hall.
    destruct (k <? k0)%N eqn:Hlt.
    + apply N.ltb_lt in Hlt. simpl.
      destruct (a =? k)%N eqn:Hak; [|done].
      replace (k =? k0)%N with false by (symmetry; apply N.eqb_neq; lia).
      rewrite stdMapFind_None; [done|].
      intros Hin. rewrite Forall_forall in Hall. apply Hall in Hin. lia.
    + destruct (k =? k0)%N eqn:Heq; simpl.
      * apply N.eqb_eq in Heq as ->. by destruct (a =? k0)%N.
      * rewrite IH by done. destruct (a =? k)%N eqn:Hak; [|done].
        apply N.eqb_eq in Hak as ->. by rewrite Heq.
Qed.

Lemma stdMapFind_split {V} k (m : list (N * V)) v :
  stdMapFind k m = Some v -> exists P R, m = P ++ (k, v) :: R.
Proof.
  induction m as [|[k0 v0] m IH]; simpl; [done|].
  destruct (k =? k0)%N eqn:Heq.
  - apply N.eqb_eq in Heq as ->. intros [= ->]. by exists [], m.
  - intros (P & R & ->)%IH. by exists ((k0, v0) :: P), R.
Qed.

Lemma stdMapFind_snoc {V} k (P : list (N * V)) a v :
  stdMapFind k (P ++ [(a, v)])
  = match stdMapFind k P with
    | Some x => Some x
    | None => if (k =? a)%N then Some v else None
    end.
Proof.
  induction P as [|[k0 v0] P IH]; simpl; [done|].
  by destruct (k =? k0)%N.
Qed.

Lemma foldr_max_base a b l :
  Z.max a (foldr Z.max b l) = Z.max b (foldr Z.max a l).
Proof. induction l as [|x l IH]; simpl; lia. Qed.

Lemma maxSeqByAccount_sorted_from appliedTxs : forall acc : list (N * Z),
  StronglySorted N.lt acc.*1 ->
  StronglySorted N.lt
    (fold_left (fun m tx => stdMapUpdate (getSourceID tx) 0
                              (fun seq => Z.max seq (getSeqNum tx)) m)
               appliedTxs acc).*1.
Proof.
  induction appliedTxs as [|tx l IH]; intros acc Hs; simpl; [done|].
  by apply IH, stdMapUpdate_sorted.
Qed.

Lemma maxSeqByAccount_NoDup appliedTxs :
  NoDup (maxSeqByAccount appliedTxs).*1.
Proof.
  apply sorted_keys_NoDup, maxSeqByAccount_sorted_from. constructor.
Qed.

(** [seqByAccount] holds, for every source account of an applied
    transaction, the highest applied sequence number, or 0 if that is
    negative. *)
Lemma maxSeqByAccount_find_from a appliedTxs : forall acc : list (N * Z),
  StronglySorted N.lt acc.*1 ->
  stdMapFind a (fold_left (fun m tx => stdMapUpdate (getSourceID tx) 0
                                         (fun seq => Z.max seq (getSeqNum tx)) m)
                          appliedTxs acc)
  = match maxAppliedSeq a appliedTxs with
    | None => stdMapFind a acc
    | Some s => Some (Z.max (default 0 (stdMapFind a acc)) s)
    end.
Proof.
  unfold maxAppliedSeq.
  induction appliedTxs as [|tx l IH]; intros acc Hs; simpl; [done|].
  rewrite IH by (by apply stdMapUpdate_sorted).
  rewrite stdMapFind_update by done. rewrite filter_cons.
  destruct (decide (getSourceID tx = a)) as [<-|Hne].
  - rewrite N.eqb_refl. simpl.
    destruct (filter _ l) as [|t1 l1]; simpl; [done|].
    f_equal.
    pose proof (foldr_max_base (getSeqNum tx) (getSeqNum t1)
                  (map getSeqNum l1)).
    lia.
  - replace (a =? getSourceID tx)%N with false
      by (symmetry; apply N.eqb_neq; congruence).
    done.
Qed.

Lemma maxSeqByAccount_find a appliedTxs :
  stdMapFind a (maxSeqByAccount appliedTxs)
  = Z.max 0 <$> maxAppliedSeq a appliedTxs.
Proof.
  unfold maxSeqByAccount. rewrite maxSeqByAccount_find_from by constructor.
  by destruct (maxAppliedSeq a appliedTxs).
Qed.

(** ** Prefixes of a contiguous queue *)

Lemma contiguousFrom_filter l : forall s maxSeq,
  contiguousFrom s l = true ->
  filter (fun t => getSeqNum t <= maxSeq) l
  = take (Z.to_nat (maxSeq - s + 1)) l
  /\ filter (fun t => maxSeq < getSeqNum t) l
     = drop (Z.to_nat (maxSeq - s + 1)) l.
Proof.
  induction l as [|t l IH]; intros s maxSeq Hc.
  - by rewrite take_nil, drop_nil.
  - simpl in Hc. apply andb_true_iff in Hc as [Hs%Z.eqb_eq Hc].
    destruct (IH (s + 1) maxSeq Hc) as [IH1 IH2].
    rewrite !filter_cons, IH1, IH2.
    destruct (decide (getSeqNum t <= maxSeq)) as [Hle|Hgt].
    + rewrite decide_False by lia.
      replace (Z.to_nat (maxSeq - s + 1))
        with (S (Z.to_nat (maxSeq - (s + 1) + 1))) by lia.
      done.
    + rewrite decide_True by lia.
      replace (Z.to_nat (maxSeq - s + 1)) with 0%nat by lia.
      replace (Z.to_nat (maxSeq - (s + 1) + 1)) with 0%nat by lia.
      by rewrite take_0, drop_0.
Qed.

(** The range that [removeApplied] hands to [dropTransactions] on a
    contiguous queue whose first sequence number is not above [maxSeq]:
    [findBySeq] passes its assertions, and the range holds exactly the
    transactions up to [maxSeq]. *)
Lemma removeApplied_range l front maxSeq :
  contiguous l = true -> head l = Some front -> getSeqNum front <= maxSeq ->
  exists found,
    findBySeq maxSeq l = Some found
    /\ let txIter := default (length l) found in
       let txIter := if (txIter <? length l)%nat then S txIter else txIter in
       take txIter l = filter (fun t => getSeqNum t <= maxSeq) l
       /\ drop txIter l = filter (fun t => maxSeq < getSeqNum t) l
       /\ take txIter l <> [].
Proof.
  intros Hc Hh Hle. rewrite (findBySeq_contiguous _ _ _ Hc Hh).
  eexists. split; [reflexivity|].
  assert (Hcf : contiguousFrom (getSeqNum front) l = true).
  { destruct l; [done|]. by injection Hh as <-. }
  destruct (contiguousFrom_filter l _ maxSeq Hcf) as [-> ->].
  assert (Hlen : (0 < length l)%nat) by (destruct l; [done|simpl; lia]).
  set (n := length l) in *.
  replace (maxSeq <? getSeqNum front) with false
    by (symmetry; apply Z.ltb_ge; lia).
  simpl orb.
  assert (Hcut : forall c : nat,
            (c = Z.to_nat (maxSeq - getSeqNum front + 1)
             \/ (c = n /\ (n <= Z.to_nat (maxSeq - getSeqNum front + 1))%nat)) ->
            (0 < c)%nat ->
            take c l = take (Z.to_nat (maxSeq - getSeqNum front + 1)) l
            /\ drop c l = drop (Z.to_nat (maxSeq - getSeqNum front + 1)) l
            /\ take c l <> []).
  { intros c Hc' Hpos. destruct Hc' as [->|[-> Hge]].
    - repeat split; try done. destruct l; [done|].
      by replace (Z.to_nat (maxSeq - getSeqNum front + 1))
        with (S (Z.to_nat (maxSeq - getSeqNum front))) by lia.
    - unfold n. rewrite !take_ge, !drop_ge by lia.
      repeat split; try done. by destruct l. }
  destruct (getSeqNum front + Z.of_nat n <? maxSeq) eqn:Hfar; simpl.
  - apply Z.ltb_lt in Hfar. rewrite Nat.ltb_irrefl. apply Hcut; [|done].
    right. split; [done|lia].
  - apply Z.ltb_ge in Hfar.
    destruct (Z.to_nat (maxSeq - getSeqNum front) <? n)%nat eqn:Hin.
    + apply Hcut; [left; lia|lia].
    + apply Nat.ltb_ge in Hin. apply Hcut; [|lia]. right. lia.
Qed.

Lemma reservedIn_perm k (l1 l2 : list (N * AccountState.t)) :
  l1 ≡ₚ l2 -> reservedIn k l1 = reservedIn k l2.
Proof. induction 1; simpl; lia. Qed.

Lemma reservedOn_delete k (m : gmap N AccountState.t) a st :
  m !! a = Some st ->
  reservedOn k m
  = feesOn k (AccountState.mTransactions st) + reservedOn k (delete a m).
Proof.
  intros Hst. unfold reservedOn.
  by rewrite <- (reservedIn_perm k _ _ (map_to_list_delete m a st Hst)).
Qed.

(** ** [removeApplied], one account at a time *)

Lemma feesOn_filter_le k l (P : TransactionFrameBase -> Prop)
    `{!forall t, Decision (P t)} :
  (forall t, t ∈ l -> 0 < getFeeBid t) ->
  0 <= feesOn k (filter P l) <= feesOn k l.
Proof.
  induction l as [|t l IH]; intros Hpos; [done|].
  assert (0 < getFeeBid t) by (apply Hpos; left).
  assert (0 <= feesOn k (filter P l) <= feesOn k l)
    by (apply IH; intros; apply Hpos; by right).
  rewrite filter_cons. destruct (decide (P t)); simpl;
    destruct (_ =? _)%N; lia.
Qed.

Lemma removedFrom_sub st maxSeq t :
  t ∈ removedFrom st maxSeq -> t ∈ AccountState.mTransactions st.
Proof.
  unfold removedFrom. destruct (dropsApplied st maxSeq).
  - by intros [_ ?]%list_elem_of_filter.
  - by intros ?%elem_of_nil.
Qed.

Lemma feesOn_removedFrom_le k st maxSeq :
  (forall t, t ∈ AccountState.mTransactions st -> 0 < getFeeBid t) ->
  0 <= feesOn k (removedFrom st maxSeq)
  <= feesOn k (AccountState.mTransactions st).
Proof.
  intros Hpos. unfold removedFrom. destruct (dropsApplied st maxSeq).
  - by apply feesOn_filter_le.
  - simpl. split; [done|]. by apply feesOn_nonneg.
Qed.

Lemma removedOf_app q V1 V2 :
  removedOf q (V1 ++ V2) = removedOf q V1 ++ removedOf q V2.
Proof. unfold removedOf. apply flat_map_app. Qed.

Lemma removedOf_ext q q' (V : list (N * Z)) :
  (forall k, k ∈ V.*1 -> mAccountStates q' !! k = mAccountStates q !! k) ->
  removedOf q' V = removedOf q V.
Proof.
  induction V as [|[a x] V IH]; intros Hext; simpl; [done|].
  rewrite Hext by (simpl; left). f_equal. apply IH.
  intros k Hk. apply Hext. simpl. by right.
Qed.

(** What is dropped for distinct accounts is within what is reserved. *)
Lemma removedOf_within_reserved k (V : list (N * Z)) : forall q,
  NoDup V.*1 ->
  (forall a st t, mAccountStates q !! a = Some st ->
                  t ∈ AccountState.mTransactions st -> 0 < getFeeBid t) ->
  0 <= feesOn k (removedOf q V) <= reservedOn k (mAccountStates q).
Proof.
  induction V as [|[a x] V IH]; intros q Hnd Hpos.
  - simpl. split; [done|]. apply reservedIn_nonneg.
    intros [a st] t Hkv Ht. apply elem_of_map_to_list in Hkv. eauto.
  - simpl in Hnd. apply NoDup_cons in Hnd as [Hfresh Hnd].
    change (removedOf q ((a, x) :: V))
      with (match mAccountStates q !! a with
            | Some st => removedFrom st x
            | None => []
            end ++ removedOf q V).
    destruct (mAccountStates q !! a) as [st|] eqn:Hst; [|by apply IH].
    rewrite feesOn_app, (reservedOn_delete k _ a st Hst).
    set (q' := setAccountStates q (delete a (mAccountStates q))).
    rewrite <- (removedOf_ext q q' V).
    2:{ intros k' Hk'. unfold q'. simpl. apply lookup_delete_ne.
        intros ->. done. }
    assert (0 <= feesOn k (removedOf q' V)
            <= reservedOn k (mAccountStates q')).
    { apply IH; [done|]. intros a' st' t. unfold q'. simpl.
      intros [_ Hst']%lookup_delete_Some. eauto. }
    assert (0 <= feesOn k (removedFrom st x)
            <= feesOn k (AccountState.mTransactions st))
      by (apply feesOn_removedFrom_le; eauto).
    unfold q' in *. simpl in *. lia.
Qed.

Lemma appliedReady_spec q :
  appliedReady q = true ->
  FeesInvariant (mAccountStates q)
  /\ 0 <= mQueueSizeOps q < 2 ^ 64
  /\ forall a st, mAccountStates q !! a = Some st ->
       contiguous (AccountState.mTransactions st) = true
       /\ 0 <= AccountState.mQueueSizeOps st < 2 ^ 64.
Proof.
  unfold appliedReady, is_uint64. rewrite !andb_true_iff, forallb_forall.
  intros [[Hfees Hops] Hall].
  split; [by apply feesOk_spec|]. split; [lia|].
  intros a st Hst. apply elem_of_map_to_list, list_elem_of_In, Hall in Hst.
  simpl in Hst. rewrite !andb_true_iff in Hst. split; [tauto|lia].
Qed.

(** While [removeApplied] runs, the fees released so far and those of the
    range being dropped are within what is reserved. *)
Lemma removed_within_reserved q k (P : list (N * Z)) a x R :
  FeesInvariant (mAccountStates q) ->
  NoDup (P ++ (a, x) :: R).*1 ->
  0 <= feesOn k (removedOf q P)
  /\ 0 <= feesOn k (removedOf q [(a, x)])
  /\ feesOn k (removedOf q P) + feesOn k (removedOf q [(a, x)])
     <= feesOfEntry (mAccountStates q !! k).
Proof.
  intros Hinv Hnd.
  assert (Hpos : forall a st t, mAccountStates q !! a = Some st ->
            t ∈ AccountState.mTransactions st -> 0 < getFeeBid t)
    by (intros; eapply fees_positive; eauto).
  assert (Hnd1 : NoDup (P ++ [(a, x)]).*1).
  { rewrite fmap_app in Hnd |- *. simpl in *.
    apply NoDup_app in Hnd as (H1 & H2 & H3). apply NoDup_app.
    split; [done|]. split; [|apply NoDup_singleton].
    intros k' Hk' Hin. apply (H2 k' Hk').
    apply list_elem_of_singleton in Hin as ->. left. }
  assert (Hnd2 : NoDup P.*1).
  { rewrite fmap_app in Hnd1. by apply NoDup_app in Hnd1 as (? & _). }
  pose proof (removedOf_within_reserved k _ q Hnd1 Hpos) as H1.
  pose proof (removedOf_within_reserved k _ q Hnd2 Hpos) as H2.
  assert (Hnd3 : NoDup [(a, x)].*1) by apply NoDup_singleton.
  pose proof (removedOf_within_reserved k _ q Hnd3 Hpos) as H3.
  rewrite removedOf_app, feesOn_app in H1.
  rewrite (fees_reserved _ Hinv). lia.
Qed.

Lemma appliedTo_lookup q P k :
  mAccountStates (appliedTo q P) !! k
  = mAccountStates q !! k ≫= appliedEntry q P k.
Proof. unfold appliedTo. simpl. apply map_lookup_imap. Qed.

Lemma appliedEntry_fees q P k st :
  feesOfEntry (appliedEntry q P k st)
  = AccountState.mTotalFees st - feesOn k (removedOf q P).
Proof.
  unfold appliedEntry.
  destruct (stdMapFind k P) as [x|]; [destruct (dropsApplied st x)|];
    by rewrite feesOfEntry_released.
Qed.

Lemma appliedEntry_idle q P k st st' :
  appliedEntry q P k st = Some st' ->
  AccountState.mTransactions st' = [] -> AccountState.mTotalFees st' <> 0.
Proof.
  unfold appliedEntry.
  destruct (stdMapFind k P) as [x|]; [destruct (dropsApplied st x)|];
    apply releasedEntry_idle.
Qed.

Lemma appliedEntry_snoc_other q P a x k sk :
  k <> a ->
  0 <= feesOn k (removedOf q [(a, x)]) ->
  feesOn k (removedOf q P) + feesOn k (removedOf q [(a, x)])
    <= AccountState.mTotalFees sk ->
  appliedEntry q (P ++ [(a, x)]) k sk
  = appliedEntry q P k sk ≫= releasedEntry (feesOn k (removedOf q [(a, x)])).
Proof.
  intros Hne Hnn Hle. unfold appliedEntry.
  rewrite removedOf_app, feesOn_app, stdMapFind_snoc.
  replace (k =? a)%N with false by (symmetry; by apply N.eqb_neq).
  destruct (stdMapFind k P) as [y|]; [destruct (dropsApplied sk y)|];
    symmetry; by apply releasedEntry_compose.
Qed.

(** Visiting an account that has no entry, or from whose queue nothing is
    dropped, changes nothing. *)
Lemma appliedTo_snoc_same q P a x :
  a ∉ P.*1 ->
  match mAccountStates q !! a with
  | Some st => dropsApplied st x = false
  | None => True
  end ->
  appliedTo q (P ++ [(a, x)]) = appliedTo q P.
Proof.
  intros Hfresh Hsame.
  assert (Hrem : removedOf q (P ++ [(a, x)]) = removedOf q P).
  { rewrite removedOf_app. unfold removedOf at 2. simpl.
    destruct (mAccountStates q !! a) as [st|]; [|by rewrite !app_nil_r].
    unfold removedFrom. by rewrite Hsame, !app_nil_r. }
  apply queue_eq; simpl; rewrite ?Hrem; try done.
  intros k. rewrite !map_lookup_imap.
  destruct (mAccountStates q !! k) as [sk|] eqn:Hk; [simpl|done].
  unfold appliedEntry. rewrite Hrem, stdMapFind_snoc.
  destruct (stdMapFind k P) as [y|] eqn:Hy; [done|].
  destruct (k =? a)%N eqn:Hka; [|done].
  apply N.eqb_eq in Hka as ->. rewrite Hk in Hsame. by rewrite Hsame.
Qed.

Lemma appliedTo_releasable q (P : list (N * Z)) a x R st st1 :
  FeesInvariant (mAccountStates q) ->
  NoDup (P ++ (a, x) :: R).*1 ->
  mAccountStates q !! a = Some st ->
  AccountState.mTransactions st1 <> [] ->
  AccountState.mTotalFees st1
  = AccountState.mTotalFees st - feesOn a (removedOf q P) ->
  releasable (removedFrom st x)
             (<[a := st1]> (mAccountStates (appliedTo q P))).
Proof.
  intros Hinv Hnd Hst Hne Hfees.
  assert (Hrem : removedOf q [(a, x)] = removedFrom st x).
  { unfold removedOf. simpl. by rewrite Hst, app_nil_r. }
  split; [|split].
  - intros t Ht%removedFrom_sub. eapply fees_positive; eauto.
  - intros k.
    destruct (removed_within_reserved q k P a x R Hinv Hnd) as (H1 & H2 & H3).
    rewrite Hrem in H2, H3.
    destruct (decide (k = a)) as [->|Hka].
    + rewrite lookup_insert_eq. simpl. rewrite Hst in H3. simpl in H3. lia.
    + rewrite lookup_insert_ne, appliedTo_lookup by done.
      destruct (mAccountStates q !! k) as [sk|]; simpl in *.
      * rewrite appliedEntry_fees. lia.
      * lia.
  - intros k sk. destruct (decide (k = a)) as [->|Hka].
    + rewrite lookup_insert_eq. by intros [= <-].
    + rewrite lookup_insert_ne, appliedTo_lookup by done.
      destruct (mAccountStates q !! k) as [sk0|]; [simpl|done].
      apply appliedEntry_idle.
Qed.

(** One round of the loop of [removeApplied] takes the closed form for the
    visited accounts to the closed form with one more account visited. *)
Lemma removeAppliedAccount_step q (P : list (N * Z)) a x R :
  appliedReady q = true ->
  NoDup (P ++ (a, x) :: R).*1 ->
  removeAppliedAccount (appliedTo q P) (a, x)
  = Some (appliedTo q (P ++ [(a, x)])).
Proof.
  intros Hready Hnd.
  destruct (appliedReady_spec _ Hready) as (Hinv & Hops & Hall).
  assert (Hfresh : a ∉ P.*1).
  { rewrite fmap_app in Hnd. apply NoDup_app in Hnd as (_ & Hnd & _).
    intros Hin. apply (Hnd a Hin). simpl. left. }
  set (r := feesOn a (removedOf q P)).
  unfold removeAppliedAccount. cbn [fst snd]. rewrite appliedTo_lookup.
  destruct (mAccountStates q !! a) as [st|] eqn:Hst; cbn [mbind option_bind].
  2:{ rewrite appliedTo_snoc_same; [done|done|by rewrite Hst]. }
  assert (Hcur : appliedEntry q P a st = releasedEntry r st).
  { unfold appliedEntry. by rewrite (stdMapFind_None _ _ Hfresh). }
  rewrite Hcur.
  destruct (head (AccountState.mTransactions st)) as [front|] eqn:Hh.
  2:{ rewrite appliedTo_snoc_same;
        [|done|by rewrite Hst; unfold dropsApplied; rewrite Hh].
      unfold releasedEntry. destruct (_ && _); [done|]. simpl.
      by rewrite Hh. }
  assert (Hne : AccountState.mTransactions st <> [])
    by (by destruct (AccountState.mTransactions st)).
  assert (Hrel : releasedEntry r st
                 = Some (withTotalFees st (AccountState.mTotalFees st - r))).
  { unfold releasedEntry. by destruct (AccountState.mTransactions st). }
  rewrite Hrel. cbn [AccountState.mTransactions withTotalFees]. rewrite Hh.
  destruct (getSeqNum front <=? x) eqn:Hle.
  2:{ rewrite appliedTo_snoc_same;
        [done|done|by rewrite Hst; unfold dropsApplied; rewrite Hh]. }
  (* the queue starts at or below the applied sequence number *)
  destruct (Hall a st Hst) as [Hc Hopsst].
  apply Z.leb_le in Hle.
  destruct (removeApplied_range _ front x Hc Hh Hle)
    as (found & Hfind & Htake & Hdrop & Hsome).
  rewrite Hfind. cbn [mbind option_bind].
  set (txIter := if (default (length (AccountState.mTransactions st)) found
                     <? length (AccountState.mTransactions st))%nat
                 then S (default (length (AccountState.mTransactions st)) found)
                 else default (length (AccountState.mTransactions st)) found)
    in *.
  assert (Hdrops : dropsApplied st x = true).
  { unfold dropsApplied. rewrite Hh. by apply Z.leb_le. }
  assert (HD : removedFrom st x = take txIter (AccountState.mTransactions st))
    by (unfold removedFrom; by rewrite Hdrops, Htake).
  assert (HK : keptFrom st x = drop txIter (AccountState.mTransactions st))
    by (unfold keptFrom; by rewrite Hdrops, Hdrop).
  assert (Hrem : removedOf q [(a, x)] = removedFrom st x).
  { unfold removedOf. simpl. by rewrite Hst, app_nil_r. }
  set (st1 := withAge (withTotalFees st (AccountState.mTotalFees st - r)) 0).
  set (q1 := setAccountStates (appliedTo q P)
               (<[a := st1]> (mAccountStates (appliedTo q P)))).
  destruct (forEach_dropOne a (removedFrom st x) q1 st1)
    as (q2 & Hrun & Hm2 & Hr2 & Ho2 & Hd2 & Hv2 & Hp2).
  { unfold q1. simpl. apply lookup_insert_eq. }
  { done. }
  { done. }
  { unfold q1. simpl. apply to_uint64_range. }
  { unfold q1. cbn [mAccountStates setAccountStates].
    eapply appliedTo_releasable; eauto. }
  set (f := feesOn a (removedFrom st x)).
  assert (Hst2 : mAccountStates q2 !! a
            = Some (AccountState.mk (AccountState.mTotalFees st - r - f)
                      (to_uint64 (AccountState.mQueueSizeOps st
                                  - opsOf (removedFrom st x)))
                      0 (AccountState.mTransactions st))).
  { rewrite Hm2. by rewrite decide_True. }
  assert (Hfin : forall k, k <> a ->
            mAccountStates q2 !! k
            = mAccountStates q !! k ≫= appliedEntry q (P ++ [(a, x)]) k).
  { intros k Hka. rewrite Hm2, decide_False by done. unfold q1. simpl.
    rewrite lookup_insert_ne by done. rewrite map_lookup_imap.
    destruct (mAccountStates q !! k) as [sk|] eqn:Hk; [simpl|done].
    destruct (removed_within_reserved q k P a x R Hinv Hnd) as (H1 & H2 & H3).
    rewrite Hk in H3. simpl in H3.
    rewrite appliedEntry_snoc_other by done. by rewrite Hrem. }
  assert (Ha : appliedEntry q (P ++ [(a, x)]) a st
            = if isEmpty (keptFrom st x)
                 && (AccountState.mTotalFees st - r - f =? 0)
              then None
              else Some (AccountState.mk (AccountState.mTotalFees st - r - f)
                           (to_uint64 (AccountState.mQueueSizeOps st
                                       - opsOf (removedFrom st x)))
                           0 (keptFrom st x))).
  { unfold appliedEntry.
    rewrite stdMapFind_snoc, (stdMapFind_None _ _ Hfresh), N.eqb_refl, Hdrops.
    rewrite removedOf_app, feesOn_app, Hrem. fold r. fold f.
    unfold releasedEntry. simpl.
    by replace (AccountState.mTotalFees st - (r + f))
      with (AccountState.mTotalFees st - r - f) by lia. }
  unfold dropTransactions.
  change (mAccountStates
            (setAccountStates (appliedTo q P)
               (<[a:=withAge (withTotalFees st (AccountState.mTotalFees st - r)) 0]>
                  (mAccountStates (appliedTo q P)))))
    with (mAccountStates q1).
  replace (mAccountStates q1 !! a) with (Some st1)
    by (unfold q1; simpl; by rewrite lookup_insert_eq).
  cbn [mbind option_bind].
  replace (take (txIter - 0) (drop 0 (AccountState.mTransactions st1)))
    with (removedFrom st x)
    by (rewrite Nat.sub_0_r, drop_0; unfold st1; simpl; by rewrite HD).
  change (forEach (dropOne a) (removedFrom st x) _)
    with (forEach (dropOne a) (removedFrom st x) q1).
  rewrite Hrun. cbn [mbind option_bind]. rewrite Hst2.
  cbn [mbind option_bind AccountState.mTransactions].
  rewrite take_0, app_nil_l, <- HK.
  assert (Hremoved : removedOf q (P ++ [(a, x)])
                     = removedOf q P ++ removedFrom st x)
    by (by rewrite removedOf_app, Hrem).
  destruct (isEmpty (keptFrom st x)) eqn:Hempty; simpl in Ha |- *.
  - destruct (AccountState.mTotalFees st - r - f =? 0) eqn:Ez;
      f_equal; apply queue_eq; simpl;
      rewrite ?Hd2, ?Hv2, ?Hp2, ?Ho2, ?Hr2, ?Hremoved; unfold q1; simpl;
      try done.
    + intros k. rewrite map_lookup_imap.
      destruct (decide (k = a)) as [->|Hka].
      * rewrite lookup_delete_eq, Hst. simpl. by rewrite Ha.
      * rewrite lookup_delete_ne by done. by apply Hfin.
    + rewrite opsOf_app, to_uint64_sub_l. f_equal. lia.
    + intros k. rewrite map_lookup_imap.
      destruct (decide (k = a)) as [->|Hka].
      * rewrite lookup_insert_eq, Hst. simpl. by rewrite Ha.
      * rewrite lookup_insert_ne by done. by apply Hfin.
    + rewrite opsOf_app, to_uint64_sub_l. f_equal. lia.
  - f_equal; apply queue_eq; simpl;
      rewrite ?Hd2, ?Hv2, ?Hp2, ?Ho2, ?Hr2, ?Hremoved; unfold q1; simpl;
      try done.
    + intros k. rewrite map_lookup_imap.
      destruct (decide (k = a)) as [->|Hka].
      * rewrite lookup_insert_eq, Hst. simpl. by rewrite Ha.
      * rewrite lookup_insert_ne by done. by apply Hfin.
    + rewrite opsOf_app, to_uint64_sub_l. f_equal. lia.
Qed.

(** ** [removeApplied] in closed form *)

Lemma removeApplied_loop q :
  appliedReady q = true ->
  forall (R P : list (N * Z)),
    NoDup (P ++ R).*1 ->
    forEach removeAppliedAccount R (appliedTo q P)
    = Some (appliedTo q (P ++ R)).
Proof.
  intros Hready R. induction R as [|[a x] R IH]; intros P Hnd.
  - by rewrite app_nil_r.
  - cbn [forEach].
    rewrite (removeAppliedAccount_step q P a x R Hready Hnd).
    cbn [mbind option_bind].
    rewrite (IH (P ++ [(a, x)])) by (by rewrite <- app_assoc).
    by rewrite <- app_assoc.
Qed.

Lemma appliedTo_nil q : appliedReady q = true -> appliedTo q [] = q.
Proof.
  intros Hready.
  destruct (appliedReady_spec _ Hready) as (Hinv & Hops & _).
  apply queue_eq; simpl; try done.
  - intros k. rewrite map_lookup_imap.
    destruct (mAccountStates q !! k) as [st|] eqn:Hk; [simpl|done].
    unfold appliedEntry. simpl. apply releasedEntry_0.
    intros Hempty. by destruct (idle_entry _ Hinv k st Hk Hempty).
  - by rewrite Z.sub_0_r, to_uint64_small.
Qed.

(** In a state that satisfies the invariants [removeApplied] does not
    abort, and its result is the closed form. *)
Lemma removeApplied_closed q appliedTxs :
  appliedReady q = true ->
  removeApplied q appliedTxs
  = Some (appliedTo q (maxSeqByAccount appliedTxs)).
Proof.
  intros Hready. unfold removeApplied.
  rewrite <- (appliedTo_nil q Hready) at 1.
  apply (removeApplied_loop q Hready (maxSeqByAccount appliedTxs) []).
  apply maxSeqByAccount_NoDup.
Qed.

(** ** Removal of applied transactions *)

(** C4, as the code has it: in a state that satisfies the invariants,
    [removeApplied] returns and puts no hash in the ban ring; every fee
    reservation of a dropped transaction is released from its fee source
    and the operation counter of the queue goes down by the operations of
    the dropped transactions. For an account with a queue that is not
    empty and with applied transactions, let maxSeq be their highest
    sequence number (0 if that is negative). If the first queued sequence
    number is above maxSeq, the queue, the operation counter and the age
    of the account are as they were, and the fees reserved on it go down
    only by the bids of the transactions dropped from other accounts that
    it pays for. Otherwise exactly the queued transactions with a sequence
    number up to maxSeq are dropped, the operation counter of the account
    goes down by their operations, its age is 0, and its entry is erased
    if its queue is empty and no fee stays reserved on it. *)
Theorem remove_applied_account (q : TransactionQueue)
    (appliedTxs : list TransactionFrameBase) (a : N) (st : AccountState.t)
    (front : TransactionFrameBase) (s : Z) :
  appliedReady q = true ->
  mAccountStates q !! a = Some st ->
  head (AccountState.mTransactions st) = Some front ->
  maxAppliedSeq a appliedTxs = Some s ->
  let maxSeq := Z.max 0 s in
  let removed := removedOf q (maxSeqByAccount appliedTxs) in
  let gone := filter (fun t => getSeqNum t <= maxSeq)
                     (AccountState.mTransactions st) in
  let kept := filter (fun t => maxSeq < getSeqNum t)
                     (AccountState.mTransactions st) in
  let fees := AccountState.mTotalFees st - feesOn a removed in
  exists q',
    removeApplied q appliedTxs = Some q'
    /\ mBannedTransactions q' = mBannedTransactions q
    /\ (forall k, feesOfEntry (mAccountStates q' !! k)
                  = feesOfEntry (mAccountStates q !! k) - feesOn k removed)
    /\ mQueueSizeOps q' = to_uint64 (mQueueSizeOps q - opsOf removed)
    /\ (maxSeq < getSeqNum front ->
        removedFrom st maxSeq = []
        /\ mAccountStates q' !! a = Some (withTotalFees st fees))
    /\ (getSeqNum front <= maxSeq ->
        (exists before after, removed = before ++ gone ++ after)
        /\ mAccountStates q' !! a
           = if isEmpty kept && (fees =? 0) then None
             else Some (AccountState.mk fees
                          (to_uint64 (AccountState.mQueueSizeOps st
                                      - opsOf gone))
                          0 kept)).
Proof.
  intros Hready Hst Hh Hmax maxSeq removed gone kept fees.
  destruct (appliedReady_spec _ Hready) as (Hinv & _ & _).
  assert (Hfind : stdMapFind a (maxSeqByAccount appliedTxs) = Some maxSeq)
    by (by rewrite maxSeqByAccount_find, Hmax).
  assert (Hentry : mAccountStates (appliedTo q (maxSeqByAccount appliedTxs)) !! a
            = if dropsApplied st maxSeq
              then releasedEntry (feesOn a removed)
                     (AccountState.mk (AccountState.mTotalFees st)
                        (to_uint64 (AccountState.mQueueSizeOps st
                                    - opsOf (removedFrom st maxSeq)))
                        0 (keptFrom st maxSeq))
              else releasedEntry (feesOn a removed) st).
  { rewrite appliedTo_lookup, Hst. simpl. unfold appliedEntry.
    by rewrite Hfind. }
  assert (Hdrops : dropsApplied st maxSeq = (getSeqNum front <=? maxSeq))
    by (unfold dropsApplied; by rewrite Hh).
  exists (appliedTo q (maxSeqByAccount appliedTxs)).
  split; [by apply removeApplied_closed|]. split; [done|]. split.
  { intros k. rewrite appliedTo_lookup.
    destruct (mAccountStates q !! k) as [sk|] eqn:Hk; simpl.
    - apply appliedEntry_fees.
    - pose proof (fees_reserved _ Hinv k) as Hres. rewrite Hk in Hres.
      simpl in Hres.
      destruct (removedOf_within_reserved k (maxSeqByAccount appliedTxs) q);
        [apply maxSeqByAccount_NoDup| |unfold removed; lia].
      intros. eapply fees_positive; eauto. }
  split; [done|]. split.
  - intros Hgt. rewrite Hentry. unfold removedFrom. rewrite Hdrops.
    replace (getSeqNum front <=? maxSeq) with false
      by (symmetry; apply Z.leb_gt; lia).
    split; [done|]. unfold releasedEntry.
    by destruct (AccountState.mTransactions st).
  - intros Hle. rewrite Hentry. unfold removedFrom, keptFrom. rewrite Hdrops.
    replace (getSeqNum front <=? maxSeq) with true
      by (symmetry; apply Z.leb_le; lia).
    split; [|done].
    apply stdMapFind_split in Hfind as (P & R & HL).
    exists (removedOf q P), (removedOf q R). unfold removed.
    rewrite HL, removedOf_app. f_equal.
    change ((a, maxSeq) :: R) with ([(a, maxSeq)] ++ R).
    rewrite removedOf_app. f_equal. unfold removedOf. simpl.
    rewrite Hst, app_nil_r. unfold removedFrom. rewrite Hdrops.
    by replace (getSeqNum front <=? maxSeq) with true
      by (symmetry; apply Z.leb_le; lia).
Qed.

Lemma remove_applied_account_witness :
  exists q',
    removeApplied sampleQueuePaying [sampleEarlier; samplePaidFor] = Some q'
    /\ mBannedTransactions q' = mBannedTransactions sampleQueuePaying
    /\ mAccountStates q' !! 20%N = None
    /\ mAccountStates q' !! 10%N = Some (AccountState.mk 100 1 2 [sampleOwn])
    /\ mQueueSizeOps q' = 1.
Proof.
  destruct (remove_applied_account sampleQueuePaying
              [sampleEarlier; samplePaidFor] 20
              (AccountState.mk 0 2 1 [samplePaidFor]) samplePaidFor 5)
    as (q' & Hrun & Hring & _ & Hops & _ & Hdrop);
    [vm_compute; reflexivity..|].
  destruct (remove_applied_account sampleQueuePaying
              [sampleEarlier; samplePaidFor] 10
              (AccountState.mk 400 1 2 [sampleOwn]) sampleOwn 3)
    as (q'' & Hrun' & _ & _ & _ & Hkeep & _);
    [vm_compute; reflexivity..|].
  rewrite Hrun in Hrun'. injection Hrun' as <-.
  exists q'. split; [done|]. split; [done|]. split; [|split].
  - apply Hdrop. vm_compute. discriminate.
  - apply Hkeep. vm_compute. reflexivity.
  - rewrite Hops. vm_compute. reflexivity.
Defined.

(** The fees reserved on an account whose queue starts above its highest
    applied sequence number do change when a transaction it pays for is
    dropped from the queue of another account: here account 10, queued at
    sequence 10 with sequence 3 applied, goes from 400 to 100 reserved. *)
Lemma remove_applied_fee_source_counterexample :
  appliedReady sampleQueuePaying = true
  /\ sourceQueue sampleQueuePaying sampleEarlier = [sampleOwn]
  /\ maxAppliedSeq 10 [sampleEarlier; samplePaidFor] = Some 3
  /\ 3 < getSeqNum sampleOwn
  /\ removeApplied sampleQueuePaying [sampleEarlier; samplePaidFor]
     = Some sampleQueuePaid
  /\ getAccountTransactionQueueInfo sampleQueuePaying 10
     = AccountTxQueueInfo.mk 10 400 1 2
  /\ getAccountTransactionQueueInfo sampleQueuePaid 10
     = AccountTxQueueInfo.mk 10 100 1 2
  /\ mAccountStates sampleQueuePaid !! 10%N
     <> mAccountStates sampleQueuePaying !! 10%N.
Proof.
  repeat split; try (vm_compute; reflexivity).
  vm_compute. discriminate.
Qed.


(** * Further properties of the queue *)

(** ** The answers of [tryAdd] *)

(** The early returns of [canAdd] are a duplicate, with no code, and the
    two errors of the fee-bump branch, each with its code. *)
Lemma canAddLocate_early_cases q tx res code :
  canAddLocate q tx = Some (inl (res, code)) ->
  (res = ADD_STATUS_DUPLICATE /\ code = None)
  \/ (res = ADD_STATUS_ERROR
      /\ (code = Some txBAD_SEQ \/ code = Some txINSUFFICIENT_FEE)).
Proof.
  unfold canAddLocate.
  destruct (mAccountStates q !! getSourceID tx) as [st|]; [|done].
  destruct (isEmpty _); [done|].
  destruct (getEnvelopeType tx).
  - destruct (findBySeq _ _) as [found|]; [simpl|done].
    match goal with |- context [if ?b then _ else _] => destruct b end.
    + intros [= <- <-]. by left.
    + by destruct (last _).
  - destruct (findBySeq _ _) as [[i|]|]; simpl; try done.
    + destruct (_ !! i) as [oldTx|]; [|done].
      destruct (isDuplicateTx oldTx tx); [intros [= <- <-]; by left|].
      destruct (negb _); [intros [= <- <-]; right; eauto|done].
    + intros [= <- <-]. right; eauto.
Qed.

(** [tryAdd] past the ban check, the replace-by-fee logic and the capacity
    check. *)
Lemma tryAdd_located mApp q tx loc :
  isBanned q (getFullHash tx) = false ->
  canAddLocate q tx = Some (inr loc) ->
  to_uint64 (netOps loc + mQueueSizeOps q) <= maxQueueSizeOps mApp q ->
  tryAdd mApp q tx
  = if negb (checkValid mApp tx (seqNum loc))
    then Some (q, ADD_STATUS_ERROR, None)
    else if getAvailableBalance mApp (getFeeSourceID tx) - netFee loc
            <? feesOfEntry (mAccountStates q !! getFeeSourceID tx)
    then Some (q, ADD_STATUS_ERROR, Some txINSUFFICIENT_BALANCE)
    else q' ← tryAddCommit q tx (stateFound loc) (oldTxIter loc);
         Some (q', ADD_STATUS_PENDING, None).
Proof.
  intros Hban Hloc Hcap. unfold tryAdd, canAdd. rewrite Hban, Hloc. simpl.
  replace (maxQueueSizeOps mApp q <? to_uint64 (netOps loc + mQueueSizeOps q))
    with false by (symmetry; apply Z.ltb_ge; lia).
  destruct (negb (checkValid mApp tx (seqNum loc))); [done|].
  unfold feesOfEntry.
  by destruct (_ <? _).
Qed.

(** The append branch of [tryAdd], for an account with an entry and for
    one without. *)
Lemma tryAddCommit_append q tx st :
  mAccountStates q !! getSourceID tx = Some st ->
  tryAddCommit q tx true (length (AccountState.mTransactions st))
  = Some (appended q tx st).
Proof.
  intros Hst. unfold tryAddCommit. rewrite Hst. simpl.
  rewrite Nat.ltb_irrefl. simpl. rewrite lookup_insert_eq. simpl.
  unfold appended, setAccountStates, setQueueSizeOps. simpl.
  by rewrite insert_insert_eq.
Qed.

Lemma tryAddCommit_new q tx (slot : nat) :
  tryAddCommit q tx false slot = Some (appended q tx AccountState.init).
Proof.
  unfold tryAddCommit. simpl. rewrite lookup_insert_eq. simpl.
  rewrite lookup_insert_eq. simpl.
  unfold appended, setAccountStates, setQueueSizeOps. simpl.
  by rewrite !insert_insert_eq.
Qed.

(** X1: a submission answered ADD_STATUS_DUPLICATE or ADD_STATUS_ERROR
    leaves the queue exactly as it was; after an answer
    ADD_STATUS_TRY_AGAIN_LATER the full hash of the transaction is banned;
    and the queue writes a result code with ADD_STATUS_ERROR only. *)
Theorem rejected_submission_changes_nothing (mApp : Application)
    (q q' : TransactionQueue) (tx : TransactionFrameBase) (res : AddResult)
    (code : option TransactionResultCode) :
  tryAdd mApp q tx = Some (q', res, code) ->
  (res = ADD_STATUS_DUPLICATE \/ res = ADD_STATUS_ERROR -> q' = q)
  /\ (res = ADD_STATUS_TRY_AGAIN_LATER ->
      isBanned q' (getFullHash tx) = true)
  /\ (res <> ADD_STATUS_ERROR -> code = None).
Proof.
  unfold tryAdd, canAdd. intros H.
  destruct (isBanned q (getFullHash tx)) eqn:Hban.
  { simpl in H. injection H as <- <- <-.
    repeat split; try done; intros [|]; done. }
  apply bind_Some in H as (ca & Hca & H).
  apply bind_Some in Hca as (located & Hloc & Hca).
  destruct located as [[r c]|loc].
  - injection Hca as <-. simpl in H.
    destruct (canAddLocate_early_cases _ _ _ _ Hloc) as [[-> ->]|[-> Hc]];
      simpl in H; injection H as <- <- <-; repeat split; done.
  - destruct (_ <? _).
    { apply bind_Some in Hca as (q1 & Hb & Hca). injection Hca as <-.
      simpl in H. injection H as <- <- <-.
      repeat split; try done; [intros [|]; done|].
      intros _. apply isBanned_inSlot. exists 0%nat. apply inSlot_0.
      by eapply ban_inFrontSlot. }
    destruct (negb _).
    { injection Hca as <-. simpl in H. injection H as <- <- <-.
      repeat split; done. }
    destruct (_ <? _); injection Hca as <-; simpl in H.
    + injection H as <- <- <-. repeat split; done.
    + apply bind_Some in H as (q1 & _ & H). injection H as <- <- <-.
      repeat split; try done; intros [|]; done.
Qed.

Lemma rejected_submission_changes_nothing_witness :
  (ADD_STATUS_ERROR = ADD_STATUS_DUPLICATE
   \/ ADD_STATUS_ERROR = ADD_STATUS_ERROR -> sampleQueue = sampleQueue)
  /\ (ADD_STATUS_ERROR = ADD_STATUS_TRY_AGAIN_LATER ->
      isBanned sampleQueue (getFullHash sampleBump999) = true)
  /\ (ADD_STATUS_ERROR <> ADD_STATUS_ERROR ->
      Some txINSUFFICIENT_FEE = None).
Proof.
  apply (rejected_submission_changes_nothing sampleApp sampleQueue sampleQueue
           sampleBump999 ADD_STATUS_ERROR (Some txINSUFFICIENT_FEE)).
  vm_compute. reflexivity.
Defined.

(** X2: a plain transaction that is not banned, whose source account has a
    contiguous queue that is not empty and holds no duplicate of it at its
    sequence number, and that fits in the pool, is validated against the
    sequence number of the last queued transaction, whatever its own: when
    the validator rejects it the answer is ADD_STATUS_ERROR, no code is
    written by the queue and the queue is as it was; when the validator
    accepts it and the spendable balance of the fee source covers the fee
    bid on top of its reserved fees, the answer is ADD_STATUS_PENDING and
    the transaction is appended at the tail. *)
Theorem plain_submission_follows_tail (mApp : Application)
    (q : TransactionQueue) (tx back : TransactionFrameBase)
    (st : AccountState.t) :
  getEnvelopeType tx = ENVELOPE_TYPE_TX ->
  isBanned q (getFullHash tx) = false ->
  mAccountStates q !! getSourceID tx = Some st ->
  contiguous (AccountState.mTransactions st) = true ->
  last (AccountState.mTransactions st) = Some back ->
  (forall t, t ∈ AccountState.mTransactions st ->
             getSeqNum t = getSeqNum tx -> isDuplicateTx t tx = false) ->
  to_uint64 (getNumOperations tx + mQueueSizeOps q)
    <= maxQueueSizeOps mApp q ->
  (checkValid mApp tx (getSeqNum back) = false ->
   tryAdd mApp q tx = Some (q, ADD_STATUS_ERROR, None))
  /\ (checkValid mApp tx (getSeqNum back) = true ->
      feesOfEntry (mAccountStates q !! getFeeSourceID tx)
        <= getAvailableBalance mApp (getFeeSourceID tx) - getFeeBid tx ->
      tryAdd mApp q tx = Some (appended q tx st, ADD_STATUS_PENDING, None)
      /\ sourceQueue (appended q tx st) tx
         = AccountState.mTransactions st ++ [tx]).
Proof.
  intros Hty Hban Hst Hc Hl Hdup Hcap.
  destruct (head (AccountState.mTransactions st)) as [front|] eqn:Hh.
  2:{ destruct (AccountState.mTransactions st); done. }
  assert (Hloc : canAddLocate q tx
     = Some (inr (mkLocated (getFeeBid tx) (getNumOperations tx)
                   (getSeqNum back) true
                   (length (AccountState.mTransactions st))))).
  { unfold canAddLocate. rewrite Hst.
    destruct (AccountState.mTransactions st) as [|t0 txs] eqn:Htxs; [done|].
    rewrite <- Htxs in *. replace (isEmpty (AccountState.mTransactions st))
      with false by (by rewrite Htxs).
    rewrite Hty, (findBySeq_contiguous _ _ _ Hc Hh). simpl.
    destruct (_ || _) eqn:Hout; simpl; [by rewrite Hl|].
    destruct (AccountState.mTransactions st
              !! Z.to_nat (getSeqNum tx - getSeqNum front)) as [t|] eqn:Ht;
      [|by rewrite Hl].
    rewrite Hdup, Hl; [done|by eapply list_elem_of_lookup_2|].
    rewrite (contiguous_lookup _ _ _ _ Hc Hh Ht).
    apply orb_false_iff in Hout as [H1 H2]. apply Z.ltb_ge in H1, H2. lia. }
  rewrite (tryAdd_located _ _ _ _ Hban Hloc) by done. simpl.
  split.
  - by intros ->.
  - intros -> Hbal. simpl.
    replace (_ <? _) with false by (symmetry; apply Z.ltb_ge; lia).
    rewrite (tryAddCommit_append _ _ _ Hst). split; [done|].
    unfold sourceQueue, appended. simpl.
    destruct (decide (getFeeSourceID tx = getSourceID tx)) as [E|NE].
    + rewrite E, lookup_insert_eq. simpl. by rewrite lookup_insert_eq.
    + by rewrite lookup_insert_ne, lookup_insert_eq.
Qed.

Lemma plain_submission_follows_tail_witness :
  tryAdd sampleApp sampleQueue samplePlainNext
  = Some (appended sampleQueue samplePlainNext
            (AccountState.mk 100 1 0 [samplePlain]),
          ADD_STATUS_PENDING, None)
  /\ sourceQueue (appended sampleQueue samplePlainNext
                    (AccountState.mk 100 1 0 [samplePlain])) samplePlainNext
     = [samplePlain; samplePlainNext].
Proof.
  refine (proj2 (plain_submission_follows_tail sampleApp sampleQueue
                   samplePlainNext samplePlain
                   (AccountState.mk 100 1 0 [samplePlain])
                   eq_refl eq_refl eq_refl eq_refl eq_refl _ _) eq_refl _).
  - intros t Ht. apply list_elem_of_singleton in Ht. subst t. discriminate.
  - vm_compute. discriminate.
  - vm_compute. discriminate.
Defined.

(** X3: in a queue with a positive pending depth, the first transaction
    of an account with no entry, when it is not banned, fits in the pool,
    is valid after sequence number 0 and its fee is covered, is answered
    ADD_STATUS_PENDING: the account gets an entry of age 0 whose queue is
    the transaction alone, the counter of age 0 that the append
    increments is there, the summary of the account shows its sequence
    number and operation count, the fee bid is added to the fees reserved
    on the fee source, the operation counter of the queue grows by its
    operations, and the entries of the other accounts and the ban ring
    are as they were. *)
Theorem first_submission_creates_entry (mApp : Application)
    (q : TransactionQueue) (tx : TransactionFrameBase) :
  0 < mPendingDepth q ->
  isBanned q (getFullHash tx) = false ->
  mAccountStates q !! getSourceID tx = None ->
  to_uint64 (getNumOperations tx + mQueueSizeOps q)
    <= maxQueueSizeOps mApp q ->
  checkValid mApp tx 0 = true ->
  feesOfEntry (mAccountStates q !! getFeeSourceID tx)
    <= getAvailableBalance mApp (getFeeSourceID tx) - getFeeBid tx ->
  exists q',
    tryAdd mApp q tx = Some (q', ADD_STATUS_PENDING, None)
    /\ sourceQueue q' tx = [tx]
    /\ getAccountTransactionQueueInfo q' (getSourceID tx)
       = AccountTxQueueInfo.mk (getSeqNum tx)
           (if (getFeeSourceID tx =? getSourceID tx)%N
            then getFeeBid tx else 0)
           (to_uint64 (getNumOperations tx)) 0
    /\ feesOfEntry (mAccountStates q' !! getFeeSourceID tx)
       = feesOfEntry (mAccountStates q !! getFeeSourceID tx) + getFeeBid tx
    /\ mQueueSizeOps q' = to_uint64 (mQueueSizeOps q + getNumOperations tx)
    /\ (forall k, k <> getSourceID tx -> k <> getFeeSourceID tx ->
                  mAccountStates q' !! k = mAccountStates q !! k)
    /\ mBannedTransactions q' = mBannedTransactions q
    /\ sizeByAgeAt q
         (AccountTxQueueInfo.mAge
            (getAccountTransactionQueueInfo q' (getSourceID tx)))
       = Some tt.
Proof.
  intros Hdepth Hban Hnone Hcap Hvalid Hbal.
  assert (Hloc : canAddLocate q tx
     = Some (inr (mkLocated (getFeeBid tx) (getNumOperations tx) 0 false 0))).
  { unfold canAddLocate. by rewrite Hnone. }
  assert (Hsize : sizeByAgeAt q 0 = Some tt).
  { unfold sizeByAgeAt.
    by replace (0 <? mPendingDepth q) with true
      by (symmetry; apply Z.ltb_lt; lia). }
  exists (appended q tx AccountState.init).
  rewrite (tryAdd_located _ _ _ _ Hban Hloc) by done. simpl.
  rewrite Hvalid. simpl.
  replace (_ <? _) with false by (symmetry; apply Z.ltb_ge; lia).
  rewrite tryAddCommit_new. split; [done|].
  unfold sourceQueue, getAccountTransactionQueueInfo, appended. simpl.
  destruct (decide (getFeeSourceID tx = getSourceID tx)) as [E|NE].
  - rewrite E, N.eqb_refl, !lookup_insert_eq, Hnone. simpl.
    repeat split; try done.
    intros k Hk _. by rewrite !lookup_insert_ne.
  - apply N.eqb_neq in NE as Hne. rewrite Hne.
    rewrite !(lookup_insert_ne _ (getFeeSourceID tx) (getSourceID tx)) by done.
    rewrite !lookup_insert_eq. simpl.
    rewrite (lookup_insert_ne _ (getSourceID tx) (getFeeSourceID tx)) by done.
    repeat split; try done.
    + by destruct (mAccountStates q !! getFeeSourceID tx).
    + intros k Hk1 Hk2. by rewrite !lookup_insert_ne.
Qed.

Lemma first_submission_creates_entry_witness :
  exists q',
    tryAdd sampleAppRich sampleQueueSponsored sampleSponsored2
    = Some (q', ADD_STATUS_PENDING, None)
    /\ sourceQueue q' sampleSponsored2 = [sampleSponsored2]
    /\ getAccountTransactionQueueInfo q' 30 = AccountTxQueueInfo.mk 8 0 1 0
    /\ feesOfEntry (mAccountStates q' !! 20%N) = 600 + 500.
Proof.
  destruct (first_submission_creates_entry sampleAppRich
              sampleQueueSponsored sampleSponsored2)
    as (q' & H1 & H2 & H3 & H4 & _); try (vm_compute; reflexivity).
  - vm_compute. discriminate.
  - vm_compute. discriminate.
  - exists q'. repeat split; try assumption.
Defined.

(** ** Replacement by fee *)

(** An answer ADD_STATUS_PENDING: the transaction is not banned, [canAdd]
    has reached the validator, which accepted it, and the mutation of
    [tryAdd] has run with the iterators of [canAdd]. *)
Lemma tryAdd_pending_located mApp q tx q' code :
  tryAdd mApp q tx = Some (q', ADD_STATUS_PENDING, code) ->
  exists loc,
    isBanned q (getFullHash tx) = false
    /\ canAddLocate q tx = Some (inr loc)
    /\ checkValid mApp tx (seqNum loc) = true
    /\ tryAddCommit q tx (stateFound loc) (oldTxIter loc) = Some q'
    /\ code = None.
Proof.
  unfold tryAdd, canAdd. intros H.
  destruct (isBanned q (getFullHash tx)); [done|].
  apply bind_Some in H as (ca & Hca & H).
  apply bind_Some in Hca as (located & Hloc & Hca).
  destruct located as [[res c]|loc].
  - injection Hca as <-. simpl in H. apply canAddLocate_early in Hloc.
    destruct res; simpl in H; congruence.
  - exists loc. destruct (_ <? _).
    { apply bind_Some in Hca as (q1 & _ & Hca). injection Hca as <-.
      simpl in H. congruence. }
    destruct (checkValid mApp tx (seqNum loc)); simpl in Hca;
      [|injection Hca as <-; simpl in H; congruence].
    destruct (_ <? _); injection Hca as <-; simpl in H; [congruence|].
    apply bind_Some in H as (q1 & Hcommit & H). by injection H as <- <-.
Qed.

(** What a successful [releaseFeeMaybeEraseAccountState] has done. *)
Lemma releaseFee_inv q tx q' :
  releaseFeeMaybeEraseAccountState q tx = Some q' ->
  exists st,
    mAccountStates q !! getFeeSourceID tx = Some st
    /\ getFeeBid tx <= AccountState.mTotalFees st
    /\ (forall k, mAccountStates q' !! k
                  = if decide (k = getFeeSourceID tx)
                    then releasedEntry (getFeeBid tx) st
                    else mAccountStates q !! k)
    /\ mBannedTransactions q' = mBannedTransactions q
    /\ mQueueSizeOps q' = mQueueSizeOps q
    /\ mPendingDepth q' = mPendingDepth q
    /\ mLedgerVersion q' = mLedgerVersion q
    /\ mPoolLedgerMultiplier q' = mPoolLedgerMultiplier q.
Proof.
  intros H. pose proof H as H0. unfold releaseFeeMaybeEraseAccountState in H0.
  apply bind_Some in H0 as (st & Hst & H0).
  destruct (getFeeBid tx <=? AccountState.mTotalFees st) eqn:Hle; [|done].
  apply Z.leb_le in Hle. exists st. split; [done|]. split; [done|].
  destruct (releaseFee_lookup q tx st Hst Hle) as (q1 & Hq1 & Hrest).
  rewrite H in Hq1. by injection Hq1 as <-.
Qed.

(** X4: when [tryAdd] answers ADD_STATUS_PENDING for a fee bump whose
    sequence number is that of the transaction queued in slot [i] of the
    contiguous queue of its source account, it has replaced that
    transaction: the fee bump is not a duplicate of it and satisfies the
    fee rule over it, the queue of the account is the old one with the fee
    bump in slot [i], the operation counters of the account and of the
    queue have lost the operations of the old transaction and gained those
    of the new one, the fee bid of the old transaction is released on its
    fee source and that of the new one reserved on its own, and the age of
    the account and the ban ring are as they were. *)
Theorem replace_by_fee_commit (mApp : Application) (q q' : TransactionQueue)
    (tx oldTx : TransactionFrameBase) (st : AccountState.t) (i : nat)
    (code : option TransactionResultCode) :
  getEnvelopeType tx = ENVELOPE_TYPE_TX_FEE_BUMP ->
  mAccountStates q !! getSourceID tx = Some st ->
  contiguous (AccountState.mTransactions st) = true ->
  AccountState.mTransactions st !! i = Some oldTx ->
  getSeqNum oldTx = getSeqNum tx ->
  tryAdd mApp q tx = Some (q', ADD_STATUS_PENDING, code) ->
  isDuplicateTx oldTx tx = false
  /\ canReplaceByFee tx oldTx = true
  /\ (exists st',
        mAccountStates q' !! getSourceID tx = Some st'
        /\ AccountState.mTransactions st'
           = <[i := tx]> (AccountState.mTransactions st)
        /\ AccountState.mQueueSizeOps st'
           = to_uint64 (AccountState.mQueueSizeOps st
                        - getNumOperations oldTx + getNumOperations tx)
        /\ AccountState.mAge st' = AccountState.mAge st)
  /\ mQueueSizeOps q'
     = to_uint64 (mQueueSizeOps q - getNumOperations oldTx
                  + getNumOperations tx)
  /\ (forall k,
        feesOfEntry (mAccountStates q' !! k)
        = feesOfEntry (mAccountStates q !! k)
          - (if (getFeeSourceID oldTx =? k)%N then getFeeBid oldTx else 0)
          + (if (getFeeSourceID tx =? k)%N then getFeeBid tx else 0))
  /\ mBannedTransactions q' = mBannedTransactions q.
Proof.
  intros Hty Hst Hc Hi Hseq Hadd.
  apply tryAdd_pending_located in Hadd as (loc & _ & Hloc & _ & Hcommit & _).
  assert (Hslot : isDuplicateTx oldTx tx = false
                  /\ canReplaceByFee tx oldTx = true
                  /\ stateFound loc = true /\ oldTxIter loc = i).
  { unfold canAddLocate in Hloc. rewrite Hst in Hloc.
    destruct (AccountState.mTransactions st) as [|t0 txs] eqn:Htxs;
      [by rewrite lookup_nil in Hi|].
    rewrite <- Htxs in *. replace (isEmpty (AccountState.mTransactions st))
      with false in Hloc by (by rewrite Htxs).
    rewrite Hty, (findBySeq_slot _ _ _ _ Hc Hi Hseq) in Hloc.
    simpl in Hloc. rewrite Hi in Hloc.
    destruct (isDuplicateTx oldTx tx); [done|].
    destruct (canReplaceByFee tx oldTx); [|done].
    by injection Hloc as <-. }
  destruct Hslot as (Hdup & Hfee & Hfound & Hiter).
  rewrite Hfound, Hiter in Hcommit. clear Hloc Hfound Hiter.
  split; [done|]. split; [done|].
  unfold tryAddCommit in Hcommit. rewrite Hst in Hcommit. simpl in Hcommit.
  replace (i <? length (AccountState.mTransactions st))%nat with true
    in Hcommit
    by (symmetry; apply Nat.ltb_lt; by eapply lookup_lt_Some).
  rewrite Hi in Hcommit. simpl in Hcommit.
  apply bind_Some in Hcommit as (q3 & H3 & Hcommit).
  apply bind_Some in H3 as (q1 & Hrel & H3).
  apply bind_Some in H3 as (st1 & Hst1 & H3).
  apply releaseFee_inv in Hrel
    as (stf & Hstf & Hle & Hq1 & Hring & Hops & _).
  assert (Hsame : AccountState.mTransactions st1 = AccountState.mTransactions st
                  /\ AccountState.mQueueSizeOps st1 = AccountState.mQueueSizeOps st
                  /\ AccountState.mAge st1 = AccountState.mAge st).
  { rewrite Hq1 in Hst1. destruct (decide _) as [E|NE].
    - rewrite <- E, Hst in Hstf. injection Hstf as <-.
      unfold releasedEntry in Hst1. destruct (_ && _); [done|].
      by injection Hst1 as <-.
    - rewrite Hst in Hst1. by injection Hst1 as <-. }
  destruct Hsame as (Htxs1 & Hops1 & Hage1).
  assert (Hfees1 : forall k,
            feesOfEntry (mAccountStates q1 !! k)
            = feesOfEntry (mAccountStates q !! k)
              - (if (getFeeSourceID oldTx =? k)%N then getFeeBid oldTx else 0)).
  { intros k. rewrite Hq1. destruct (decide _) as [->|NE].
    - rewrite N.eqb_refl, feesOfEntry_released, Hstf. done.
    - replace (getFeeSourceID oldTx =? k)%N with false
        by (symmetry; apply N.eqb_neq; congruence). lia. }
  injection H3 as <-. simpl in Hcommit. rewrite lookup_insert_eq in Hcommit.
  simpl in Hcommit. injection Hcommit as <-. simpl.
  rewrite insert_insert_eq.
  split; [|split; [|split]].
  - destruct (decide (getFeeSourceID tx = getSourceID tx)) as [E|NE].
    + rewrite E, !lookup_insert_eq. simpl. eexists. split; [done|]. simpl.
      rewrite Htxs1, Hops1, Hage1. repeat split.
      unfold to_uint64. rewrite Zplus_mod_idemp_l. done.
    + rewrite lookup_insert_ne, lookup_insert_eq by done.
      eexists. split; [done|]. simpl.
      rewrite Htxs1, Hops1, Hage1. repeat split.
      unfold to_uint64. rewrite Zplus_mod_idemp_l. done.
  - rewrite Hops. unfold to_uint64. by rewrite Zplus_mod_idemp_l.
  - intros k. rewrite <- Hfees1.
    destruct (decide (k = getFeeSourceID tx)) as [->|NEk].
    + rewrite N.eqb_refl, lookup_insert_eq. simpl.
      destruct (decide (getFeeSourceID tx = getSourceID tx)) as [E|NE].
      * rewrite E, lookup_insert_eq, Hst1. simpl. done.
      * rewrite lookup_insert_ne by done.
        by destruct (mAccountStates q1 !! getFeeSourceID tx).
    + replace (getFeeSourceID tx =? k)%N with false
        by (symmetry; apply N.eqb_neq; congruence).
      rewrite lookup_insert_ne by done.
      destruct (decide (k = getSourceID tx)) as [->|NEs].
      * rewrite lookup_insert_eq, Hst1. simpl. lia.
      * rewrite lookup_insert_ne by done. lia.
  - done.
Qed.

Lemma replace_by_fee_commit_witness :
  isDuplicateTx samplePlain sampleBump1000 = false
  /\ canReplaceByFee sampleBump1000 samplePlain = true
  /\ (exists st',
        mAccountStates sampleQueueBumped !! 10%N = Some st'
        /\ AccountState.mTransactions st' = [sampleBump1000]
        /\ AccountState.mQueueSizeOps st' = to_uint64 (1 - 1 + 1)
        /\ AccountState.mAge st' = 0)
  /\ mQueueSizeOps sampleQueueBumped = to_uint64 (1 - 1 + 1)
  /\ (forall k,
        feesOfEntry (mAccountStates sampleQueueBumped !! k)
        = feesOfEntry (mAccountStates sampleQueue !! k)
          - (if (10 =? k)%N then 100 else 0)
          + (if (10 =? k)%N then 1000 else 0))
  /\ mBannedTransactions sampleQueueBumped = mBannedTransactions sampleQueue.
Proof.
  apply (replace_by_fee_commit sampleApp sampleQueue sampleQueueBumped
           sampleBump1000 samplePlain (AccountState.mk 100 1 0 [samplePlain])
           0 None); reflexivity.
Defined.

(** X5: on transactions whose attributes are in the range of their types
    the fee rule of [canReplaceByFee] is a strict order: a transaction
    with a positive fee bid does not satisfy it over itself, two
    transactions never satisfy it over each other when the replaced one
    bids a positive fee, and a transaction that may replace one that may
    replace a third may replace the third. *)
Theorem canReplaceByFee_strict_order (a b c : TransactionFrameBase) :
  tx_in_range a = true -> tx_in_range b = true -> tx_in_range c = true ->
  0 < getFeeBid b ->
  canReplaceByFee b b = false
  /\ (canReplaceByFee a b = true -> canReplaceByFee b a = false)
  /\ (canReplaceByFee a b = true -> canReplaceByFee b c = true ->
      canReplaceByFee a c = true).
Proof.
  intros Ha Hb Hc Hpos.
  pose proof (canReplaceByFee_spec b b Hb Hb) as Hbb.
  pose proof (canReplaceByFee_spec a b Ha Hb) as Hab.
  pose proof (canReplaceByFee_spec b a Hb Ha) as Hba.
  pose proof (canReplaceByFee_spec b c Hb Hc) as Hbc.
  pose proof (canReplaceByFee_spec a c Ha Hc) as Hac.
  apply tx_in_range_spec in Ha as (_ & Hoa & Hfa).
  apply tx_in_range_spec in Hb as (_ & Hob & Hfb).
  apply tx_in_range_spec in Hc as (_ & Hoc & Hfc).
  change FEE_MULTIPLIER with 10 in *.
  set (oa := Z.max 1 (getNumOperations a)) in *.
  set (ob := Z.max 1 (getNumOperations b)) in *.
  set (oc := Z.max 1 (getNumOperations c)) in *.
  assert (1 <= oa) by lia. assert (1 <= ob) by lia. assert (1 <= oc) by lia.
  split; [|split].
  - destruct (canReplaceByFee b b); [|done].
    assert (Hge : getFeeBid b * ob >= 10 * getFeeBid b * ob) by by apply Hbb.
    nia.
  - intros Hr. apply Hab in Hr.
    destruct (canReplaceByFee b a); [|done].
    assert (Hge : getFeeBid b * oa >= 10 * getFeeBid a * ob) by by apply Hba.
    nia.
  - intros R1 R2. apply Hab in R1. apply Hbc in R2. apply Hac.
    assert (R3 : getFeeBid a * ob * oc >= 10 * getFeeBid b * oa * oc) by nia.
    assert (R4 : 10 * (getFeeBid b * oc) * oa >= 100 * getFeeBid c * ob * oa)
      by nia.
    assert (R5 : ob * (getFeeBid a * oc) >= ob * (100 * getFeeBid c * oa))
      by lia.
    assert (R6 : getFeeBid a * oc >= 100 * getFeeBid c * oa) by nia.
    nia.
Qed.

Lemma canReplaceByFee_strict_order_witness :
  canReplaceByFee samplePlain samplePlain = false
  /\ canReplaceByFee samplePlain sampleBump1000 = false
  /\ canReplaceByFee sampleBump1000 sampleCheap = true.
Proof.
  destruct (canReplaceByFee_strict_order sampleBump1000 samplePlain
              sampleCheap eq_refl eq_refl eq_refl) as (H1 & H2 & H3).
  - reflexivity.
  - split; [exact H1|]. split; [apply H2|apply H3]; reflexivity.
Defined.

(** ** Searching by sequence number *)

(** X6: on a contiguous queue that is not empty [findBySeq] passes its
    assertions; it fails exactly for the sequence numbers below the first
    queued one or above the last queued one plus 1, and otherwise finds
    the slot at the offset of the sequence number from the first one,
    which holds the transaction of that sequence number, or is the end of
    the queue for the last sequence number plus 1. *)
Theorem findBySeq_on_contiguous (seq : Z) (l : list TransactionFrameBase)
    (front back : TransactionFrameBase) :
  contiguous l = true -> head l = Some front -> last l = Some back ->
  (seq < getSeqNum front \/ getSeqNum back + 1 < seq ->
   findBySeq seq l = Some None)
  /\ (getSeqNum front <= seq <= getSeqNum back + 1 ->
      exists i : nat,
        findBySeq seq l = Some (Some i)
        /\ Z.of_nat i = seq - getSeqNum front
        /\ (seq = getSeqNum back + 1 -> i = length l)
        /\ (seq <= getSeqNum back ->
            exists t, l !! i = Some t /\ getSeqNum t = seq)).
Proof.
  intros Hc Hh Hl.
  pose proof (contiguous_last _ _ _ Hc Hh Hl) as Hback.
  rewrite (findBySeq_contiguous _ _ _ Hc Hh). split.
  - intros Hout.
    replace ((seq <? getSeqNum front)
             || (getSeqNum front + Z.of_nat (length l) <? seq)) with true;
      [done|].
    symmetry. apply orb_true_iff. rewrite !Z.ltb_lt. lia.
  - intros Hin.
    replace ((seq <? getSeqNum front)
             || (getSeqNum front + Z.of_nat (length l) <? seq)) with false
      by (symmetry; apply orb_false_iff; rewrite !Z.ltb_ge; lia).
    exists (Z.to_nat (seq - getSeqNum front)).
    split; [done|]. split; [lia|]. split; [lia|].
    intros Hle.
    destruct (lookup_lt_is_Some_2 l (Z.to_nat (seq - getSeqNum front)))
      as [t Ht]; [lia|].
    exists t. split; [done|].
    rewrite (contiguous_lookup _ _ _ _ Hc Hh Ht). lia.
Qed.

Lemma findBySeq_on_contiguous_witness :
  findBySeq 4 [sampleOld1; sampleOld2] = Some None
  /\ exists i : nat,
       findBySeq 6 [sampleOld1; sampleOld2] = Some (Some i)
       /\ Z.of_nat i = 6 - 5
       /\ (6 = 6 + 1 -> i = 2%nat)
       /\ (6 <= 6 -> exists t, [sampleOld1; sampleOld2] !! i = Some t
                               /\ getSeqNum t = 6).
Proof.
  split.
  - apply (findBySeq_on_contiguous 4 [sampleOld1; sampleOld2]
             sampleOld1 sampleOld2 eq_refl eq_refl eq_refl).
    left. reflexivity.
  - apply (findBySeq_on_contiguous 6 [sampleOld1; sampleOld2]
             sampleOld1 sampleOld2 eq_refl eq_refl eq_refl).
    cbn. lia.
Defined.

(** ** What [ban] does to the ring *)

Lemma forEach_banFront_all l : forall q q',
  forEach (fun q0 tx => banFront q0 (getFullHash tx)) l q = Some q' ->
  forall tx, tx ∈ l -> inFrontSlot q' (getFullHash tx).
Proof.
  induction l as [|t l IH]; intros q q' H tx Hin; [by inversion Hin|].
  simpl in H. apply bind_Some in H as (q0 & Hfront & H).
  apply elem_of_cons in Hin as [->|Hin]; [|by eapply IH].
  apply banFront_grows in Hfront as [_ Hfront].
  apply forEach_banFront_grows in H.
  apply inSlot_0. eapply frontGrows_inSlot; [exact H|]. by apply inSlot_0.
Qed.

(** X7: when [ban] returns, every listed transaction is banned, every
    hash that was banned is still banned, the ring has the depth it had,
    and a submission of a listed transaction is answered
    ADD_STATUS_TRY_AGAIN_LATER with the queue unchanged. *)
Theorem ban_bans_listed (q q' : TransactionQueue)
    (banTxs : list TransactionFrameBase) :
  ban q banTxs = Some q' ->
  (forall tx, tx ∈ banTxs -> isBanned q' (getFullHash tx) = true)
  /\ (forall hash, isBanned q hash = true -> isBanned q' hash = true)
  /\ length (mBannedTransactions q') = length (mBannedTransactions q)
  /\ (forall mApp tx, tx ∈ banTxs ->
        tryAdd mApp q' tx = Some (q', ADD_STATUS_TRY_AGAIN_LATER, None)).
Proof.
  intros Hban. pose proof (ban_grows _ _ _ Hban) as Hgrow.
  assert (Hall : forall tx, tx ∈ banTxs -> isBanned q' (getFullHash tx) = true).
  { intros tx Hin. apply isBanned_inSlot. exists 0%nat. apply inSlot_0.
    unfold ban in Hban.
    apply bind_Some in Hban as (f & _ & Hban).
    apply bind_Some in Hban as (q1 & Hfront & Hban).
    pose proof (forEach_banFront_all _ _ _ Hfront tx Hin) as H1.
    assert (Hg : frontGrows q1 q').
    { revert Hban. apply (forEach_preserves frontGrows).
      - apply frontGrows_refl.
      - apply frontGrows_trans.
      - apply banAccount_grows. }
    apply inSlot_0. eapply frontGrows_inSlot; [exact Hg|]. by apply inSlot_0. }
  split; [done|]. split; [|split].
  - intros hash [k Hk]%isBanned_inSlot. apply isBanned_inSlot. exists k.
    by eapply frontGrows_inSlot.
  - by apply frontGrows_length.
  - intros mApp tx Hin. unfold tryAdd, canAdd. by rewrite (Hall tx Hin).
Qed.

Lemma ban_bans_listed_witness :
  isBanned sampleQueueBan11 (getFullHash samplePlain11) = true
  /\ tryAdd sampleApp sampleQueueBan11 samplePlain11
     = Some (sampleQueueBan11, ADD_STATUS_TRY_AGAIN_LATER, None).
Proof.
  destruct (ban_bans_listed sampleQueue sampleQueueBan11 [samplePlain11])
    as (H1 & _ & _ & H2).
  - vm_compute. reflexivity.
  - split; [apply H1|apply H2]; apply list_elem_of_singleton; reflexivity.
Defined.

(** ** Operations that only remove transactions *)

Lemma queuesUnder_refl R `{!Reflexive R} q : queuesUnder R q q.
Proof. intros a st' Hst. by exists st'. Qed.

Lemma queuesUnder_trans R `{!Transitive R} q1 q2 q3 :
  queuesUnder R q1 q2 -> queuesUnder R q2 q3 -> queuesUnder R q1 q3.
Proof.
  intros H12 H23 a st3 Hst3.
  destruct (H23 _ _ Hst3) as (st2 & Hst2 & R23).
  destruct (H12 _ _ Hst2) as (st1 & Hst1 & R12).
  exists st1. split; [done|]. by etrans.
Qed.

Lemma queuesUnder_eq R `{!Reflexive R} q q' :
  queuesUnder eq q q' -> queuesUnder R q q'.
Proof.
  intros H a st' Hst'. destruct (H _ _ Hst') as (st & Hst & ->). eauto.
Qed.

Lemma queuesUnder_states R `{!Reflexive R} q q' :
  mAccountStates q' = mAccountStates q -> queuesUnder R q q'.
Proof. intros E a st' Hst'. rewrite E in Hst'. eauto. Qed.

Lemma releaseFee_queues q tx q' :
  releaseFeeMaybeEraseAccountState q tx = Some q' -> queuesUnder eq q q'.
Proof.
  intros (st & Hst & _ & Hq' & _)%releaseFee_inv a st' Hst'.
  rewrite Hq' in Hst'. destruct (decide _) as [->|NE]; [|eauto].
  exists st. split; [done|]. unfold releasedEntry in Hst'.
  destruct (_ && _); [done|]. by injection Hst' as <-.
Qed.

Lemma dropOne_queues stateIter q tx q' :
  dropOne stateIter q tx = Some q' -> queuesUnder eq q q'.
Proof.
  unfold dropOne. intros H. apply bind_Some in H as (st & Hst & H).
  apply releaseFee_queues in H.
  eapply (queuesUnder_trans eq); [|exact H].
  intros a st' Hst'. simpl in Hst'.
  destruct (decide (a = stateIter)) as [->|NE].
  - rewrite lookup_insert_eq in Hst'. injection Hst' as <-. eauto.
  - rewrite lookup_insert_ne in Hst' by done. eauto.
Qed.

(** [dropTransactions] erases the range from the queue of [stateIter] and
    touches no other queue. *)
Lemma dropTransactions_queues q stateIter b e q' :
  dropTransactions q stateIter b e = Some q' ->
  forall a st', mAccountStates q' !! a = Some st' ->
    exists st,
      mAccountStates q !! a = Some st
      /\ AccountState.mTransactions st'
         = if decide (a = stateIter)
           then take b (AccountState.mTransactions st)
                ++ drop e (AccountState.mTransactions st)
           else AccountState.mTransactions st.
Proof.
  unfold dropTransactions. intros H.
  apply bind_Some in H as (st0 & Hst0 & H).
  apply bind_Some in H as (q1 & Hloop & H).
  apply bind_Some in H as (st & Hst & H).
  assert (Hq1 : queuesUnder eq q q1).
  { revert Hloop. apply (forEach_preserves (queuesUnder eq)).
    - apply queuesUnder_refl; apply _.
    - apply queuesUnder_trans; apply _.
    - apply dropOne_queues. }
  assert (Hother : forall a st', a <> stateIter ->
            mAccountStates q1 !! a = Some st' ->
            exists st2, mAccountStates q !! a = Some st2
              /\ AccountState.mTransactions st'
                 = AccountState.mTransactions st2).
  { intros a st' NE Hst'. destruct (Hq1 _ _ Hst') as (st2 & Hst2 & E).
    by exists st2. }
  assert (Hself : forall st', AccountState.mTransactions st'
                    = take b (AccountState.mTransactions st)
                      ++ drop e (AccountState.mTransactions st) ->
            exists st2, mAccountStates q !! stateIter = Some st2
              /\ AccountState.mTransactions st'
                 = take b (AccountState.mTransactions st2)
                   ++ drop e (AccountState.mTransactions st2)).
  { intros st' E. destruct (Hq1 _ _ Hst) as (st2 & Hst2 & E2).
    exists st2. split; [done|]. by rewrite <- E2. }
  intros a st' Hst'.
  destruct (isEmpty _); [destruct (_ =? _)|]; injection H as <-;
    simpl in Hst'; destruct (decide (a = stateIter)) as [->|NE].
  - by rewrite lookup_delete_eq in Hst'.
  - rewrite lookup_delete_ne in Hst' by done. by apply Hother.
  - rewrite lookup_insert_eq in Hst'. injection Hst' as <-. by apply Hself.
  - rewrite lookup_insert_ne in Hst' by done. by apply Hother.
  - rewrite lookup_insert_eq in Hst'. injection Hst' as <-. by apply Hself.
  - rewrite lookup_insert_ne in Hst' by done. by apply Hother.
Qed.

Lemma banFront_states q hash q' :
  banFront q hash = Some q' -> mAccountStates q' = mAccountStates q.
Proof.
  unfold banFront. destruct (mBannedTransactions q); [done|].
  by intros [= <-].
Qed.

Lemma forEach_banFront_states {A} (f : A -> Hash) l q q' :
  forEach (fun q0 t => banFront q0 (f t)) l q = Some q' ->
  mAccountStates q' = mAccountStates q.
Proof.
  apply (forEach_preserves (fun a b => mAccountStates b = mAccountStates a)).
  - done.
  - intros ??? E1 E2. by rewrite E2.
  - intros ???. apply banFront_states.
Qed.

(** X8: [ban] adds no transaction to a queue and creates no entry: when it
    returns, every entry was there before and its queue is a prefix of
    the queue it had. *)
Theorem ban_keeps_prefixes (q q' : TransactionQueue)
    (banTxs : list TransactionFrameBase) :
  ban q banTxs = Some q' ->
  forall a st', mAccountStates q' !! a = Some st' ->
    exists st, mAccountStates q !! a = Some st
               /\ AccountState.mTransactions st'
                  `prefix_of` AccountState.mTransactions st.
Proof.
  unfold ban. intros H.
  apply bind_Some in H as (f & _ & H).
  apply bind_Some in H as (q1 & Hfront & H).
  apply forEach_banFront_states in Hfront.
  change (queuesUnder prefix q q').
  apply (queuesUnder_trans prefix _ q1);
    [by apply queuesUnder_states; [apply _|]|].
  revert H. apply (forEach_preserves (queuesUnder prefix)).
  - apply queuesUnder_refl; apply _.
  - apply queuesUnder_trans; apply _.
  - intros s kv s' Hs. unfold banAccount in Hs.
    destruct (mAccountStates s !! kv.1) as [st|] eqn:Hst;
      [|injection Hs as <-; apply queuesUnder_refl; apply _].
    destruct (isEmpty _);
      [injection Hs as <-; apply queuesUnder_refl; apply _|].
    apply bind_Some in Hs as (txIter & _ & Hs).
    apply bind_Some in Hs as (s1 & Hs1 & Hs).
    apply forEach_banFront_states in Hs1.
    intros a st' Hst'.
    destruct (dropTransactions_queues _ _ _ _ _ Hs _ _ Hst')
      as (st2 & Hst2 & E).
    rewrite Hs1 in Hst2. exists st2. split; [done|]. rewrite E.
    destruct (decide _) as [->|]; [|done].
    rewrite Hst in Hst2. injection Hst2 as <-.
    rewrite drop_all, app_nil_r. apply prefix_take.
Qed.

Lemma ban_keeps_prefixes_witness :
  exists st, mAccountStates sampleQueue !! 10%N = Some st
             /\ [samplePlain] `prefix_of` AccountState.mTransactions st.
Proof.
  apply (ban_keeps_prefixes sampleQueue sampleQueueBan11 [samplePlain11]
           eq_refl 10%N (AccountState.mk 100 1 0 [samplePlain])).
  reflexivity.
Defined.

(** X9: [removeApplied] adds no transaction to a queue and creates no
    entry: when it returns, every entry was there before and its queue is
    a suffix of the queue it had. *)
Theorem removeApplied_keeps_suffixes (q q' : TransactionQueue)
    (appliedTxs : list TransactionFrameBase) :
  removeApplied q appliedTxs = Some q' ->
  forall a st', mAccountStates q' !! a = Some st' ->
    exists st, mAccountStates q !! a = Some st
               /\ AccountState.mTransactions st'
                  `suffix_of` AccountState.mTransactions st.
Proof.
  unfold removeApplied. intros H. change (queuesUnder suffix q q').
  revert H. apply (forEach_preserves (queuesUnder suffix)).
  - apply queuesUnder_refl; apply _.
  - apply queuesUnder_trans; apply _.
  - intros s kv s' Hs. unfold removeAppliedAccount in Hs.
    destruct (mAccountStates s !! kv.1) as [st|] eqn:Hst;
      [|injection Hs as <-; apply queuesUnder_refl; apply _].
    destruct (head _);
      [|injection Hs as <-; apply queuesUnder_refl; apply _].
    destruct (_ <=? _);
      [|injection Hs as <-; apply queuesUnder_refl; apply _].
    apply bind_Some in Hs as (found & _ & Hs).
    intros a st' Hst'.
    destruct (dropTransactions_queues _ _ _ _ _ Hs _ _ Hst')
      as (st2 & Hst2 & E).
    simpl in Hst2. destruct (decide (a = kv.1)) as [->|NE].
    + rewrite lookup_insert_eq in Hst2. injection Hst2 as <-.
      exists st. split; [done|]. rewrite E. simpl. apply suffix_drop.
    + rewrite lookup_insert_ne in Hst2 by done.
      exists st2. split; [done|]. by rewrite E.
Qed.

Lemma removeApplied_keeps_suffixes_witness :
  exists st, mAccountStates sampleQueuePaying !! 10%N = Some st
             /\ [sampleOwn] `suffix_of` AccountState.mTransactions st.
Proof.
  apply (removeApplied_keeps_suffixes sampleQueuePaying sampleQueuePaid
           [sampleEarlier; samplePaidFor] eq_refl 10%N
           (AccountState.mk 100 1 2 [sampleOwn])).
  reflexivity.
Defined.

#[local] Instance sameOrEmptied_refl : Reflexive sameOrEmptied.
Proof. intros l. by left. Qed.

#[local] Instance sameOrEmptied_trans : Transitive sameOrEmptied.
Proof. intros l1 l2 l3 [-> | ->] [-> | ->]; unfold sameOrEmptied; auto. Qed.

Lemma shiftEvict_queues q toBan q' :
  shiftEvict q toBan = Some q' -> queuesUnder eq q q'.
Proof.
  unfold shiftEvict. intros H. apply bind_Some in H as (q1 & Hrel & H).
  apply releaseFee_queues in Hrel. apply banFront_states in H.
  eapply (queuesUnder_trans eq); [exact Hrel|].
  by apply queuesUnder_states; [apply _|].
Qed.

Lemma shiftAccount_queues q it q' :
  shiftAccount q it = Some q' -> queuesUnder sameOrEmptied q q'.
Proof.
  unfold shiftAccount. intros H.
  destruct (mAccountStates q !! it) as [st|] eqn:Hst;
    [|injection H as <-; apply queuesUnder_refl; apply _].
  set (st1 := if isEmpty (AccountState.mTransactions st) then st
              else withAge st (to_uint64 (AccountState.mAge st + 1))) in *.
  assert (Htxs1 : AccountState.mTransactions st1 = AccountState.mTransactions st)
    by (unfold st1; by destruct (isEmpty _)).
  set (q1 := setAccountStates q (<[it := st1]> (mAccountStates q))) in *.
  assert (Hq1 : queuesUnder eq q q1).
  { intros a st' Hst'. unfold q1 in Hst'. simpl in Hst'.
    destruct (decide (a = it)) as [->|NE].
    - rewrite lookup_insert_eq in Hst'. injection Hst' as <-. eauto.
    - rewrite lookup_insert_ne in Hst' by done. eauto. }
  destruct (_ =? _);
    [|injection H as <-; by apply queuesUnder_eq; [apply _|]].
  apply bind_Some in H as (q2 & Hloop & H).
  apply bind_Some in H as (st2 & Hst2 & H).
  assert (Hq2 : queuesUnder eq q q2).
  { eapply (queuesUnder_trans eq); [exact Hq1|].
    revert Hloop. apply (forEach_preserves (queuesUnder eq)).
    - apply queuesUnder_refl; apply _.
    - apply queuesUnder_trans; apply _.
    - apply shiftEvict_queues. }
  intros a st' Hst'.
  destruct (_ =? _); injection H as <-; simpl in Hst';
    destruct (decide (a = it)) as [->|NE].
  - by rewrite lookup_delete_eq in Hst'.
  - rewrite lookup_delete_ne in Hst' by done.
    destruct (Hq2 _ _ Hst') as (s & Hs & E). exists s. split; [done|].
    by left.
  - rewrite lookup_insert_eq in Hst'. injection Hst' as <-.
    exists st. split; [done|]. by right.
  - rewrite lookup_insert_ne in Hst' by done.
    destruct (Hq2 _ _ Hst') as (s & Hs & E). exists s. split; [done|].
    by left.
Qed.

(** X10: [shift] adds no transaction to a queue and creates no entry, and
    it evicts whole queues only: when it returns, every entry was there
    before, and its queue is the queue it had or is empty. *)
Theorem shift_keeps_or_empties (q q' : TransactionQueue) :
  shift q = Some q' ->
  forall a st', mAccountStates q' !! a = Some st' ->
    exists st, mAccountStates q !! a = Some st
               /\ (AccountState.mTransactions st'
                   = AccountState.mTransactions st
                   \/ AccountState.mTransactions st' = []).
Proof.
  unfold shift. intros H.
  destruct (mBannedTransactions q) as [|s r]; [done|].
  change (queuesUnder sameOrEmptied q q').
  apply (queuesUnder_trans sameOrEmptied _
           (setBannedTransactions q (∅ :: removelast (s :: r))));
    [by apply queuesUnder_states; [apply _|]|].
  revert H. apply (forEach_preserves (queuesUnder sameOrEmptied)).
  - apply queuesUnder_refl; apply _.
  - apply queuesUnder_trans; apply _.
  - apply shiftAccount_queues.
Qed.

Lemma shift_keeps_or_empties_witness :
  exists st, mAccountStates sampleQueueBan11 !! 10%N = Some st
             /\ ([samplePlain] = AccountState.mTransactions st
                 \/ [samplePlain] = []).
Proof.
  apply (shift_keeps_or_empties sampleQueueBan11 sampleQueueBan11Shifted
           eq_refl 10%N (AccountState.mk 100 1 1 [samplePlain])).
  reflexivity.
Defined.

(** ** The candidate set for the next ledger *)

Lemma toTxSetAccount_prefix s l : toTxSetAccount s l `prefix_of` l.
Proof.
  induction l as [|t l IH]; simpl; [done|].
  destruct (_ =? _); [|by apply prefix_cons].
  by exists l.
Qed.

Lemma toTxSetAccount_below s l : forall s0,
  contiguousFrom s0 l = true -> s0 <= s - 1 ->
  forall t, t ∈ toTxSetAccount s l -> getSeqNum t <= s - 1.
Proof.
  induction l as [|x l IH]; intros s0 Hc Hs0 t Ht; simpl in *;
    [by inversion Ht|].
  apply andb_true_iff in Hc as [Hx Hc]. apply Z.eqb_eq in Hx.
  apply elem_of_cons in Ht as [->|Ht]; [lia|].
  destruct (getSeqNum x =? s - 1) eqn:E; [by inversion Ht|].
  apply Z.eqb_neq in E. apply (IH (s0 + 1)); [done|lia|done].
Qed.

Lemma contiguousFrom_ge l : forall s0 t,
  contiguousFrom s0 l = true -> t ∈ l -> s0 <= getSeqNum t.
Proof.
  intros s0 t Hc [i Hi]%list_elem_of_lookup.
  rewrite (contiguousFrom_lookup _ _ _ _ Hc Hi). lia.
Qed.

Lemma toTxSetAccount_all s l :
  (forall t, t ∈ l -> getSeqNum t <> s - 1) -> toTxSetAccount s l = l.
Proof.
  induction l as [|x l IH]; intros Hno; simpl; [done|].
  replace (getSeqNum x =? s - 1) with false
    by (symmetry; apply Z.eqb_neq, Hno; left).
  rewrite IH; [done|]. intros t Ht. apply Hno. by right.
Qed.

(** X11: the part of the queue of an account that [toTxSet] puts in the
    candidate set is a prefix of the queue that starts with its first
    transaction; when the queue is contiguous the sequence numbers of that
    part are all at most [startingSeq - 1] or all at least [startingSeq],
    the starting sequence number of the next ledger; when no queued
    transaction has the sequence number [startingSeq - 1] the part is the
    whole queue; and the candidate set holds nothing but these parts. *)
Theorem toTxSet_respects_boundary (getStartingSequenceNumber : Z -> Z)
    (q : TransactionQueue) (ledgerSeq : Z) (a : N) (st : AccountState.t) :
  mAccountStates q !! a = Some st ->
  contiguous (AccountState.mTransactions st) = true ->
  let startingSeq := getStartingSequenceNumber ((ledgerSeq + 1) mod 2 ^ 32) in
  let part := toTxSetAccount startingSeq (AccountState.mTransactions st) in
  (forall t, t ∈ part -> t ∈ toTxSet getStartingSequenceNumber q ledgerSeq)
  /\ part `prefix_of` AccountState.mTransactions st
  /\ head part = head (AccountState.mTransactions st)
  /\ ((forall t, t ∈ part -> getSeqNum t <= startingSeq - 1)
      \/ (forall t, t ∈ part -> startingSeq <= getSeqNum t))
  /\ ((forall t, t ∈ AccountState.mTransactions st ->
                 getSeqNum t <> startingSeq - 1) ->
      part = AccountState.mTransactions st)
  /\ (forall t, t ∈ toTxSet getStartingSequenceNumber q ledgerSeq ->
        exists a' st', mAccountStates q !! a' = Some st'
          /\ t ∈ toTxSetAccount startingSeq (AccountState.mTransactions st')).
Proof.
  intros Hst Hc startingSeq part.
  split; [|split; [|split; [|split; [|split]]]].
  - intros t Ht. unfold toTxSet. apply list_elem_of_In, in_flat_map.
    exists (a, st). split; [|by apply list_elem_of_In].
    by apply list_elem_of_In, elem_of_map_to_list.
  - apply toTxSetAccount_prefix.
  - unfold part. by destruct (AccountState.mTransactions st).
  - unfold part. destruct (AccountState.mTransactions st) as [|x l] eqn:E.
    { left. intros t Ht. by inversion Ht. }
    unfold contiguous in Hc.
    destruct (Z_le_gt_dec (getSeqNum x) (startingSeq - 1)).
    + left. by apply (toTxSetAccount_below _ _ (getSeqNum x)).
    + right. intros t Ht.
      assert (t ∈ x :: l).
      { destruct (toTxSetAccount_prefix startingSeq (x :: l)) as [k Hk].
        rewrite Hk. apply elem_of_app. by left. }
      pose proof (contiguousFrom_ge _ _ _ Hc H). lia.
  - apply toTxSetAccount_all.
  - intros t Ht. unfold toTxSet in Ht.
    apply list_elem_of_In, in_flat_map in Ht as ([a' st'] & Hin & Ht).
    exists a', st'. split; [|by apply list_elem_of_In].
    by apply elem_of_map_to_list, list_elem_of_In.
Qed.

Lemma toTxSet_respects_boundary_witness :
  toTxSetAccount 8589934592 [sampleEdge1; sampleEdge2; sampleEdge3]
    `prefix_of` [sampleEdge1; sampleEdge2; sampleEdge3]
  /\ ((forall t, t ∈ toTxSetAccount 8589934592
                       [sampleEdge1; sampleEdge2; sampleEdge3] ->
                 getSeqNum t <= 8589934592 - 1)
      \/ (forall t, t ∈ toTxSetAccount 8589934592
                          [sampleEdge1; sampleEdge2; sampleEdge3] ->
                    8589934592 <= getSeqNum t)).
Proof.
  destruct (toTxSet_respects_boundary sampleStartingSeq sampleQueueEdge 1
              10%N (AccountState.mk 300 3 0
                      [sampleEdge1; sampleEdge2; sampleEdge3])
              eq_refl eq_refl) as (_ & H2 & _ & H4 & _).
  split; [exact H2|exact H4].
Defined.

(** ** The protocol upgrade *)




(** ** [shift] when no queue has aged out *)

Lemma evictedOf_none q (l : list (N * AccountState.t)) :
  (forall kv, kv ∈ l -> agesOut q kv.2 = false) -> evictedOf q l = [].
Proof.
  induction l as [|kv l IH]; intros Hno; simpl; [done|].
  rewrite (Hno kv) by left. simpl. apply IH. intros kv' Hin. apply Hno.
  by right.
Qed.

Lemma visited_all (m : gmap N AccountState.t) a st :
  m !! a = Some st -> a ∈ (map_to_list m).*1.
Proof.
  intros Hst. apply list_elem_of_fmap. exists (a, st). split; [done|].
  by apply elem_of_map_to_list.
Qed.

(** X13: in a state that satisfies the invariants and in which no queue
    reaches [mPendingDepth] with this call, [shift] returns and only
    rotates the ban ring and increments the ages of the queues that are
    not empty: the new front slot is empty, the oldest slot is gone, no
    entry is erased, and the queues, the fees reserved and the operation
    counters are as they were. *)
Theorem shift_without_eviction (q : TransactionQueue) :
  shiftReady q = true ->
  (forall a st, mAccountStates q !! a = Some st -> agesOut q st = false) ->
  exists q',
    shift q = Some q'
    /\ mBannedTransactions q' = ∅ :: removelast (mBannedTransactions q)
    /\ countBanned q' 0 = Some 0
    /\ (forall a, mAccountStates q' !! a = aged <$> mAccountStates q !! a)
    /\ mQueueSizeOps q' = mQueueSizeOps q.
Proof.
  intros Hready Hno.
  destruct (shiftReady_spec _ Hready) as (Hinv & _ & Hops & _).
  assert (Hev : evictedOf q (map_to_list (mAccountStates q)) = []).
  { apply evictedOf_none. intros [a st] Hin. apply (Hno a).
    by apply elem_of_map_to_list. }
  exists (shifted q). split; [by apply shift_closed|].
  unfold shifted, shiftedTo, countBanned. simpl. rewrite Hev. simpl.
  split; [done|]. split; [done|]. split.
  - intros a. rewrite map_lookup_imap.
    destruct (mAccountStates q !! a) as [st|] eqn:Hst; [simpl|done].
    unfold shiftedEntry.
    rewrite bool_decide_eq_true_2 by (by eapply visited_all).
    rewrite (Hno _ _ Hst), Hev. simpl. apply releasedEntry_0.
    intros Hempty. unfold aged in *.
    destruct (isEmpty (AccountState.mTransactions st)) eqn:E.
    + by destruct (idle_entry _ Hinv a st Hst Hempty).
    + simpl in Hempty. by rewrite Hempty in E.
  - rewrite Z.sub_0_r. apply to_uint64_small. lia.
Qed.

Lemma shift_without_eviction_witness :
  exists q',
    shift sampleQueueBan11 = Some q'
    /\ mBannedTransactions q' = ∅ :: removelast [{[ 4%N ]}; ∅]
    /\ countBanned q' 0 = Some 0.
Proof.
  destruct (shift_without_eviction sampleQueueBan11) as (q' & H1 & H2 & H3 & _).
  - vm_compute. reflexivity.
  - intros a st Hst.
    destruct (decide (a = 10%N)) as [->|NE].
    + vm_compute in Hst. injection Hst as <-. reflexivity.
    + unfold sampleQueueBan11 in Hst. simpl in Hst.
      by rewrite lookup_singleton_ne in Hst.
  - exists q'. split; [exact H1|]. split; [exact H2|exact H3].
Defined.

(** ** The invariants of the fee reservations, from propositions *)

Lemma feesOn_elem t l :
  t ∈ l -> (forall t', t' ∈ l -> 0 < getFeeBid t') ->
  getFeeBid t <= feesOn (getFeeSourceID t) l.
Proof.
  induction l as [|x l IH]; intros Hin Hpos; [by inversion Hin|].
  assert (0 <= feesOn (getFeeSourceID t) l)
    by (apply feesOn_nonneg; intros; apply Hpos; by right).
  assert (0 < getFeeBid x) by (apply Hpos; left).
  simpl. apply elem_of_cons in Hin as [->|Hin].
  - rewrite N.eqb_refl. lia.
  - assert (getFeeBid t <= feesOn (getFeeSourceID t) l)
      by (apply IH; [done|]; intros; apply Hpos; by right).
    destruct (_ =? _)%N; lia.
Qed.

Lemma reservedOn_nonneg k (m : gmap N AccountState.t) :
  (forall a st t, m !! a = Some st -> t ∈ AccountState.mTransactions st ->
                  0 < getFeeBid t) ->
  0 <= reservedOn k m.
Proof.
  intros Hpos. apply reservedIn_nonneg. intros [a st] t Hin Ht.
  apply elem_of_map_to_list in Hin. eauto.
Qed.

Lemma reservedOn_covers (m : gmap N AccountState.t) a st t :
  (forall a st t, m !! a = Some st -> t ∈ AccountState.mTransactions st ->
                  0 < getFeeBid t) ->
  m !! a = Some st -> t ∈ AccountState.mTransactions st ->
  getFeeBid t <= reservedOn (getFeeSourceID t) m.
Proof.
  intros Hpos Hst Ht. rewrite (reservedOn_delete _ _ _ _ Hst).
  assert (0 <= reservedOn (getFeeSourceID t) (delete a m)).
  { apply reservedOn_nonneg. intros a' st' t' Hst' Ht'.
    apply lookup_delete_Some in Hst' as [_ Hst']. eauto. }
  assert (getFeeBid t <= feesOn (getFeeSourceID t) (AccountState.mTransactions st))
    by (apply feesOn_elem; eauto).
  lia.
Qed.

Lemma feesOk_intro q : FeesInvariant (mAccountStates q) -> feesOk q = true.
Proof.
  intros Hinv. unfold feesOk. apply forallb_forall. intros [a st] Hin.
  apply list_elem_of_In, elem_of_map_to_list in Hin.
  unfold entryOk. simpl. rewrite !andb_true_iff. repeat split.
  - apply Z.eqb_eq. rewrite <- (fees_reserved _ Hinv a), Hin. done.
  - apply forallb_forall. intros t Ht. apply list_elem_of_In in Ht.
    pose proof (fees_positive _ Hinv _ _ _ Hin Ht) as Hp.
    apply andb_true_iff. split; [lia|]. apply bool_decide_eq_true.
    pose proof (reservedOn_covers _ _ _ _ (fees_positive _ Hinv) Hin Ht) as Hc.
    rewrite <- (fees_reserved _ Hinv) in Hc.
    destruct (mAccountStates q !! getFeeSourceID t); [eauto|simpl in Hc; lia].
  - apply Z.eqb_eq. by apply (ops_counted _ Hinv a).
  - destruct (AccountState.mTransactions st) eqn:E; [simpl|done].
    destruct (idle_entry _ Hinv _ _ Hin E) as [-> Hne].
    by apply Z.eqb_neq in Hne as ->.
Qed.

(** The fees reserved in a map rebuilt entry by entry. *)
Lemma reservedOn_imap k
    (f : N -> AccountState.t -> option AccountState.t)
    (m : gmap N AccountState.t) :
  reservedOn k (map_imap f m)
  = reservedIn k (omap (fun kv : N * AccountState.t =>
                          (fun st => (kv.1, st)) <$> f kv.1 kv.2)
                       (map_to_list m)).
Proof.
  set (g := fun kv : N * AccountState.t =>
              (fun st => (kv.1, st)) <$> f kv.1 kv.2).
  induction m as [|i x m Hi IH] using map_ind.
  - by rewrite map_imap_empty, map_to_list_empty.
  - assert (Hi' : map_imap f m !! i = None)
      by (by rewrite map_lookup_imap, Hi).
    rewrite (reservedIn_perm k _ _
               (omap_Permutation g _ _ (map_to_list_insert m i x Hi))).
    change (omap g ((i, x) :: map_to_list m))
      with (match g (i, x) with
            | Some y => y :: omap g (map_to_list m)
            | None => omap g (map_to_list m)
            end).
    unfold g at 1. simpl. destruct (f i x) as [y|] eqn:Hf; simpl.
    + rewrite (map_imap_insert_Some _ _ _ _ _ Hf). unfold reservedOn.
      rewrite (reservedIn_perm k _ _
                 (map_to_list_insert (map_imap f m) i y Hi')).
      simpl. by rewrite <- IH.
    + by rewrite (map_imap_insert_None _ _ _ _ Hf), (delete_id _ _ Hi').
Qed.

(** ** [shift] keeps the invariants *)

(** What is left of the queue of an entry that [shift] keeps. *)
Lemma shiftedEntry_kept q V k st st' :
  k ∈ V.*1 ->
  shiftedEntry q V k st = Some st' ->
  AccountState.mTransactions st'
  = (if agesOut q st then [] else AccountState.mTransactions st)
  /\ AccountState.mQueueSizeOps st'
     = (if agesOut q st then 0 else AccountState.mQueueSizeOps st)
  /\ AccountState.mAge st'
     = (if agesOut q st then 0 else AccountState.mAge (aged st)).
Proof.
  intros Hin. unfold shiftedEntry. rewrite bool_decide_eq_true_2 by done.
  unfold releasedEntry.
  destruct (agesOut q st); destruct (_ && _); try done;
    intros [= <-]; simpl; try done.
  unfold aged. by destruct (isEmpty _).
Qed.

Lemma reservedIn_shifted q (V : list (N * AccountState.t)) k
    (l : list (N * AccountState.t)) :
  (forall kv, kv ∈ l -> kv.1 ∈ V.*1) ->
  reservedIn k (omap (fun kv : N * AccountState.t =>
                        (fun st => (kv.1, st)) <$> shiftedEntry q V kv.1 kv.2)
                     l)
  + feesOn k (evictedOf q l)
  = reservedIn k l.
Proof.
  set (g := fun kv : N * AccountState.t =>
              (fun st => (kv.1, st)) <$> shiftedEntry q V kv.1 kv.2).
  induction l as [|[a st] l IH]; intros Hin; [done|].
  assert (IH' : reservedIn k (omap g l) + feesOn k (evictedOf q l)
                = reservedIn k l)
    by (apply IH; intros; apply Hin; by right).
  assert (Ha : a ∈ V.*1) by (apply (Hin (a, st)); left).
  change (omap g ((a, st) :: l))
    with (match g (a, st) with
          | Some y => y :: omap g l
          | None => omap g l
          end).
  change (evictedOf q ((a, st) :: l))
    with ((if agesOut q st then AccountState.mTransactions st else [])
          ++ evictedOf q l).
  rewrite feesOn_app. unfold g at 1. simpl.
  destruct (shiftedEntry q V a st) as [st'|] eqn:Hs; simpl.
  - destruct (shiftedEntry_kept _ _ _ _ _ Ha Hs) as (-> & _).
    destruct (agesOut q st); simpl; lia.
  - assert (Hempty : agesOut q st = false -> AccountState.mTransactions st = []).
    { intros Hout. unfold shiftedEntry in Hs.
      rewrite bool_decide_eq_true_2, Hout in Hs by done.
      unfold releasedEntry, aged in Hs.
      destruct (AccountState.mTransactions st) eqn:E; [done|].
      simpl in Hs. by rewrite E in Hs. }
    destruct (agesOut q st) eqn:Hout; simpl.
    + lia.
    + rewrite Hempty by done. simpl. lia.
Qed.

Lemma shifted_reserved q k :
  reservedOn k (mAccountStates (shifted q)) + feesOn k (evicted q)
  = reservedOn k (mAccountStates q).
Proof.
  unfold shifted, shiftedTo, evicted. simpl. rewrite reservedOn_imap.
  apply reservedIn_shifted. intros [a st] Hin. simpl.
  apply list_elem_of_fmap. by exists (a, st).
Qed.

Lemma shifted_invariant q :
  FeesInvariant (mAccountStates q) -> FeesInvariant (mAccountStates (shifted q)).
Proof.
  intros Hinv.
  assert (Hentry : forall a st', mAccountStates (shifted q) !! a = Some st' ->
            exists st, mAccountStates q !! a = Some st
              /\ shiftedEntry q (map_to_list (mAccountStates q)) a st = Some st'
              /\ a ∈ (map_to_list (mAccountStates q)).*1).
  { intros a st' Hst'. unfold shifted in Hst'. rewrite shiftedTo_lookup in Hst'.
    destruct (mAccountStates q !! a) as [st|] eqn:Hst; [|done].
    exists st. split; [done|]. split; [done|]. by eapply visited_all. }
  split.
  - intros k. pose proof (shifted_reserved q k) as Hres.
    pose proof (fees_reserved _ Hinv k) as Hold.
    assert (Hev : 0 <= feesOn k (evicted q) <= reservedOn k (mAccountStates q)).
    { apply feesOn_evictedOf_le. intros [a st] t Hin Ht.
      apply elem_of_map_to_list in Hin. by eapply fees_positive. }
    unfold shifted at 1. rewrite shiftedTo_lookup.
    destruct (mAccountStates q !! k) as [st|] eqn:Hst; simpl in *.
    + rewrite shiftedEntry_fees. fold (evicted q). lia.
    + lia.
  - intros a st' t Hst' Ht.
    destruct (Hentry _ _ Hst') as (st & Hst & Hs & Ha).
    destruct (shiftedEntry_kept _ _ _ _ _ Ha Hs) as (Htxs & _).
    rewrite Htxs in Ht. destruct (agesOut q st); [by inversion Ht|].
    by eapply fees_positive.
  - intros a st' Hst'.
    destruct (Hentry _ _ Hst') as (st & Hst & Hs & Ha).
    destruct (shiftedEntry_kept _ _ _ _ _ Ha Hs) as (-> & -> & _).
    destruct (agesOut q st); [done|]. by eapply ops_counted.
  - intros a st' Hst' Hempty.
    destruct (Hentry _ _ Hst') as (st & Hst & Hs & Ha).
    split; [|by eapply shiftedEntry_idle].
    destruct (shiftedEntry_kept _ _ _ _ _ Ha Hs) as (Htxs & _ & ->).
    rewrite Hempty in Htxs. destruct (agesOut q st); [done|].
    unfold aged. rewrite <- Htxs. simpl.
    by destruct (idle_entry _ Hinv _ _ Hst).
Qed.

Lemma shifted_ready q : shiftReady q = true -> shiftReady (shifted q) = true.
Proof.
  intros Hready.
  destruct (shiftReady_spec _ Hready) as (Hinv & _ & _ & _).
  unfold shiftReady in *. rewrite !andb_true_iff in *.
  destruct Hready as [[[[_ Hd1] Hd2] _] _].
  repeat split; try done.
  - by apply feesOk_intro, shifted_invariant.
  - unfold shifted, shiftedTo, is_uint64. simpl.
    pose proof (to_uint64_range
                  (mQueueSizeOps q - opsOf (evictedOf q (map_to_list (mAccountStates q))))).
    lia.
Qed.

(** Every queue that is not empty has an age from [n] and below
    [mPendingDepth]. *)
Lemma agesOk_spec q :
  agesOk q = true <->
  forall a st, mAccountStates q !! a = Some st ->
               AccountState.mTransactions st <> [] ->
               0 <= AccountState.mAge st < mPendingDepth q.
Proof.
  unfold agesOk. rewrite forallb_forall. split.
  - intros H a st Hst Hne.
    specialize (H (a, st)). simpl in H.
    destruct (AccountState.mTransactions st); [done|]. simpl in H.
    assert (In (a, st) (map_to_list (mAccountStates q)))
      by (by apply list_elem_of_In, elem_of_map_to_list).
    apply H in H0. lia.
  - intros H [a st] Hin. simpl.
    apply list_elem_of_In, elem_of_map_to_list in Hin.
    destruct (AccountState.mTransactions st) eqn:E; [done|]. simpl.
    assert (AccountState.mTransactions st <> []) by (by rewrite E).
    specialize (H a st Hin H0). lia.
Qed.

Lemma shifted_ages q (n : Z) :
  0 < mPendingDepth q < 2 ^ 64 ->
  (forall a st, mAccountStates q !! a = Some st ->
                AccountState.mTransactions st <> [] ->
                n <= AccountState.mAge st < mPendingDepth q) ->
  0 <= n ->
  forall a st', mAccountStates (shifted q) !! a = Some st' ->
                AccountState.mTransactions st' <> [] ->
                n + 1 <= AccountState.mAge st' < mPendingDepth q.
Proof.
  intros Hd Hages Hn a st' Hst' Hne.
  unfold shifted in Hst'. rewrite shiftedTo_lookup in Hst'.
  destruct (mAccountStates q !! a) as [st|] eqn:Hst; [simpl in Hst'|done].
  destruct (shiftedEntry_kept _ _ _ _ _ (visited_all _ _ _ Hst) Hst')
    as (Htxs & _ & Hage).
  destruct (agesOut q st) eqn:Hout; [by rewrite Htxs in Hne|].
  rewrite Htxs in Hne. specialize (Hages _ _ Hst Hne).
  rewrite Hage. unfold aged, agesOut in *.
  destruct (AccountState.mTransactions st); [done|]. simpl in *.
  rewrite to_uint64_small in Hout |- * by lia.
  rewrite to_uint64_small in Hout by lia.
  apply Z.eqb_neq in Hout. lia.
Qed.

Lemma shiftReady_depth q :
  shiftReady q = true -> 0 < mPendingDepth q < 2 ^ 64.
Proof. unfold shiftReady. rewrite !andb_true_iff. lia. Qed.

(** X14: [shift] keeps the invariants of the queue: called in a state in
    which every entry reserves the fee bids of the queued transactions it
    pays for, counts the operations of its queue and has age 0 and fees
    reserved when its queue is empty, it returns a state in which all of
    this holds again; and when the ages of the queues were below
    [mPendingDepth] they still are. *)
Theorem shift_keeps_invariants (q : TransactionQueue) :
  shiftReady q = true ->
  exists q',
    shift q = Some q'
    /\ shiftReady q' = true
    /\ mPendingDepth q' = mPendingDepth q
    /\ (agesOk q = true -> agesOk q' = true).
Proof.
  intros Hready. exists (shifted q).
  split; [by apply shift_closed|]. split; [by apply shifted_ready|].
  split; [done|].
  rewrite !agesOk_spec. intros Hages a st' Hst' Hne.
  pose proof (shiftReady_depth _ Hready) as Hd.
  assert (0 + 1 <= AccountState.mAge st' < mPendingDepth q); [|simpl; lia].
  by apply (shifted_ages q 0 Hd Hages ltac:(lia) a st').
Qed.

Lemma shift_keeps_invariants_witness :
  exists q',
    shift sampleQueueOld = Some q'
    /\ shiftReady q' = true
    /\ mPendingDepth q' = 4.
Proof.
  destruct (shift_keeps_invariants sampleQueueOld) as (q' & H1 & H2 & H3 & _).
  - vm_compute. reflexivity.
  - exists q'. split; [exact H1|]. split; [exact H2|exact H3].
Defined.

Lemma shifts_run mApp (c : nat) : forall (n : Z) q,
  shiftReady q = true -> 0 <= n -> agesFrom n q ->
  exists q',
    runOps (replicate c (mApp, OpShift)) q = Some q'
    /\ shiftReady q' = true
    /\ mPendingDepth q' = mPendingDepth q
    /\ agesFrom (n + Z.of_nat c) q'.
Proof.
  induction c as [|c IH]; intros n q Hready Hn Hages.
  - exists q. split; [done|]. split; [done|]. split; [done|].
    by replace (n + Z.of_nat 0) with n by lia.
  - pose proof (shiftReady_depth _ Hready) as Hd.
    destruct (IH (n + 1) (shifted q)) as (q' & Hrun & Hready' & Hdepth & Hfrom).
    + by apply shifted_ready.
    + lia.
    + intros a st' Hst' Hne. by apply (shifted_ages q n Hd Hages Hn a st').
    + exists q'. split.
      * unfold runOps. cbn [replicate forEach].
        change (runOp q (mApp, OpShift)) with (shift q).
        rewrite (shift_closed _ Hready). exact Hrun.
      * split; [done|]. split; [done|].
        replace (n + Z.of_nat (S c)) with (n + 1 + Z.of_nat c) by lia. done.
Qed.

(** X15: in a state that satisfies the invariants and in which the ages of
    the queues are from 0 and below [mPendingDepth], [mPendingDepth] calls
    of [shift] in a row all return, and they leave no transaction queued
    and no entry in the account states, so that the candidate set is
    empty: no transaction stays in the queue for more than
    [mPendingDepth] shifts. *)
Theorem pending_depth_shifts_empty_the_queue (mApp : Application)
    (q : TransactionQueue) :
  shiftReady q = true -> agesOk q = true ->
  exists q',
    runOps (replicate (Z.to_nat (mPendingDepth q)) (mApp, OpShift)) q = Some q'
    /\ mAccountStates q' = ∅
    /\ (forall getStartingSequenceNumber ledgerSeq,
          toTxSet getStartingSequenceNumber q' ledgerSeq = []).
Proof.
  intros Hready Hages. pose proof (shiftReady_depth _ Hready) as Hd.
  pose proof (proj1 (agesOk_spec q) Hages) as Hfrom0.
  destruct (shifts_run mApp (Z.to_nat (mPendingDepth q)) 0 q Hready
              ltac:(lia) Hfrom0) as (q' & Hrun & Hready' & Hdepth & Hfrom).
  exists q'. split; [done|].
  destruct (shiftReady_spec _ Hready') as (Hinv & _).
  assert (Hempty : forall a st, mAccountStates q' !! a = Some st ->
                                AccountState.mTransactions st = []).
  { intros a st Hst.
    destruct (AccountState.mTransactions st) as [|t l] eqn:E; [done|].
    assert (Hne : AccountState.mTransactions st <> []) by (by rewrite E).
    specialize (Hfrom a st Hst Hne). lia. }
  assert (Hnone : mAccountStates q' = ∅).
  { apply map_eq. intros a. rewrite lookup_empty.
    destruct (mAccountStates q' !! a) as [st|] eqn:Hst; [|done].
    exfalso. destruct (idle_entry _ Hinv a st Hst (Hempty _ _ Hst)) as [_ Hne].
    apply Hne. pose proof (fees_reserved _ Hinv a) as Hres.
    rewrite Hst in Hres. simpl in Hres. rewrite Hres.
    apply reservedIn_other. intros [a' st'] t Hin Ht.
    apply elem_of_map_to_list in Hin. simpl in Ht.
    rewrite (Hempty _ _ Hin) in Ht. by inversion Ht. }
  split; [done|]. intros g ledgerSeq. unfold toTxSet.
  by rewrite Hnone, map_to_list_empty.
Qed.

Lemma pending_depth_shifts_empty_the_queue_witness :
  exists q',
    runOps (replicate 4 (sampleApp, OpShift)) sampleQueue = Some q'
    /\ mAccountStates q' = ∅.
Proof.
  destruct (pending_depth_shifts_empty_the_queue sampleApp sampleQueue)
    as (q' & H1 & H2 & _).
  - vm_compute. reflexivity.
  - vm_compute. reflexivity.
  - exists q'. split; [exact H1|exact H2].
Defined.

(** ** The fees reserved in a map depend on its queues only *)

Lemma reservedIn_norm k (l : list (N * AccountState.t)) :
  reservedIn k
    (omap (fun kv : N * AccountState.t =>
             (fun st => (kv.1, st))
             <$> (if isEmpty (AccountState.mTransactions kv.2) then None
                  else Some (AccountState.mk 0 0 0
                               (AccountState.mTransactions kv.2))))
          l)
  = reservedIn k l.
Proof.
  induction l as [|[a st] l IH]; [done|].
  change (reservedIn k ((a, st) :: l))
    with (feesOn k (AccountState.mTransactions st) + reservedIn k l).
  rewrite <- IH. clear IH. cbn [omap list_omap]. simpl.
  destruct (AccountState.mTransactions st); simpl; done.
Qed.

Lemma reservedOn_ext k (m1 m2 : gmap N AccountState.t) :
  (forall a, entryTxs (m1 !! a) = entryTxs (m2 !! a)) ->
  reservedOn k m1 = reservedOn k m2.
Proof.
  intros Hext.
  set (f := fun (_ : N) (st : AccountState.t) =>
              if isEmpty (AccountState.mTransactions st) then None
              else Some (AccountState.mk 0 0 0 (AccountState.mTransactions st))).
  assert (Hnorm : forall m, reservedOn k (map_imap f m) = reservedOn k m).
  { intros m. rewrite reservedOn_imap. apply reservedIn_norm. }
  rewrite <- (Hnorm m1), <- (Hnorm m2). f_equal. apply map_eq. intros a.
  rewrite !map_lookup_imap. specialize (Hext a). unfold f.
  destruct (m1 !! a) as [s1|], (m2 !! a) as [s2|]; simpl in *; try done.
  - by rewrite Hext.
  - by rewrite Hext.
  - by rewrite <- Hext.
Qed.

Lemma reservedOn_insert k a st' (m : gmap N AccountState.t) :
  reservedOn k (<[a := st']> m)
  = reservedOn k m - feesOn k (entryTxs (m !! a))
    + feesOn k (AccountState.mTransactions st').
Proof.
  rewrite (reservedOn_delete k (<[a := st']> m) a st')
    by apply lookup_insert_eq.
  rewrite delete_insert_eq.
  destruct (m !! a) as [st|] eqn:Hst; simpl.
  - rewrite (reservedOn_delete k m a st Hst). lia.
  - rewrite (delete_id _ _ Hst). lia.
Qed.

Lemma feesOn_insert k l (i : nat) old tx :
  l !! i = Some old ->
  feesOn k (<[i := tx]> l)
  = feesOn k l
    - (if (getFeeSourceID old =? k)%N then getFeeBid old else 0)
    + (if (getFeeSourceID tx =? k)%N then getFeeBid tx else 0).
Proof.
  revert i. induction l as [|x l IH]; intros i Hi; [done|].
  destruct i as [|i]; simpl in *.
  - injection Hi as ->. lia.
  - rewrite (IH _ Hi). lia.
Qed.

Lemma opsOf_insert l (i : nat) old tx :
  l !! i = Some old ->
  opsOf (<[i := tx]> l)
  = opsOf l - getNumOperations old + getNumOperations tx.
Proof.
  revert i. induction l as [|x l IH]; intros i Hi; [done|].
  destruct i as [|i]; simpl in *.
  - injection Hi as ->. lia.
  - rewrite (IH _ Hi). lia.
Qed.

(** The invariants after the queue of one account has been replaced and
    the fees reserved adjusted for it. *)
Lemma invariant_after_update (m m' : gmap N AccountState.t) a sa' :
  FeesInvariant m ->
  m' !! a = Some sa' ->
  (forall k, k <> a -> entryTxs (m' !! k) = entryTxs (m !! k)) ->
  (forall k st', k <> a -> m' !! k = Some st' ->
     AccountState.mQueueSizeOps st'
     = AccountState.mQueueSizeOps (default AccountState.init (m !! k))
     /\ AccountState.mAge st'
        = AccountState.mAge (default AccountState.init (m !! k))) ->
  (forall k, feesOfEntry (m' !! k)
             = feesOfEntry (m !! k) - feesOn k (entryTxs (m !! a))
               + feesOn k (AccountState.mTransactions sa')) ->
  (forall t, t ∈ AccountState.mTransactions sa' -> 0 < getFeeBid t) ->
  AccountState.mQueueSizeOps sa' = opsOf (AccountState.mTransactions sa') ->
  AccountState.mTransactions sa' <> [] ->
  (forall k st', m' !! k = Some st' -> AccountState.mTransactions st' = [] ->
                 AccountState.mTotalFees st' <> 0) ->
  FeesInvariant m'.
Proof.
  intros Hinv Ha Htxs Hrest Hfees Hpos Hops Hne Hidle.
  assert (Hold : forall k st', k <> a -> m' !! k = Some st' ->
            AccountState.mTransactions st' <> [] ->
            exists st, m !! k = Some st
              /\ AccountState.mTransactions st = AccountState.mTransactions st').
  { intros k st' NE Hst' Hne'. specialize (Htxs k NE). rewrite Hst' in Htxs.
    simpl in Htxs. destruct (m !! k) as [st|]; [eauto|done]. }
  split.
  - intros k. rewrite Hfees, (fees_reserved _ Hinv k).
    rewrite <- reservedOn_insert. symmetry. apply reservedOn_ext.
    intros k0. destruct (decide (k0 = a)) as [->|NE].
    + by rewrite Ha, lookup_insert_eq.
    + rewrite lookup_insert_ne by done. by apply Htxs.
  - intros k st' t Hst' Ht. destruct (decide (k = a)) as [->|NE].
    + rewrite Ha in Hst'. injection Hst' as <-. by apply Hpos.
    + destruct (Hold k st' NE Hst') as (st & Hst & E).
      { intros E. rewrite E in Ht. by inversion Ht. }
      rewrite <- E in Ht. by eapply fees_positive.
  - intros k st' Hst'. destruct (decide (k = a)) as [->|NE].
    + rewrite Ha in Hst'. by injection Hst' as <-.
    + destruct (Hrest k st' NE Hst') as [-> _].
      specialize (Htxs k NE). rewrite Hst' in Htxs. simpl in Htxs.
      rewrite Htxs. destruct (m !! k) as [st|] eqn:Hst; simpl; [|done].
      by eapply ops_counted.
  - intros k st' Hst' Hempty. split; [|by eapply Hidle].
    destruct (decide (k = a)) as [->|NE].
    + rewrite Ha in Hst'. by injection Hst' as <-.
    + destruct (Hrest k st' NE Hst') as [_ ->].
      specialize (Htxs k NE). rewrite Hst' in Htxs. simpl in Htxs.
      rewrite Hempty in Htxs.
      destruct (m !! k) as [st|] eqn:Hst; simpl in *; [|done].
      by destruct (idle_entry _ Hinv k st Hst).
Qed.

(** ** The mutation of [tryAdd], entry by entry *)

(** The last three statements of [tryAdd]: the operation counters and the
    fee of the new transaction. *)
Lemma commit_tail (m3 : gmap N AccountState.t) (tx : TransactionFrameBase)
    (st3 : AccountState.t) :
  m3 !! getSourceID tx = Some st3 ->
  let st5 := withQueueSizeOps st3
               (to_uint64 (AccountState.mQueueSizeOps st3
                           + getNumOperations tx)) in
  let m4 := <[getSourceID tx := st5]> m3 in
  let fst := default AccountState.init (m4 !! getFeeSourceID tx) in
  let mf := <[getFeeSourceID tx :=
                withTotalFees fst (AccountState.mTotalFees fst + getFeeBid tx)]>
              m4 in
  (exists sa', mf !! getSourceID tx = Some sa'
     /\ AccountState.mTransactions sa' = AccountState.mTransactions st3
     /\ AccountState.mQueueSizeOps sa'
        = to_uint64 (AccountState.mQueueSizeOps st3 + getNumOperations tx)
     /\ AccountState.mAge sa' = AccountState.mAge st3)
  /\ (forall k, k <> getSourceID tx -> entryTxs (mf !! k) = entryTxs (m3 !! k))
  /\ (forall k st', k <> getSourceID tx -> mf !! k = Some st' ->
        AccountState.mQueueSizeOps st'
        = AccountState.mQueueSizeOps (default AccountState.init (m3 !! k))
        /\ AccountState.mAge st'
           = AccountState.mAge (default AccountState.init (m3 !! k)))
  /\ (forall k, feesOfEntry (mf !! k)
                = feesOfEntry (m3 !! k)
                  + (if (getFeeSourceID tx =? k)%N then getFeeBid tx else 0))
  /\ (forall k, k <> getSourceID tx -> k <> getFeeSourceID tx ->
                mf !! k = m3 !! k).
Proof.
  intros H3 st5 m4 fst mf.
  assert (H4 : forall k, m4 !! k = if decide (k = getSourceID tx)
                                   then Some st5 else m3 !! k).
  { intros k. unfold m4. destruct (decide _) as [->|NE].
    - apply lookup_insert_eq.
    - by apply lookup_insert_ne. }
  assert (Hf : forall k, mf !! k
                = if decide (k = getFeeSourceID tx)
                  then Some (withTotalFees fst
                               (AccountState.mTotalFees fst + getFeeBid tx))
                  else m4 !! k).
  { intros k. unfold mf. destruct (decide _) as [->|NE].
    - apply lookup_insert_eq.
    - by apply lookup_insert_ne. }
  split; [|split; [|split; [|split]]].
  - rewrite Hf. destruct (decide _) as [E|NE].
    + eexists. split; [done|]. unfold fst. rewrite <- E, H4, decide_True by done.
      done.
    + rewrite H4, decide_True by done. by eexists.
  - intros k NE. rewrite Hf. destruct (decide _) as [->|NEf].
    + unfold fst. rewrite H4, decide_False by done. simpl.
      by destruct (m3 !! getFeeSourceID tx).
    + by rewrite H4, decide_False.
  - intros k st' NE. rewrite Hf. destruct (decide _) as [->|NEf].
    + intros [= <-]. unfold fst. by rewrite H4, decide_False.
    + rewrite H4, decide_False by done. by intros ->.
  - intros k. rewrite Hf. destruct (decide _) as [->|NEf].
    + rewrite N.eqb_refl. simpl. unfold fst. rewrite H4.
      destruct (decide _) as [E|NE].
      * rewrite <- E in H3. by rewrite H3.
      * by destruct (m3 !! getFeeSourceID tx).
    + replace (getFeeSourceID tx =? k)%N with false
        by (symmetry; apply N.eqb_neq; congruence).
      rewrite H4. destruct (decide _) as [->|NE]; [rewrite H3|]; simpl; lia.
  - intros k NE NEf. by rewrite Hf, decide_False, H4, decide_False.
Qed.

Lemma tryAddCommit_entries q tx st (slot : nat) q' :
  mAccountStates q !! getSourceID tx = Some st ->
  (forall k s, k <> getSourceID tx -> mAccountStates q !! k = Some s ->
               AccountState.mTransactions s = [] ->
               AccountState.mQueueSizeOps s = 0 /\ AccountState.mAge s = 0) ->
  tryAddCommit q tx true slot = Some q' ->
  let txs0 := AccountState.mTransactions st in
  let newTxs := if (slot <? length txs0)%nat
                then <[slot := tx]> txs0 else txs0 ++ [tx] in
  (exists sa', mAccountStates q' !! getSourceID tx = Some sa'
     /\ AccountState.mTransactions sa' = newTxs
     /\ AccountState.mQueueSizeOps sa'
        = to_uint64 (AccountState.mQueueSizeOps st - opsOf txs0 + opsOf newTxs)
     /\ AccountState.mAge sa' = AccountState.mAge st)
  /\ (forall k, k <> getSourceID tx ->
        entryTxs (mAccountStates q' !! k) = entryTxs (mAccountStates q !! k))
  /\ (forall k st', k <> getSourceID tx -> mAccountStates q' !! k = Some st' ->
        AccountState.mQueueSizeOps st'
        = AccountState.mQueueSizeOps
            (default AccountState.init (mAccountStates q !! k))
        /\ AccountState.mAge st'
           = AccountState.mAge
               (default AccountState.init (mAccountStates q !! k)))
  /\ (forall k, feesOfEntry (mAccountStates q' !! k)
                = feesOfEntry (mAccountStates q !! k) - feesOn k txs0
                  + feesOn k newTxs)
  /\ (forall k st', k <> getSourceID tx -> k <> getFeeSourceID tx ->
        mAccountStates q' !! k = Some st' ->
        AccountState.mTransactions st' = [] ->
        AccountState.mTotalFees st' <> 0 \/ mAccountStates q !! k = Some st')
  /\ mQueueSizeOps q'
     = to_uint64 (mQueueSizeOps q - opsOf txs0 + opsOf newTxs)
  /\ mBannedTransactions q' = mBannedTransactions q
  /\ mPendingDepth q' = mPendingDepth q
  /\ mLedgerVersion q' = mLedgerVersion q
  /\ mPoolLedgerMultiplier q' = mPoolLedgerMultiplier q.
Proof.
  intros Hst Hzero Hcommit txs0 newTxs.
  unfold tryAddCommit in Hcommit. rewrite Hst in Hcommit. simpl in Hcommit.
  fold txs0 in Hcommit.
  destruct (slot <? length txs0)%nat eqn:Hslot.
  - (* replacement *)
    apply Nat.ltb_lt in Hslot.
    destruct (lookup_lt_is_Some_2 txs0 slot Hslot) as [oldTx Hold].
    rewrite Hold in Hcommit. simpl in Hcommit.
    apply bind_Some in Hcommit as (q3 & H3 & Hcommit).
    apply bind_Some in H3 as (q1 & Hrel & H3).
    apply bind_Some in H3 as (st1 & Hst1 & H3).
    apply releaseFee_inv in Hrel
      as (stf & Hstf & Hle & Hq1 & Hring & Hops & Hd & Hv & Hp).
    assert (Hsame : AccountState.mTransactions st1 = txs0
                    /\ AccountState.mQueueSizeOps st1
                       = AccountState.mQueueSizeOps st
                    /\ AccountState.mAge st1 = AccountState.mAge st).
    { rewrite Hq1 in Hst1. destruct (decide _) as [E|NE].
      - rewrite <- E, Hst in Hstf. injection Hstf as <-.
        unfold releasedEntry in Hst1. destruct (_ && _); [done|].
        by injection Hst1 as <-.
      - rewrite Hst in Hst1. by injection Hst1 as <-. }
    destruct Hsame as (Htxs1 & Hops1 & Hage1).
    assert (Hfees1 : forall k,
              feesOfEntry (mAccountStates q1 !! k)
              = feesOfEntry (mAccountStates q !! k)
                - (if (getFeeSourceID oldTx =? k)%N
                   then getFeeBid oldTx else 0)).
    { intros k. rewrite Hq1. destruct (decide _) as [->|NE].
      - by rewrite N.eqb_refl, feesOfEntry_released, Hstf.
      - replace (getFeeSourceID oldTx =? k)%N with false
          by (symmetry; apply N.eqb_neq; congruence). lia. }
    assert (Htxsq1 : forall k, entryTxs (mAccountStates q1 !! k)
                               = entryTxs (mAccountStates q !! k)).
    { intros k. rewrite Hq1. destruct (decide _) as [->|NE]; [|done].
      rewrite Hstf. unfold releasedEntry. simpl.
      destruct (AccountState.mTransactions stf) eqn:E; simpl;
        [destruct (_ =? _); simpl; by rewrite ?E|by rewrite E]. }
    injection H3 as <-. simpl in Hcommit.
    rewrite lookup_insert_eq in Hcommit. simpl in Hcommit.
    injection Hcommit as <-. simpl.
    set (st3 := withTransactions
                  (withQueueSizeOps st1
                     (to_uint64 (AccountState.mQueueSizeOps st1
                                 - getNumOperations oldTx)))
                  (<[slot := tx]> (AccountState.mTransactions st1))).
    set (m3 := <[getSourceID tx := st3]> (mAccountStates q1)).
    assert (H3 : m3 !! getSourceID tx = Some st3) by apply lookup_insert_eq.
    destruct (commit_tail m3 tx st3 H3) as (T1 & T2 & T3 & T4 & T5).
    assert (Hm3 : forall k, k <> getSourceID tx ->
                            m3 !! k = mAccountStates q1 !! k)
      by (intros k NE; by apply lookup_insert_ne).
    unfold newTxs. replace (slot <? length txs0)%nat with true
      by (symmetry; by apply Nat.ltb_lt).
    split; [|split; [|split; [|split; [|split; [|split]]]]].
    + destruct T1 as (sa' & Hsa & E1 & E2 & E3). exists sa'.
      split; [exact Hsa|]. rewrite E1, E2, E3. unfold st3. simpl.
      rewrite Htxs1, Hops1, Hage1, (opsOf_insert _ _ _ _ Hold).
      repeat split. unfold to_uint64. rewrite Zplus_mod_idemp_l.
      f_equal. lia.
    + intros k NE. etrans; [exact (T2 k NE)|]. by rewrite Hm3.
    + intros k st' NE Hst'. destruct (T3 k st' NE Hst') as [-> ->].
      rewrite Hm3, Hq1 by done. destruct (decide _) as [->|NEo]; [|done].
      rewrite Hstf. unfold releasedEntry. simpl.
      destruct (isEmpty _ && _) eqn:E; simpl; [|done].
      apply andb_true_iff in E as [E _].
      assert (AccountState.mTransactions stf = [])
        by (by destruct (AccountState.mTransactions stf)).
      by destruct (Hzero _ _ NE Hstf H) as [-> ->].
    + intros k. rewrite T4, (feesOn_insert _ _ _ _ _ Hold).
      destruct (decide (k = getSourceID tx)) as [->|NE].
      * rewrite H3. unfold st3. simpl.
        pose proof (Hfees1 (getSourceID tx)) as Hf. rewrite Hst1 in Hf.
        simpl in Hf. lia.
      * rewrite Hm3 by done. rewrite Hfees1. lia.
    + intros k st' NE NEf Hst' Hempty. rewrite T5, Hm3, Hq1 in Hst' by done.
      destruct (decide _); [|by right]. left.
      by eapply releasedEntry_idle.
    + rewrite Hops, (opsOf_insert _ _ _ _ Hold). unfold to_uint64.
      rewrite Zplus_mod_idemp_l. f_equal. lia.
    + done.
  - (* append *)
    simpl in Hcommit. rewrite lookup_insert_eq in Hcommit. simpl in Hcommit.
    injection Hcommit as <-. simpl. rewrite insert_insert_eq.
    set (st3 := withTransactions st (txs0 ++ [tx])).
    set (m3 := <[getSourceID tx := st3]> (mAccountStates q)).
    assert (H3 : m3 !! getSourceID tx = Some st3) by apply lookup_insert_eq.
    destruct (commit_tail m3 tx st3 H3) as (T1 & T2 & T3 & T4 & T5).
    assert (Hm3 : forall k, k <> getSourceID tx ->
                            m3 !! k = mAccountStates q !! k)
      by (intros k NE; by apply lookup_insert_ne).
    unfold m3 in T1, T2, T3, T4, T5. rewrite insert_insert_eq in T1, T2, T3, T4, T5.
    fold m3 in T1, T2, T3, T4, T5.
    unfold newTxs. rewrite opsOf_app. simpl opsOf.
    split; [|split; [|split; [|split; [|split; [|split]]]]].
    + destruct T1 as (sa' & Hsa & E1 & E2 & E3). exists sa'.
      split; [exact Hsa|]. rewrite E1, E2, E3. unfold st3. simpl.
      repeat split. f_equal. lia.
    + intros k NE. etrans; [exact (T2 k NE)|]. by rewrite Hm3.
    + intros k st' NE Hst'. destruct (T3 k st' NE Hst') as [-> ->].
      by rewrite Hm3.
    + intros k. rewrite T4, feesOn_app. simpl feesOn.
      destruct (decide (k = getSourceID tx)) as [->|NE].
      * rewrite H3, Hst. unfold st3. simpl. lia.
      * rewrite Hm3 by done. lia.
    + intros k st' NE NEf Hst' Hempty. rewrite T5, Hm3 in Hst' by done.
      by right.
    + f_equal. lia.
    + done.
Qed.

(** ** [tryAdd] keeps the invariants *)

Lemma elem_of_insert_or {A} (l : list A) (i : nat) (x y : A) :
  y ∈ <[i := x]> l -> y = x \/ y ∈ l.
Proof.
  intros [j Hj]%list_elem_of_lookup.
  apply list_lookup_insert_Some in Hj as [(-> & -> & _)|[_ Hj]]; [by left|].
  right. by eapply list_elem_of_lookup_2.
Qed.

Lemma reservedOn_entry_le (m : gmap N AccountState.t) k a :
  (forall a st t, m !! a = Some st -> t ∈ AccountState.mTransactions st ->
                  0 < getFeeBid t) ->
  feesOn k (entryTxs (m !! a)) <= reservedOn k m.
Proof.
  intros Hpos. destruct (m !! a) as [st|] eqn:Hst; simpl.
  - rewrite (reservedOn_delete _ _ _ _ Hst).
    assert (0 <= reservedOn k (delete a m)); [|lia].
    apply reservedOn_nonneg. intros a' st' t' Hst' Ht'.
    apply lookup_delete_Some in Hst' as [_ Hst']. eauto.
  - by apply reservedOn_nonneg.
Qed.

Lemma commit_keeps_invariant q tx (slot : nat) q' :
  FeesInvariant (mAccountStates q) ->
  0 < getFeeBid tx ->
  tryAddCommit q tx
    (match mAccountStates q !! getSourceID tx with
     | Some _ => true
     | None => false
     end) slot = Some q' ->
  is_uint64 (opsOf (sourceQueue q' tx)) = true ->
  FeesInvariant (mAccountStates q').
Proof.
  intros Hinv Hfee Hcommit Hwrap.
  set (st := default AccountState.init (mAccountStates q !! getSourceID tx)).
  set (q0 := match mAccountStates q !! getSourceID tx with
             | Some _ => q
             | None => setAccountStates q
                         (<[getSourceID tx := AccountState.init]>
                            (mAccountStates q))
             end).
  set (slot0 := match mAccountStates q !! getSourceID tx with
                | Some _ => slot
                | None => 0%nat
                end).
  assert (Hcommit0 : tryAddCommit q0 tx true slot0 = Some q').
  { unfold q0, slot0.
    destruct (mAccountStates q !! getSourceID tx); exact Hcommit. }
  assert (Hst0 : mAccountStates q0 !! getSourceID tx = Some st).
  { unfold q0, st. destruct (mAccountStates q !! getSourceID tx) eqn:E;
      [done|]. simpl. apply lookup_insert_eq. }
  assert (Hq0 : forall k, k <> getSourceID tx ->
                          mAccountStates q0 !! k = mAccountStates q !! k).
  { intros k NE. unfold q0.
    destruct (mAccountStates q !! getSourceID tx); [done|].
    simpl. by apply lookup_insert_ne. }
  assert (Htxs0 : entryTxs (mAccountStates q !! getSourceID tx)
                  = AccountState.mTransactions st).
  { unfold st. by destruct (mAccountStates q !! getSourceID tx). }
  assert (Hfees0 : forall k, feesOfEntry (mAccountStates q0 !! k)
                             = feesOfEntry (mAccountStates q !! k)).
  { intros k. destruct (decide (k = getSourceID tx)) as [->|NE];
      [|by rewrite Hq0].
    rewrite Hst0. unfold st.
    by destruct (mAccountStates q !! getSourceID tx). }
  assert (Hops0 : AccountState.mQueueSizeOps st
                  = opsOf (AccountState.mTransactions st)).
  { unfold st. destruct (mAccountStates q !! getSourceID tx) eqn:E; [|done].
    by eapply ops_counted. }
  assert (Hpos0 : forall t, t ∈ AccountState.mTransactions st ->
                            0 < getFeeBid t).
  { unfold st. destruct (mAccountStates q !! getSourceID tx) as [s0|] eqn:E;
      simpl.
    - intros t Ht. by eapply fees_positive.
    - intros t Ht. by inversion Ht. }
  destruct (tryAddCommit_entries q0 tx st slot0 q' Hst0) as
    (E1 & E2 & E3 & E4 & E5 & _); [|exact Hcommit0|].
  { intros k s NE Hs Hempty. rewrite Hq0 in Hs by done. split.
    - rewrite (ops_counted _ Hinv _ _ Hs), Hempty. done.
    - by destruct (idle_entry _ Hinv _ _ Hs Hempty). }
  destruct E1 as (sa' & Hsa & Etxs & Eops & Eage).
  set (newTxs := if (slot0 <? length (AccountState.mTransactions st))%nat
                 then <[slot0 := tx]> (AccountState.mTransactions st)
                 else AccountState.mTransactions st ++ [tx]) in *.
  assert (Hnew : forall t, t ∈ newTxs -> 0 < getFeeBid t).
  { intros t Ht. unfold newTxs in Ht. destruct (_ <? _)%nat.
    - apply elem_of_insert_or in Ht as [->|Ht]; [done|by apply Hpos0].
    - apply elem_of_app in Ht as [Ht|Ht]; [by apply Hpos0|].
      by apply list_elem_of_singleton in Ht as ->. }
  assert (Hin : tx ∈ newTxs).
  { unfold newTxs. destruct (_ <? _)%nat eqn:Hs.
    - apply list_elem_of_lookup. exists slot0.
      apply list_lookup_insert_eq. by apply Nat.ltb_lt.
    - apply elem_of_app. right. by left. }
  apply (invariant_after_update (mAccountStates q) (mAccountStates q')
           (getSourceID tx) sa' Hinv Hsa).
  - intros k NE. rewrite (E2 k NE). by rewrite Hq0.
  - intros k st' NE Hst'. destruct (E3 k st' NE Hst') as [-> ->].
    by rewrite Hq0.
  - intros k. by rewrite E4, Hfees0, Htxs0, Etxs.
  - by rewrite Etxs.
  - rewrite Eops, Etxs, Hops0.
    replace (opsOf (AccountState.mTransactions st)
             - opsOf (AccountState.mTransactions st) + opsOf newTxs)
      with (opsOf newTxs) by lia.
    apply to_uint64_small. unfold sourceQueue in Hwrap.
    rewrite Hsa, Etxs in Hwrap. unfold is_uint64 in Hwrap. lia.
  - rewrite Etxs. intros E. rewrite E in Hin. by inversion Hin.
  - intros k st' Hst' Hempty.
    destruct (decide (k = getSourceID tx)) as [->|NE].
    { rewrite Hsa in Hst'. injection Hst' as <-. rewrite Etxs in Hempty.
      rewrite Hempty in Hin. by inversion Hin. }
    destruct (decide (k = getFeeSourceID tx)) as [->|NEf].
    + pose proof (E4 (getFeeSourceID tx)) as Hf. rewrite Hst' in Hf.
      simpl in Hf. rewrite Hfees0, (fees_reserved _ Hinv) in Hf.
      pose proof (reservedOn_entry_le (mAccountStates q) (getFeeSourceID tx)
                    (getSourceID tx) (fees_positive _ Hinv)) as Hle.
      rewrite Htxs0 in Hle.
      pose proof (feesOn_elem tx newTxs Hin Hnew). lia.
    + destruct (E5 k st' NE NEf Hst' Hempty) as [|Hsame]; [done|].
      rewrite Hq0 in Hsame by done.
      by destruct (idle_entry _ Hinv _ _ Hsame Hempty).
Qed.

(** X16: [tryAdd] keeps the invariants of the fee reservations. In a
    state in which every entry reserves the fee bids of the queued
    transactions it pays for, counts the operations of its queue and has
    age 0 and fees reserved when its queue is empty, and for a
    transaction with a positive fee bid (full hashes being digests of the
    envelope), whatever [tryAdd] answers, all of this holds again
    afterwards, provided the operations of the queue of the source
    account still fit in [size_t]. *)
Theorem tryAdd_keeps_invariants (mApp : Application)
    (q q' : TransactionQueue) (tx : TransactionFrameBase) (res : AddResult)
    (code : option TransactionResultCode) :
  feesOk q = true ->
  0 < getFeeBid tx ->
  (forall t, t ∈ sourceQueue q tx -> getFullHash t = getFullHash tx ->
             getEnvelopeType t = getEnvelopeType tx) ->
  tryAdd mApp q tx = Some (q', res, code) ->
  is_uint64 (opsOf (sourceQueue q' tx)) = true ->
  feesOk q' = true.
Proof.
  intros Hok Hfee Hdigest Hadd Hwrap.
  pose proof (feesOk_spec _ Hok) as Hinv.
  unfold tryAdd, canAdd in Hadd.
  destruct (isBanned q (getFullHash tx)) eqn:Hban.
  { simpl in Hadd. by injection Hadd as <- <- <-. }
  apply bind_Some in Hadd as (ca & Hca & Hadd).
  apply bind_Some in Hca as (located & Hloc & Hca).
  destruct located as [[r c]|loc].
  { injection Hca as <-. simpl in Hadd.
    pose proof (canAddLocate_early _ _ _ _ Hloc) as Hr.
    destruct r; simpl in Hadd; try done; by injection Hadd as <- <- <-. }
  destruct (_ <? _).
  { apply bind_Some in Hca as (q1 & Hb & Hca). injection Hca as <-.
    simpl in Hadd. injection Hadd as <- <- <-.
    destruct (mBannedTransactions q) as [|bannedFront rest] eqn:Hring.
    { unfold ban in Hb. by rewrite Hring in Hb. }
    destruct (canAddLocate_slot_differs _ _ _ Hloc Hdigest) as [Hfind Hhash].
    rewrite (ban_unqueued q tx bannedFront rest Hring Hfind Hhash) in Hb.
    by injection Hb as <-. }
  destruct (negb _).
  { injection Hca as <-. simpl in Hadd. by injection Hadd as <- <- <-. }
  destruct (_ <? _); injection Hca as <-; simpl in Hadd.
  { by injection Hadd as <- <- <-. }
  apply bind_Some in Hadd as (q1 & Hcommit & Hadd).
  injection Hadd as <- <- <-.
  destruct (canAddLocate_nets _ _ _ Hloc) as (_ & _ & Hfound).
  rewrite Hfound in Hcommit.
  apply feesOk_intro. by eapply commit_keeps_invariant.
Qed.

Lemma tryAdd_keeps_invariants_witness : feesOk sampleQueueBumped = true.
Proof.
  apply (tryAdd_keeps_invariants sampleApp sampleQueue sampleQueueBumped
           sampleBump1000 ADD_STATUS_PENDING None).
  - reflexivity.
  - reflexivity.
  - intros t Ht. vm_compute in Ht. apply list_elem_of_singleton in Ht.
    subst t. discriminate.
  - vm_compute. reflexivity.
  - reflexivity.
Defined.

(** ** Dropping a range of a queue keeps the invariants *)

Lemma contiguousFrom_drop l : forall s (n : nat),
  contiguousFrom s l = true -> contiguousFrom (s + Z.of_nat n) (drop n l) = true.
Proof.
  induction l as [|x l IH]; intros s n Hc; [by destruct n|].
  destruct n as [|n]; [by rewrite Z.add_0_r|].
  simpl in Hc. apply andb_true_iff in Hc as [_ Hc]. simpl drop.
  replace (s + Z.of_nat (S n)) with (s + 1 + Z.of_nat n) by lia. by apply IH.
Qed.

Lemma contiguousFrom_take l : forall s (n : nat),
  contiguousFrom s l = true -> contiguousFrom s (take n l) = true.
Proof.
  induction l as [|x l IH]; intros s n Hc; [by destruct n|].
  destruct n as [|n]; [done|].
  simpl in *. apply andb_true_iff in Hc as [Hx Hc].
  by rewrite Hx, IH.
Qed.

Lemma contiguousFrom_contiguous s l :
  contiguousFrom s l = true -> contiguous l = true.
Proof.
  destruct l as [|x l]; [done|]. simpl. intros Hc.
  apply andb_true_iff in Hc as [Hx Hc]. apply Z.eqb_eq in Hx.
  by rewrite Hx, Z.eqb_refl.
Qed.

Lemma contiguous_drop l (n : nat) :
  contiguous l = true -> contiguous (drop n l) = true.
Proof.
  destruct l as [|x l]; [by destruct n|]. intros Hc.
  eapply contiguousFrom_contiguous. by apply contiguousFrom_drop.
Qed.

Lemma contiguous_take l (n : nat) :
  contiguous l = true -> contiguous (take n l) = true.
Proof.
  destruct l as [|x l]; [by destruct n|]. intros Hc.
  eapply contiguousFrom_contiguous. by apply contiguousFrom_take.
Qed.

Lemma opsOf_nonneg l :
  (forall t, t ∈ l -> 0 <= getNumOperations t) -> 0 <= opsOf l.
Proof.
  induction l as [|x l IH]; intros Hpos; simpl; [done|].
  assert (0 <= getNumOperations x) by (apply Hpos; left).
  assert (0 <= opsOf l) by (apply IH; intros; apply Hpos; by right).
  lia.
Qed.

(** A queue splits into what comes before a range, the range and what
    comes after it. *)
Lemma range_split {A} (l : list A) (b e : nat) :
  (b <= e)%nat ->
  l = take b l ++ take (e - b) (drop b l) ++ drop e l.
Proof.
  intros Hbe. rewrite <- (take_drop b l) at 1. f_equal.
  rewrite <- (take_drop (e - b) (drop b l)) at 1. f_equal.
  rewrite drop_drop. f_equal. lia.
Qed.

Lemma invariant_after_change (m m' : gmap N AccountState.t) a newTxs :
  FeesInvariant m ->
  entryTxs (m' !! a) = newTxs ->
  (forall k, k <> a -> entryTxs (m' !! k) = entryTxs (m !! k)) ->
  (forall k st', k <> a -> m' !! k = Some st' ->
     AccountState.mQueueSizeOps st'
     = AccountState.mQueueSizeOps (default AccountState.init (m !! k))
     /\ AccountState.mAge st'
        = AccountState.mAge (default AccountState.init (m !! k))) ->
  (forall k, feesOfEntry (m' !! k)
             = feesOfEntry (m !! k) - feesOn k (entryTxs (m !! a))
               + feesOn k newTxs) ->
  (forall t, t ∈ newTxs -> 0 < getFeeBid t) ->
  (forall sa', m' !! a = Some sa' ->
     AccountState.mQueueSizeOps sa' = opsOf newTxs
     /\ (newTxs = [] -> AccountState.mAge sa' = 0)) ->
  (forall k st', m' !! k = Some st' -> AccountState.mTransactions st' = [] ->
                 AccountState.mTotalFees st' <> 0) ->
  FeesInvariant m'.
Proof.
  intros Hinv Ha Htxs Hrest Hfees Hpos Hself Hidle.
  split.
  - intros k. rewrite Hfees, (fees_reserved _ Hinv k).
    replace (feesOn k newTxs)
      with (feesOn k (AccountState.mTransactions
                        (AccountState.mk 0 0 0 newTxs))) by done.
    rewrite <- reservedOn_insert. symmetry. apply reservedOn_ext.
    intros k0. destruct (decide (k0 = a)) as [->|NE].
    + by rewrite Ha, lookup_insert_eq.
    + rewrite lookup_insert_ne by done. by apply Htxs.
  - intros k st' t Hst' Ht. destruct (decide (k = a)) as [->|NE].
    + rewrite Hst' in Ha. simpl in Ha. rewrite Ha in Ht. by apply Hpos.
    + specialize (Htxs k NE). rewrite Hst' in Htxs. simpl in Htxs.
      rewrite Htxs in Ht.
      destruct (m !! k) as [st|] eqn:Hst; simpl in Ht; [|by inversion Ht].
      by eapply fees_positive.
  - intros k st' Hst'. destruct (decide (k = a)) as [->|NE].
    + destruct (Hself _ Hst') as [-> _]. rewrite Hst' in Ha. simpl in Ha.
      by rewrite Ha.
    + destruct (Hrest k st' NE Hst') as [-> _].
      specialize (Htxs k NE). rewrite Hst' in Htxs. simpl in Htxs.
      rewrite Htxs. destruct (m !! k) as [st|] eqn:Hst; simpl; [|done].
      by eapply ops_counted.
  - intros k st' Hst' Hempty. split; [|by eapply Hidle].
    destruct (decide (k = a)) as [->|NE].
    + destruct (Hself _ Hst') as [_ Hage]. apply Hage.
      rewrite Hst' in Ha. simpl in Ha. by rewrite <- Ha.
    + destruct (Hrest k st' NE Hst') as [_ ->].
      specialize (Htxs k NE). rewrite Hst' in Htxs. simpl in Htxs.
      rewrite Hempty in Htxs.
      destruct (m !! k) as [st|] eqn:Hst; simpl in *; [|done].
      by destruct (idle_entry _ Hinv k st Hst).
Qed.

(** The invariants of [queueOk], as propositions. *)
Definition ReadyState (q : TransactionQueue) : Prop :=
  FeesInvariant (mAccountStates q)
  /\ 0 <= mQueueSizeOps q < 2 ^ 64
  /\ forall a st, mAccountStates q !! a = Some st ->
       contiguous (AccountState.mTransactions st) = true
       /\ 0 <= AccountState.mQueueSizeOps st < 2 ^ 64
       /\ forall t, t ∈ AccountState.mTransactions st -> tx_in_range t = true.

Lemma queueOk_spec q : queueOk q = true -> ReadyState q.
Proof.
  unfold queueOk, txsInRange. rewrite andb_true_iff, forallb_forall.
  intros [Hready Hrange].
  destruct (appliedReady_spec _ Hready) as (Hinv & Hops & Hall).
  split; [done|]. split; [done|]. intros a st Hst.
  destruct (Hall _ _ Hst) as [Hc Ho]. split; [done|]. split; [done|].
  intros t Ht.
  assert (Hin : In (a, st) (map_to_list (mAccountStates q)))
    by (by apply list_elem_of_In, elem_of_map_to_list).
  apply Hrange in Hin. simpl in Hin. rewrite forallb_forall in Hin.
  by apply Hin, list_elem_of_In.
Qed.

Lemma queueOk_intro q : ReadyState q -> queueOk q = true.
Proof.
  intros (Hinv & Hops & Hall).
  unfold queueOk, appliedReady, txsInRange, is_uint64.
  rewrite !andb_true_iff, !forallb_forall. repeat split.
  - by apply feesOk_intro.
  - lia.
  - lia.
  - intros [a st] Hin. apply list_elem_of_In, elem_of_map_to_list in Hin.
    destruct (Hall _ _ Hin) as (Hc & Ho & _). simpl.
    rewrite Hc. simpl. lia.
  - intros [a st] Hin. apply list_elem_of_In, elem_of_map_to_list in Hin.
    destruct (Hall _ _ Hin) as (_ & _ & Hr). simpl.
    apply forallb_forall. intros t Ht. by apply Hr, list_elem_of_In.
Qed.

Lemma entryTxs_released (o : option AccountState.t) r :
  entryTxs (o ≫= releasedEntry r) = entryTxs o.
Proof.
  destruct o as [st|]; [simpl|done]. unfold releasedEntry.
  destruct (AccountState.mTransactions st) eqn:E; simpl;
    [destruct (_ =? _); simpl; by rewrite ?E|by rewrite E].
Qed.

Lemma released_Some (o : option AccountState.t) r st' :
  o ≫= releasedEntry r = Some st' ->
  exists s, o = Some s
            /\ st' = withTotalFees s (AccountState.mTotalFees s - r).
Proof.
  destruct o as [s|]; [simpl|done]. unfold releasedEntry.
  destruct (_ && _); [done|]. intros [= <-]. eauto.
Qed.

Lemma feesOn_range_le k l (b e : nat) :
  (forall t, t ∈ l -> 0 < getFeeBid t) -> (b <= e)%nat ->
  0 <= feesOn k (take (e - b) (drop b l))
  /\ feesOn k l
     = feesOn k (take b l ++ drop e l) + feesOn k (take (e - b) (drop b l)).
Proof.
  intros Hpos Hbe.
  assert (Hsub : forall t, t ∈ take (e - b) (drop b l) -> t ∈ l).
  { intros t Ht. rewrite (range_split l b e Hbe), !elem_of_app. auto. }
  split.
  - apply feesOn_nonneg. intros t Ht. by apply Hpos, Hsub.
  - rewrite (range_split l b e Hbe) at 1. rewrite !feesOn_app. lia.
Qed.

Lemma opsOf_range l (b e : nat) :
  (b <= e)%nat ->
  opsOf l = opsOf (take b l ++ drop e l) + opsOf (take (e - b) (drop b l)).
Proof.
  intros Hbe. rewrite (range_split l b e Hbe) at 1. rewrite !opsOf_app. lia.
Qed.

(** On a state that satisfies the invariants [dropTransactions] of a
    prefix or of a suffix of a queue returns, and the invariants hold
    again. *)
Lemma dropTransactions_ready q a st (b e : nat) :
  ReadyState q ->
  mAccountStates q !! a = Some st ->
  AccountState.mTransactions st <> [] ->
  (b <= e <= length (AccountState.mTransactions st))%nat ->
  b = 0%nat \/ e = length (AccountState.mTransactions st) ->
  let dropped := take (e - b) (drop b (AccountState.mTransactions st)) in
  let kept := take b (AccountState.mTransactions st)
              ++ drop e (AccountState.mTransactions st) in
  let fees := AccountState.mTotalFees st - feesOn a dropped in
  exists q',
    dropTransactions q a b e = Some q'
    /\ ReadyState q'
    /\ mBannedTransactions q' = mBannedTransactions q
    /\ mPendingDepth q' = mPendingDepth q
    /\ entryTxs (mAccountStates q' !! a) = kept
    /\ mAccountStates q' !! a
       = (if isEmpty kept && (fees =? 0) then None
          else Some (AccountState.mk fees (opsOf kept)
                       (if isEmpty kept then 0 else AccountState.mAge st)
                       kept))
    /\ (forall k, k <> a ->
          mAccountStates q' !! k
          = mAccountStates q !! k ≫= releasedEntry (feesOn k dropped))
    /\ mQueueSizeOps q' = to_uint64 (mQueueSizeOps q - opsOf dropped)
    /\ mLedgerVersion q' = mLedgerVersion q
    /\ mPoolLedgerMultiplier q' = mPoolLedgerMultiplier q.
Proof.
  intros (Hinv & Hqops & Hall) Hst Hne Hbe Hends. cbv zeta.
  destruct (Hall _ _ Hst) as (Hc & Hops & Hrange).
  set (txs := AccountState.mTransactions st) in *.
  set (ts := take (e - b) (drop b txs)).
  set (txs' := take b txs ++ drop e txs).
  assert (Hpos : forall t, t ∈ txs -> 0 < getFeeBid t)
    by (intros t Ht; by eapply fees_positive).
  destruct (feesOn_range_le a txs b e Hpos ltac:(lia)) as [_ Hfa].
  assert (Hsub : forall t, t ∈ ts -> t ∈ txs).
  { intros t Ht. rewrite (range_split txs b e ltac:(lia)), !elem_of_app.
    auto. }
  assert (Hsub' : forall t, t ∈ txs' -> t ∈ txs).
  { intros t Ht. rewrite (range_split txs b e ltac:(lia)), !elem_of_app.
    unfold txs' in Ht. apply elem_of_app in Ht. tauto. }
  assert (Hrel : releasable ts (mAccountStates q)).
  { split; [intros t Ht; by apply Hpos, Hsub|]. split.
    - intros k. rewrite (fees_reserved _ Hinv).
      pose proof (reservedOn_entry_le (mAccountStates q) k a
                    (fees_positive _ Hinv)) as Hle.
      rewrite Hst in Hle. simpl in Hle. fold txs in Hle.
      destruct (feesOn_range_le k txs b e Hpos ltac:(lia)) as [H0 Hk].
      assert (0 <= feesOn k txs')
        by (apply feesOn_nonneg; intros t Ht; by apply Hpos, Hsub').
      fold ts txs' in Hk. lia.
    - intros k s Hs Hempty. by destruct (idle_entry _ Hinv _ _ Hs Hempty). }
  destruct (forEach_dropOne a ts q st Hst Hne Hops Hqops Hrel)
    as (q1 & Hloop & Hq1 & Hring1 & Hops1 & Hd1 & Hv1 & Hp1).
  pose proof (Hq1 a) as Hq1a. rewrite decide_True in Hq1a by done.
  fold txs in Hq1a.
  set (total' := AccountState.mTotalFees st - feesOn a ts) in *.
  set (ops' := to_uint64 (AccountState.mQueueSizeOps st - opsOf ts)) in *.
  assert (Hops' : ops' = opsOf txs' /\ 0 <= opsOf txs' < 2 ^ 64).
  { pose proof (opsOf_range txs b e ltac:(lia)) as Ho. fold ts txs' in Ho.
    pose proof (ops_counted _ Hinv _ _ Hst) as Hcount. fold txs in Hcount.
    assert (0 <= opsOf ts).
    { apply opsOf_nonneg. intros t Ht.
      destruct (tx_in_range_spec _ (Hrange _ (Hsub _ Ht))) as (_ & ? & _).
      lia. }
    assert (0 <= opsOf txs').
    { apply opsOf_nonneg. intros t Ht.
      destruct (tx_in_range_spec _ (Hrange _ (Hsub' _ Ht))) as (_ & ? & _).
      lia. }
    split; [|lia]. unfold ops'. rewrite to_uint64_small; lia. }
  assert (Hcommon : forall m' : gmap N AccountState.t,
            m' !! a = (if isEmpty txs' && (total' =? 0) then None
                       else Some (AccountState.mk total' ops'
                                    (if isEmpty txs' then 0
                                     else AccountState.mAge st) txs')) ->
            (forall k, k <> a -> m' !! k = mAccountStates q1 !! k) ->
            ReadyState (setAccountStates q1 m')
            /\ entryTxs (m' !! a) = txs').
  { intros m' Ha Hother.
    assert (Htxs'a : entryTxs (m' !! a) = txs').
    { rewrite Ha. destruct (isEmpty txs' && _) eqn:E; [simpl|done].
      apply andb_true_iff in E as [E _]. by destruct txs'. }
    assert (Hk : forall k, k <> a ->
              m' !! k = mAccountStates q !! k ≫= releasedEntry (feesOn k ts)).
    { intros k NE. by rewrite Hother, Hq1, decide_False. }
    split; [|done]. split; [|split].
    - apply (invariant_after_change (mAccountStates q) m' a txs' Hinv Htxs'a).
      + intros k NE. by rewrite Hk, entryTxs_released.
      + intros k st' NE Hst'. rewrite Hk in Hst' by done.
        apply released_Some in Hst' as (s & -> & ->). done.
      + intros k. rewrite Hst. simpl. fold txs.
        destruct (decide (k = a)) as [->|NE].
        * rewrite Ha, Hst. fold ts txs' in Hfa.
          destruct (isEmpty txs' && _) eqn:E; simpl.
          -- apply andb_true_iff in E as [_ E]. apply Z.eqb_eq in E.
             unfold total' in E. lia.
          -- unfold total'. lia.
        * rewrite Hk by done.
          destruct (feesOn_range_le k txs b e Hpos ltac:(lia)) as [H0 Hk'].
          fold ts txs' in Hk', H0.
          destruct (mAccountStates q !! k) as [s|] eqn:Hs; simpl.
          -- rewrite feesOfEntry_released. lia.
          -- destruct Hrel as (_ & Hle & _). specialize (Hle k).
             rewrite Hs in Hle. simpl in Hle. lia.
      + intros t Ht. by apply Hpos, Hsub'.
      + intros sa' Hsa. rewrite Ha in Hsa.
        destruct (isEmpty txs' && _); [done|]. injection Hsa as <-. simpl.
        split; [by destruct Hops'|]. by intros ->.
      + intros k st' Hst' Hempty. destruct (decide (k = a)) as [->|NE].
        * rewrite Ha in Hst'. destruct (isEmpty txs' && _) eqn:E; [done|].
          injection Hst' as <-. simpl in *. rewrite Hempty in E. simpl in E.
          by apply Z.eqb_neq.
        * rewrite Hk in Hst' by done.
          destruct (mAccountStates q !! k) as [s|]; [simpl in Hst'|done].
          by eapply releasedEntry_idle.
    - simpl. rewrite Hops1. apply to_uint64_range.
    - intros k st' Hst'. simpl in Hst'. destruct (decide (k = a)) as [->|NE].
      + rewrite Ha in Hst'. destruct (isEmpty txs' && _); [done|].
        injection Hst' as <-. simpl. split; [|split].
        * unfold txs'. destruct Hends as [->| ->].
          -- simpl. by apply contiguous_drop.
          -- rewrite drop_all, app_nil_r. by apply contiguous_take.
        * destruct Hops' as [-> ?]. done.
        * intros t Ht. by apply Hrange, Hsub'.
      + rewrite Hk in Hst' by done.
        apply released_Some in Hst' as (s & Hs & ->). simpl.
        by apply (Hall k s). }
  assert (Hfinal : forall m' : gmap N AccountState.t,
            m' !! a = (if isEmpty txs' && (total' =? 0) then None
                       else Some (AccountState.mk total' ops'
                                    (if isEmpty txs' then 0
                                     else AccountState.mAge st) txs')) ->
            (forall k, k <> a -> m' !! k = mAccountStates q1 !! k) ->
            ReadyState (setAccountStates q1 m')
            /\ mBannedTransactions q1 = mBannedTransactions q
            /\ mPendingDepth q1 = mPendingDepth q
            /\ entryTxs (m' !! a) = txs'
            /\ m' !! a
               = (if isEmpty txs' && (total' =? 0) then None
                  else Some (AccountState.mk total' (opsOf txs')
                               (if isEmpty txs' then 0
                                else AccountState.mAge st) txs'))
            /\ (forall k, k <> a ->
                  m' !! k
                  = mAccountStates q !! k ≫= releasedEntry (feesOn k ts))
            /\ mQueueSizeOps q1 = to_uint64 (mQueueSizeOps q - opsOf ts)
            /\ mLedgerVersion q1 = mLedgerVersion q
            /\ mPoolLedgerMultiplier q1 = mPoolLedgerMultiplier q).
  { intros m' Ha Hother. destruct (Hcommon m' Ha Hother) as [Hr Ht].
    split; [done|]. split; [done|]. split; [done|]. split; [done|].
    split; [by destruct Hops' as [<- _]|]. split; [|done].
    intros k NE. by rewrite Hother, Hq1, decide_False. }
  unfold dropTransactions. rewrite Hst. simpl. fold txs ts. rewrite Hloop.
  simpl. rewrite Hq1a. simpl. fold txs'.
  destruct (isEmpty txs') eqn:Hempty; [destruct (total' =? 0) eqn:Hzero|].
  - eexists. split; [done|].
    apply (Hfinal (delete a (mAccountStates q1))).
    + by rewrite lookup_delete_eq.
    + intros k NE. by apply lookup_delete_ne.
  - eexists. split; [done|].
    match goal with
    | |- context [setAccountStates q1 ?m] => apply (Hfinal m)
    end.
    + by rewrite lookup_insert_eq.
    + intros k NE. by apply lookup_insert_ne.
  - eexists. split; [done|].
    match goal with
    | |- context [setAccountStates q1 ?m] => apply (Hfinal m)
    end.
    + by rewrite lookup_insert_eq.
    + intros k NE. by apply lookup_insert_ne.
Qed.

(** ** [removeApplied] and [ban] keep the invariants *)

Lemma forEach_total {S A : Type} (P : S -> Prop) (body : S -> A -> option S) :
  (forall s x, P s -> exists s', body s x = Some s' /\ P s') ->
  forall l s, P s -> exists s', forEach body l s = Some s' /\ P s'.
Proof.
  intros Hbody l. induction l as [|x l IH]; intros s Hs; [by exists s|].
  destruct (Hbody s x Hs) as (s1 & H1 & Hs1).
  destruct (IH s1 Hs1) as (s' & H' & Hs').
  exists s'. split; [|done]. simpl. by rewrite H1.
Qed.

Lemma ReadyState_same q q' :
  mAccountStates q' = mAccountStates q -> mQueueSizeOps q' = mQueueSizeOps q ->
  ReadyState q -> ReadyState q'.
Proof. unfold ReadyState. by intros -> ->. Qed.

Lemma ReadyState_withAge q a st age :
  ReadyState q -> mAccountStates q !! a = Some st ->
  AccountState.mTransactions st <> [] ->
  ReadyState (setAccountStates q (<[a := withAge st age]> (mAccountStates q))).
Proof.
  intros (Hinv & Hops & Hall) Hst Hne.
  assert (Hk : forall k, k <> a ->
            <[a := withAge st age]> (mAccountStates q) !! k
            = mAccountStates q !! k)
    by (intros k NE; by apply lookup_insert_ne).
  split; [|split; [done|]].
  - simpl. apply (invariant_after_change (mAccountStates q) _ a
                    (AccountState.mTransactions st) Hinv).
    + by rewrite lookup_insert_eq.
    + intros k NE. by rewrite Hk.
    + intros k st' NE Hst'. rewrite Hk in Hst' by done. by rewrite Hst'.
    + intros k. rewrite Hst. simpl.
      destruct (decide (k = a)) as [->|NE].
      * rewrite lookup_insert_eq, Hst. simpl. lia.
      * rewrite Hk by done. lia.
    + intros t Ht. by eapply fees_positive.
    + intros sa'. rewrite lookup_insert_eq. intros [= <-]. simpl.
      split; [by eapply ops_counted|done].
    + intros k st' Hst' Hempty. destruct (decide (k = a)) as [->|NE].
      * rewrite lookup_insert_eq in Hst'. by injection Hst' as <-.
      * rewrite Hk in Hst' by done.
        by destruct (idle_entry _ Hinv _ _ Hst' Hempty).
  - intros k st' Hst'. simpl in Hst'. destruct (decide (k = a)) as [->|NE].
    + rewrite lookup_insert_eq in Hst'. injection Hst' as <-. simpl.
      by apply (Hall a st).
    + rewrite Hk in Hst' by done. by apply (Hall k st').
Qed.

Lemma findBySeq_bounded seq l found :
  findBySeq seq l = Some found ->
  (default (length l) found <= length l)%nat.
Proof.
  unfold findBySeq. intros H.
  apply bind_Some in H as (front & _ & H).
  apply bind_Some in H as (back & _ & H).
  destruct (_ || _); [by injection H as <-|].
  destruct (seq - getSeqNum front <=? Z.of_nat (length l)) eqn:E; [|done].
  apply Z.leb_le in E. simpl in H.
  destruct (_ !! _) as [t|] eqn:Ht.
  - destruct (_ =? _); [|done]. injection H as <-. simpl.
    apply lookup_lt_Some in Ht. lia.
  - injection H as <-. simpl. lia.
Qed.

Lemma findBySeq_total seq l :
  contiguous l = true -> l <> [] -> is_Some (findBySeq seq l).
Proof.
  intros Hc Hne. destruct l as [|x l0]; [done|].
  rewrite (findBySeq_contiguous seq _ x Hc); [eauto|done].
Qed.

Lemma removeAppliedAccount_ready q kv :
  ReadyState q ->
  exists q', removeAppliedAccount q kv = Some q'
             /\ ReadyState q'
             /\ mBannedTransactions q' = mBannedTransactions q
             /\ mPendingDepth q' = mPendingDepth q.
Proof.
  intros Hready. unfold removeAppliedAccount.
  destruct (mAccountStates q !! kv.1) as [st|] eqn:Hst; [|by exists q].
  destruct (head _) as [front|] eqn:Hh; [|by exists q].
  destruct (_ <=? _); [|by exists q].
  assert (Hne : AccountState.mTransactions st <> [])
    by (intros E; by rewrite E in Hh).
  destruct Hready as (Hinv & Hops & Hall).
  destruct (Hall _ _ Hst) as (Hc & _ & _).
  destruct (findBySeq_total kv.2 _ Hc Hne) as [found Hfound].
  rewrite Hfound. simpl.
  pose proof (findBySeq_bounded _ _ _ Hfound) as Hbound.
  set (txIter := default (length (AccountState.mTransactions st)) found) in *.
  set (txIter' := if (txIter <? length (AccountState.mTransactions st))%nat
                  then S txIter else txIter).
  assert (Hle : (txIter' <= length (AccountState.mTransactions st))%nat).
  { unfold txIter'. destruct (_ <? _)%nat eqn:E; [|done].
    apply Nat.ltb_lt in E. lia. }
  set (q1 := setAccountStates q (<[kv.1 := withAge st 0]> (mAccountStates q))).
  assert (Hready1 : ReadyState q1)
    by (by apply ReadyState_withAge).
  destruct (dropTransactions_ready q1 kv.1 (withAge st 0) 0 txIter' Hready1)
    as (q' & Hdrop & Hready' & Hring & Hd & _).
  - unfold q1. simpl. apply lookup_insert_eq.
  - done.
  - simpl. lia.
  - by left.
  - exists q'. split; [exact Hdrop|]. split; [exact Hready'|].
    split; [exact Hring|exact Hd].
Qed.

Lemma removeApplied_ready q appliedTxs :
  ReadyState q ->
  exists q', removeApplied q appliedTxs = Some q'
             /\ ReadyState q'
             /\ mBannedTransactions q' = mBannedTransactions q
             /\ mPendingDepth q' = mPendingDepth q.
Proof.
  intros Hready.
  destruct (forEach_total
              (fun s => ReadyState s
                        /\ mBannedTransactions s = mBannedTransactions q
                        /\ mPendingDepth s = mPendingDepth q)
              removeAppliedAccount) with
    (l := maxSeqByAccount appliedTxs) (s := q) as (q' & Hrun & Hq').
  - intros s kv (Hs & Hr & Hd).
    destruct (removeAppliedAccount_ready s kv Hs) as (s' & H1 & H2 & H3 & H4).
    exists s'. split; [done|]. split; [done|]. by rewrite H3, H4.
  - done.
  - by exists q'.
Qed.

(** X17: [removeApplied] keeps the invariants of the queue: called in a
    state in which the fee reservations and the operation counters are
    consistent with the queued transactions, the queues are contiguous
    and the counters and attributes are in the range of their types, it
    returns, and all of this holds again in the state it leaves; the ban
    ring is untouched. *)
Theorem removeApplied_keeps_invariants (q : TransactionQueue)
    (appliedTxs : list TransactionFrameBase) :
  queueOk q = true ->
  exists q',
    removeApplied q appliedTxs = Some q'
    /\ queueOk q' = true
    /\ mBannedTransactions q' = mBannedTransactions q.
Proof.
  intros Hok. apply queueOk_spec in Hok.
  destruct (removeApplied_ready q appliedTxs Hok)
    as (q' & Hrun & Hready & Hring & _).
  exists q'. split; [exact Hrun|]. split; [by apply queueOk_intro|done].
Qed.

Lemma removeApplied_keeps_invariants_witness :
  exists q',
    removeApplied sampleQueuePaying [sampleEarlier; samplePaidFor] = Some q'
    /\ queueOk q' = true.
Proof.
  destruct (removeApplied_keeps_invariants sampleQueuePaying
              [sampleEarlier; samplePaidFor]) as (q' & H1 & H2 & _).
  - vm_compute. reflexivity.
  - exists q'. split; [exact H1|exact H2].
Defined.

Lemma banSearch_total txs :
  contiguous txs = true -> txs <> [] ->
  forall l (i0 : nat), (i0 <= length txs)%nat ->
    exists i : nat, forEach (banSearch txs) l i0 = Some i
                    /\ (i <= length txs)%nat.
Proof.
  intros Hc Hne.
  apply (forEach_total (fun i : nat => (i <= length txs)%nat)).
  intros i tx Hi. unfold banSearch.
  destruct (match txs !! i with
            | Some t => getSeqNum tx <? getSeqNum t
            | None => true
            end); [|by exists i].
  unfold findTx.
  destruct (findBySeq_total (getSeqNum tx) txs Hc Hne) as [found Hfound].
  rewrite Hfound. simpl.
  destruct (txs !! default (length txs) found) as [t|] eqn:Ht; [|by exists i].
  destruct (_ =? _)%N; [|by exists i].
  eexists. split; [done|]. apply lookup_lt_Some in Ht. lia.
Qed.

Lemma forEach_banFront_total {A} (f : A -> Hash) l : forall q,
  mBannedTransactions q <> [] ->
  exists q', forEach (fun q0 t => banFront q0 (f t)) l q = Some q'
             /\ mAccountStates q' = mAccountStates q
             /\ mQueueSizeOps q' = mQueueSizeOps q
             /\ mPendingDepth q' = mPendingDepth q
             /\ mBannedTransactions q' <> [].
Proof.
  induction l as [|t l IH]; intros q Hring; [by exists q|].
  destruct (mBannedTransactions q) as [|s r] eqn:E; [done|].
  assert (Hb : banFront q (f t)
               = Some (setBannedTransactions q (({[f t]} ∪ s) :: r)))
    by (unfold banFront; by rewrite E).
  destruct (IH (setBannedTransactions q (({[f t]} ∪ s) :: r)))
    as (q' & H1 & H2 & H3 & H4 & H5); [done|].
  exists q'. cbn [forEach]. rewrite Hb. cbn [mbind option_bind].
  by rewrite H1.
Qed.

Lemma banAccount_ready q kv :
  ReadyState q -> mBannedTransactions q <> [] ->
  exists q', banAccount q kv = Some q'
             /\ ReadyState q'
             /\ mBannedTransactions q' <> []
             /\ mPendingDepth q' = mPendingDepth q.
Proof.
  intros Hready Hring. unfold banAccount.
  destruct (mAccountStates q !! kv.1) as [st|] eqn:Hst; [|by exists q].
  destruct (AccountState.mTransactions st) as [|t0 l0] eqn:Htxs;
    [by exists q|].
  rewrite <- Htxs in *. replace (isEmpty (AccountState.mTransactions st))
    with false by (by rewrite Htxs).
  assert (Hne : AccountState.mTransactions st <> []) by (by rewrite Htxs).
  pose proof Hready as (Hinv & Hops & Hall).
  destruct (Hall _ _ Hst) as (Hc & _ & _).
  destruct (banSearch_total _ Hc Hne kv.2
              (length (AccountState.mTransactions st)) (Nat.le_refl _))
    as (txIter & Hsearch & Hle).
  rewrite Hsearch. simpl.
  destruct (forEach_banFront_total getFullHash
              (drop txIter (AccountState.mTransactions st)) q Hring)
    as (q1 & Hfront & Hstates & Hqops & Hd & Hring1).
  rewrite Hfront. simpl.
  destruct (dropTransactions_ready q1 kv.1 st txIter
              (length (AccountState.mTransactions st)))
    as (q' & Hdrop & Hready' & Hring' & Hd' & _).
  - by apply (ReadyState_same q).
  - by rewrite Hstates.
  - done.
  - lia.
  - by right.
  - exists q'. split; [exact Hdrop|]. split; [exact Hready'|].
    split; [by rewrite Hring'|by rewrite Hd'].
Qed.

Lemma ban_ready q banTxs :
  ReadyState q -> mBannedTransactions q <> [] ->
  exists q', ban q banTxs = Some q'
             /\ ReadyState q'
             /\ mBannedTransactions q' <> []
             /\ mPendingDepth q' = mPendingDepth q.
Proof.
  intros Hok Hring. unfold ban.
  destruct (mBannedTransactions q) as [|s r] eqn:E; [done|]. simpl.
  destruct (forEach_banFront_total getFullHash banTxs q)
    as (q1 & Hfront & Hstates & Hqops & Hd1 & Hring1); [by rewrite E|].
  rewrite Hfront. simpl.
  destruct (forEach_total
              (fun s => ReadyState s /\ mBannedTransactions s <> []
                        /\ mPendingDepth s = mPendingDepth q)
              banAccount) with
    (l := groupBySource banTxs) (s := q1) as (q' & Hrun & Hq').
  - intros s0 kv (Hs & Hr & Hd).
    destruct (banAccount_ready s0 kv Hs Hr) as (s' & H1 & H2 & H3 & H4).
    exists s'. split; [done|]. split; [done|]. split; [done|].
    by rewrite H4.
  - split; [by apply (ReadyState_same q)|done].
  - by exists q'.
Qed.

(** X18: [ban] keeps the invariants of the queue: called with a ban ring
    that has a slot, in a state in which the fee reservations and the
    operation counters are consistent with the queued transactions, the
    queues are contiguous and the counters and attributes are in the
    range of their types, it returns, and all of this holds again in the
    state it leaves. *)
Theorem ban_keeps_invariants (q : TransactionQueue)
    (banTxs : list TransactionFrameBase) :
  queueOk q = true -> mBannedTransactions q <> [] ->
  exists q', ban q banTxs = Some q' /\ queueOk q' = true.
Proof.
  intros Hok Hring. apply queueOk_spec in Hok.
  destruct (ban_ready q banTxs Hok Hring) as (q' & Hrun & Hready & _).
  exists q'. split; [exact Hrun|by apply queueOk_intro].
Qed.

Lemma ban_keeps_invariants_witness :
  exists q', ban sampleQueueOld [sampleOld2] = Some q' /\ queueOk q' = true.
Proof.
  apply (ban_keeps_invariants sampleQueueOld [sampleOld2]).
  - vm_compute. reflexivity.
  - discriminate.
Defined.

(** ** Sequences of calls at ledger close *)

Lemma shifted_ReadyState q :
  shiftReady q = true -> ReadyState q -> ReadyState (shifted q).
Proof.
  intros Hready (Hinv & Hops & Hall).
  split; [by apply shifted_invariant|]. split.
  - unfold shifted, shiftedTo. simpl. apply to_uint64_range.
  - intros a st' Hst'. unfold shifted in Hst'.
    rewrite shiftedTo_lookup in Hst'.
    destruct (mAccountStates q !! a) as [st|] eqn:Hst; [simpl in Hst'|done].
    destruct (shiftedEntry_kept _ _ _ _ _ (visited_all _ _ _ Hst) Hst')
      as (-> & -> & _).
    destruct (Hall _ _ Hst) as (Hc & Ho & Hr).
    destruct (agesOut q st); [|done].
    split; [done|]. split; [lia|]. intros t Ht. by inversion Ht.
Qed.

Lemma stateOk_spec q :
  stateOk q = true <->
  ReadyState q /\ 0 < mPendingDepth q < 2 ^ 64 /\ mBannedTransactions q <> [].
Proof.
  unfold stateOk. rewrite andb_true_iff. split.
  - intros [Hq Hs]. split; [by apply queueOk_spec|].
    split; [by apply shiftReady_depth|].
    by destruct (shiftReady_spec _ Hs) as (_ & _ & _ & ?).
  - intros (Hr & Hd & Hring). pose proof (queueOk_intro _ Hr) as Hq.
    split; [done|]. unfold queueOk, appliedReady in Hq. unfold shiftReady.
    rewrite !andb_true_iff in *. repeat split; try tauto; try lia.
    by destruct (mBannedTransactions q).
Qed.

(** X19: the calls made when a ledger closes never fail an assertion and
    keep the queue consistent: from a state that satisfies the invariants
    of the queue, with a positive [mPendingDepth] and a ban ring with a
    slot, every sequence of calls of [removeApplied], [ban] and [shift],
    with whatever arguments, returns, and ends in such a state. *)
Theorem maintenance_keeps_state (calls : list (Application * QueueOp))
    (q : TransactionQueue) :
  forallb (fun call => isMaintenance call.2) calls = true ->
  stateOk q = true ->
  exists q', runOps calls q = Some q' /\ stateOk q' = true.
Proof.
  intros Hcalls Hok. unfold runOps.
  revert q Hok. induction calls as [|[mApp op] calls IH]; intros q Hok;
    [by exists q|].
  simpl in Hcalls. apply andb_true_iff in Hcalls as [Hop Hcalls].
  assert (Hstep : exists q1, runOp q (mApp, op) = Some q1 /\ stateOk q1 = true).
  { apply stateOk_spec in Hok as (Hr & Hd & Hring).
    destruct op; try done; unfold runOp; simpl.
    - destruct (removeApplied_ready q appliedTxs Hr)
        as (q1 & H1 & H2 & H3 & H4).
      exists q1. split; [done|]. apply stateOk_spec. by rewrite H3, H4.
    - destruct (ban_ready q banTxs Hr Hring) as (q1 & H1 & H2 & H3 & H4).
      exists q1. split; [done|]. apply stateOk_spec. by rewrite H4.
    - assert (Hs : shiftReady q = true).
      { assert (Hq : stateOk q = true) by (by apply stateOk_spec).
        unfold stateOk in Hq. by apply andb_true_iff in Hq as [_ ?]. }
      exists (shifted q). split; [by apply shift_closed|].
      apply stateOk_spec. split; [by apply shifted_ReadyState|].
      split; [done|]. unfold shifted, shiftedTo. done. }
  destruct Hstep as (q1 & Hq1 & Hok1).
  destruct (IH Hcalls q1 Hok1) as (q' & Hrun & Hok').
  exists q'. split; [|done]. cbn [forEach]. by rewrite Hq1.
Qed.

Lemma maintenance_keeps_state_witness :
  exists q',
    runOps [(sampleApp, OpRemoveApplied [sampleOld1]);
            (sampleApp, OpShift);
            (sampleApp, OpBan [sampleYoung])] sampleQueueOld = Some q'
    /\ stateOk q' = true.
Proof.
  apply (maintenance_keeps_state
           [(sampleApp, OpRemoveApplied [sampleOld1]);
            (sampleApp, OpShift);
            (sampleApp, OpBan [sampleYoung])] sampleQueueOld).
  - reflexivity.
  - vm_compute. reflexivity.
Defined.

(** ** [tryAdd] fails no assertion *)

Lemma canAddLocate_total q tx :
  ReadyState q -> is_Some (canAddLocate q tx).
Proof.
  intros (_ & _ & Hall). unfold canAddLocate.
  destruct (mAccountStates q !! getSourceID tx) as [st|] eqn:Hst; [|eauto].
  destruct (AccountState.mTransactions st) as [|t0 l0] eqn:Htxs; [eauto|].
  rewrite <- Htxs in *. replace (isEmpty (AccountState.mTransactions st))
    with false by (by rewrite Htxs).
  assert (Hne : AccountState.mTransactions st <> []) by (by rewrite Htxs).
  destruct (Hall _ _ Hst) as (Hc & _ & _).
  destruct (findBySeq_total (getSeqNum tx) _ Hc Hne) as [found Hfound].
  rewrite Hfound. simpl.
  destruct (getEnvelopeType tx).
  - match goal with |- context [if ?b then _ else _] => destruct b end;
      [eauto|].
    rewrite Htxs, last_cons. by destruct (last l0).
  - destruct found as [i|]; [|eauto].
    destruct (_ !! i) as [oldTx|]; [|eauto].
    destruct (isDuplicateTx oldTx tx); [eauto|].
    destruct (negb _); eauto.
Qed.

Lemma releaseFee_total q a st t :
  FeesInvariant (mAccountStates q) ->
  mAccountStates q !! a = Some st -> t ∈ AccountState.mTransactions st ->
  is_Some (releaseFeeMaybeEraseAccountState q t).
Proof.
  intros Hinv Hst Ht.
  pose proof (reservedOn_covers _ _ _ _ (fees_positive _ Hinv) Hst Ht) as Hc.
  pose proof (fees_positive _ Hinv _ _ _ Hst Ht) as Hp.
  rewrite <- (fees_reserved _ Hinv) in Hc.
  destruct (mAccountStates q !! getFeeSourceID t) as [stf|] eqn:Hf;
    simpl in Hc; [|lia].
  destruct (releaseFee_lookup q t stf Hf Hc) as (q' & Hq' & _). eauto.
Qed.

Lemma tryAddCommit_total q tx (slot : nat) :
  FeesInvariant (mAccountStates q) ->
  is_Some (tryAddCommit q tx
             (match mAccountStates q !! getSourceID tx with
              | Some _ => true
              | None => false
              end) slot).
Proof.
  intros Hinv. unfold tryAddCommit.
  destruct (mAccountStates q !! getSourceID tx) as [st|] eqn:Hst.
  - simpl. rewrite Hst. simpl.
    destruct (slot <? length (AccountState.mTransactions st))%nat eqn:Hslot.
    + apply Nat.ltb_lt in Hslot.
      destruct (lookup_lt_is_Some_2 _ _ Hslot) as [oldTx Hold].
      rewrite Hold. simpl.
      assert (Hin : oldTx ∈ AccountState.mTransactions st)
        by (by eapply list_elem_of_lookup_2).
      destruct (releaseFee_total q _ _ _ Hinv Hst Hin) as [q1 Hrel].
      rewrite Hrel. simpl.
      apply releaseFee_inv in Hrel as (stf & Hstf & _ & Hq1 & _).
      assert (Hs1 : is_Some (mAccountStates q1 !! getSourceID tx)).
      { rewrite Hq1. destruct (decide _) as [E|NE]; [|by rewrite Hst].
        rewrite <- E, Hst in Hstf. injection Hstf as <-.
        unfold releasedEntry.
        destruct (AccountState.mTransactions st); [by inversion Hin|].
        simpl. eauto. }
      destruct Hs1 as [st1 Hst1]. rewrite Hst1. simpl.
      rewrite lookup_insert_eq. simpl. eauto.
    + simpl. rewrite lookup_insert_eq. simpl. eauto.
  - simpl. rewrite lookup_insert_eq. simpl.
    rewrite lookup_insert_eq. simpl. eauto.
Qed.

(** X20: from a state that satisfies the invariants of the queue, with a
    ban ring that has a slot, [tryAdd] returns for every transaction and
    every application: no assertion of [findBySeq] or of
    [releaseFeeMaybeEraseAccountState] fails and no end iterator is
    dereferenced; and the ban ring keeps its depth. *)
Theorem tryAdd_returns (mApp : Application) (q : TransactionQueue)
    (tx : TransactionFrameBase) :
  stateOk q = true ->
  exists q' res code,
    tryAdd mApp q tx = Some (q', res, code)
    /\ length (mBannedTransactions q') = length (mBannedTransactions q).
Proof.
  intros Hok. apply stateOk_spec in Hok as (Hr & _ & Hring).
  assert (Hsome : is_Some (tryAdd mApp q tx)).
  { unfold tryAdd, canAdd.
    destruct (isBanned q (getFullHash tx)); [simpl; eauto|].
    destruct (canAddLocate_total q tx Hr) as [located Hloc].
    rewrite Hloc. simpl.
    destruct located as [[r c]|loc].
    { simpl. pose proof (canAddLocate_early _ _ _ _ Hloc).
      destruct r; simpl; eauto. done. }
    destruct (_ <? _).
    { destruct (ban_ready q [tx] Hr Hring) as (q1 & Hb & _).
      rewrite Hb. simpl. eauto. }
    destruct (negb _); [simpl; eauto|].
    destruct (_ <? _); simpl; [eauto|].
    destruct (canAddLocate_nets _ _ _ Hloc) as (_ & _ & ->).
    destruct Hr as (Hinv & _).
    destruct (tryAddCommit_total q tx (oldTxIter loc) Hinv) as [q1 Hc].
    rewrite Hc. simpl. eauto. }
  destruct Hsome as [[[q' res] code] Hadd].
  exists q', res, code. split; [done|].
  apply (frontGrows_length q q'). by apply (tryAdd_grows mApp q tx _ Hadd).
Qed.

Lemma tryAdd_returns_witness :
  exists q' res code,
    tryAdd sampleAppStrict sampleQueueOld sampleBumpBig
    = Some (q', res, code)
    /\ length (mBannedTransactions q') = 2%nat.
Proof.
  apply (tryAdd_returns sampleAppStrict sampleQueueOld sampleBumpBig).
  vm_compute. reflexivity.
Defined.

(** ** A transaction admitted and then applied *)

Lemma appended_lookup q tx st k :
  mAccountStates (appended q tx st) !! k
  = let st' := AccountState.mk (AccountState.mTotalFees st)
                 (to_uint64 (AccountState.mQueueSizeOps st
                             + getNumOperations tx))
                 (AccountState.mAge st)
                 (AccountState.mTransactions st ++ [tx]) in
    let mid := fun k' => if decide (k' = getSourceID tx) then Some st'
                         else mAccountStates q !! k' in
    if decide (k = getFeeSourceID tx)
    then let fst := default AccountState.init (mid (getFeeSourceID tx)) in
         Some (withTotalFees fst (AccountState.mTotalFees fst + getFeeBid tx))
    else mid k.
Proof.
  unfold appended. simpl. destruct (decide (k = getFeeSourceID tx)) as [->|NE].
  - rewrite lookup_insert_eq. do 3 f_equal.
    all: destruct (decide (getFeeSourceID tx = getSourceID tx)) as [E|NEs];
      [by rewrite E, lookup_insert_eq|by rewrite lookup_insert_ne].
  - rewrite lookup_insert_ne by done.
    destruct (decide (k = getSourceID tx)) as [->|NEs];
      [by rewrite lookup_insert_eq|by rewrite lookup_insert_ne].
Qed.

Lemma tryAdd_first q mApp tx q1 code :
  mAccountStates q !! getSourceID tx = None ->
  tryAdd mApp q tx = Some (q1, ADD_STATUS_PENDING, code) ->
  q1 = appended q tx AccountState.init.
Proof.
  intros Hnone Hadd.
  apply tryAdd_pending_located in Hadd as (loc & _ & Hloc & _ & Hcommit & _).
  unfold canAddLocate in Hloc. rewrite Hnone in Hloc. injection Hloc as <-.
  simpl in Hcommit. rewrite tryAddCommit_new in Hcommit. by injection Hcommit.
Qed.

Lemma appended_first_ready q tx :
  ReadyState q -> tx_in_range tx = true -> 0 < getFeeBid tx ->
  mAccountStates q !! getSourceID tx = None ->
  ReadyState (appended q tx AccountState.init).
Proof.
  intros (Hinv & Hops & Hall) Hrange Hfee Hnone.
  destruct (tx_in_range_spec _ Hrange) as (_ & Hn & _).
  assert (Hsrc : exists s1,
            mAccountStates (appended q tx AccountState.init) !! getSourceID tx
            = Some s1 /\ AccountState.mTransactions s1 = [tx]).
  { rewrite appended_lookup. simpl. destruct (decide _) as [E|NE].
    - rewrite <- E, decide_True by done. simpl. eauto.
    - rewrite decide_True by done. eauto. }
  destruct Hsrc as (s1 & Hs1 & Htxs1).
  split; [|split].
  - apply (commit_keeps_invariant q tx 0 _ Hinv Hfee).
    + rewrite Hnone. apply tryAddCommit_new.
    + unfold sourceQueue. rewrite Hs1, Htxs1. simpl.
      unfold is_uint64. lia.
  - unfold appended. simpl. apply to_uint64_range.
  - intros k st' Hst'. rewrite appended_lookup in Hst'. simpl in Hst'.
    assert (Hmid : forall s,
              (if decide (k = getSourceID tx)
               then Some (AccountState.mk 0
                            (to_uint64 (0 + getNumOperations tx)) 0 [tx])
               else mAccountStates q !! k) = Some s ->
              contiguous (AccountState.mTransactions s) = true
              /\ 0 <= AccountState.mQueueSizeOps s < 2 ^ 64
              /\ forall t, t ∈ AccountState.mTransactions s ->
                           tx_in_range t = true).
    { intros s. destruct (decide (k = getSourceID tx)) as [->|NE].
      - intros [= <-]. simpl. rewrite Z.eqb_refl. split; [done|].
        split; [apply to_uint64_range|].
        intros t Ht. by apply list_elem_of_singleton in Ht as ->.
      - apply Hall. }
    destruct (decide (k = getFeeSourceID tx)) as [->|NEf]; [|by apply Hmid].
    injection Hst' as <-. simpl.
    destruct (decide (getFeeSourceID tx = getSourceID tx)) as [E|NE].
    + simpl. rewrite Z.eqb_refl. split; [done|].
      split; [apply to_uint64_range|].
      intros t Ht. by apply list_elem_of_singleton in Ht as ->.
    + destruct (mAccountStates q !! getFeeSourceID tx) as [s|] eqn:Hs; simpl.
      * by apply (Hall _ _ Hs).
      * split; [done|]. split; [lia|]. intros t Ht. by inversion Ht.
Qed.

(** X21: admission and removal undo each other. When the first
    transaction of an account with no entry, with attributes in the range
    of their types and a positive fee bid, has been admitted with
    ADD_STATUS_PENDING into a queue that satisfies the invariants, a call
    of [removeApplied] for that transaction returns the queue exactly as
    it was before the admission: the entry of the account is erased, the
    fee is released, an entry created for the fee source alone is erased
    too, the operation counters are back, the ban ring is untouched. *)
Theorem admitted_then_applied_round_trip (mApp : Application)
    (q q1 : TransactionQueue) (tx : TransactionFrameBase)
    (code : option TransactionResultCode) :
  queueOk q = true -> tx_in_range tx = true -> 0 < getFeeBid tx ->
  mAccountStates q !! getSourceID tx = None ->
  tryAdd mApp q tx = Some (q1, ADD_STATUS_PENDING, code) ->
  removeApplied q1 [tx] = Some q.
Proof.
  intros Hok Hrange Hfee Hnone Hadd.
  apply queueOk_spec in Hok. pose proof Hok as (Hinv & Hops & Hall).
  rewrite (tryAdd_first _ _ _ _ _ Hnone Hadd). clear Hadd q1.
  pose proof (appended_first_ready q tx Hok Hrange Hfee Hnone) as Hready1.
  set (q1 := appended q tx AccountState.init) in *.
  set (s1 := AccountState.mk
               (if decide (getFeeSourceID tx = getSourceID tx)
                then getFeeBid tx else 0)
               (to_uint64 (0 + getNumOperations tx)) 0 [tx]).
  assert (Hs1 : mAccountStates q1 !! getSourceID tx = Some s1).
  { unfold q1, s1. rewrite appended_lookup. simpl.
    destruct (decide (getSourceID tx = getFeeSourceID tx)) as [E|NE].
    - rewrite <- E, !decide_True by done. done.
    - rewrite decide_True by done.
      by rewrite (decide_False (P := getFeeSourceID tx = getSourceID tx)). }
  unfold removeApplied.
  change (maxSeqByAccount [tx])
    with [(getSourceID tx, Z.max 0 (getSeqNum tx))].
  cbn [forEach]. unfold removeAppliedAccount. cbn [fst snd].
  rewrite Hs1. cbn [AccountState.mTransactions s1 head].
  replace (getSeqNum tx <=? Z.max 0 (getSeqNum tx)) with true
    by (symmetry; apply Z.leb_le; lia).
  destruct (findBySeq_total (Z.max 0 (getSeqNum tx)) [tx]) as [found Hfound];
    [by simpl; rewrite Z.eqb_refl|done|].
  rewrite Hfound. cbn [mbind option_bind].
  pose proof (findBySeq_bounded _ _ _ Hfound) as Hbound.
  assert (Hiter : (if (default (length [tx]) found <? length [tx])%nat
                   then S (default (length [tx]) found)
                   else default (length [tx]) found) = 1%nat).
  { destruct found as [[|[|i]]|]; simpl in *; try done; lia. }
  rewrite Hiter.
  replace (setAccountStates q1
             (<[getSourceID tx := withAge s1 0]> (mAccountStates q1)))
    with q1
    by (rewrite insert_id by done; by destruct q1).
  destruct (dropTransactions_ready q1 (getSourceID tx) s1 0 1 Hready1 Hs1)
    as (q' & Hdrop & _ & Hring & Hd & _ & Ha & Hk & Hqops & Hv & Hp);
    [done|simpl; lia|by left|].
  rewrite Hdrop. cbn [mbind option_bind]. f_equal.
  apply queue_eq; try done.
  - intros k. destruct (decide (k = getSourceID tx)) as [->|NE].
    + rewrite Ha, Hnone. simpl.
      destruct (decide (getFeeSourceID tx = getSourceID tx)) as [E|NEs].
      * rewrite E, N.eqb_refl.
        replace (getFeeBid tx - (getFeeBid tx + 0)) with 0 by lia. done.
      * apply N.eqb_neq in NEs as ->. done.
    + rewrite Hk by done. unfold q1. rewrite appended_lookup. simpl.
      rewrite (decide_False (P := k = getSourceID tx)) by done.
      destruct (decide (k = getFeeSourceID tx)) as [->|NEf].
      * rewrite N.eqb_refl, (decide_False (P := getFeeSourceID tx = _))
          by done.
        simpl. unfold releasedEntry. simpl.
        replace (AccountState.mTotalFees
                   (default AccountState.init
                      (mAccountStates q !! getFeeSourceID tx))
                 + getFeeBid tx - (getFeeBid tx + 0))
          with (AccountState.mTotalFees
                  (default AccountState.init
                     (mAccountStates q !! getFeeSourceID tx))) by lia.
        destruct (mAccountStates q !! getFeeSourceID tx) as [s|] eqn:Hs;
          simpl; [|done].
        destruct (AccountState.mTransactions s) eqn:Htxs; simpl.
        -- destruct (idle_entry _ Hinv _ _ Hs Htxs) as [_ Hne0].
           apply Z.eqb_neq in Hne0 as ->. by destruct s.
        -- by destruct s.
      * replace (getFeeSourceID tx =? k)%N with false
          by (symmetry; apply N.eqb_neq; congruence).
        simpl.
        destruct (mAccountStates q !! k) as [s|] eqn:Hs; simpl; [|done].
        apply releasedEntry_0. intros Htxs.
        by destruct (idle_entry _ Hinv _ _ Hs Htxs).
  - rewrite Hqops. unfold q1, appended. simpl.
    rewrite to_uint64_sub_l.
    replace (mQueueSizeOps q + getNumOperations tx
             - (getNumOperations tx + 0)) with (mQueueSizeOps q) by lia.
    by apply to_uint64_small.
Qed.

Lemma admitted_then_applied_round_trip_witness :
  removeApplied (appended sampleQueueSponsored sampleSponsored2
                   AccountState.init) [sampleSponsored2]
  = Some sampleQueueSponsored.
Proof.
  apply (admitted_then_applied_round_trip sampleAppRich sampleQueueSponsored
           _ sampleSponsored2 None).
  - vm_compute. reflexivity.
  - reflexivity.
  - reflexivity.
  - reflexivity.
  - vm_compute. reflexivity.
Defined.

(** ** The exact effect of banning a queued transaction *)

Lemma forEach_banFront_exact {A} (f : A -> Hash) l : forall q s r,
  mBannedTransactions q = s :: r ->
  forEach (fun q0 t => banFront q0 (f t)) l q
  = Some (setBannedTransactions q ((list_to_set (f <$> l) ∪ s) :: r)).
Proof.
  induction l as [|t l IH]; intros q s r E.
  - simpl. rewrite (left_id_L ∅ (∪)), <- E. by destruct q.
  - assert (Hb : banFront q (f t)
                 = Some (setBannedTransactions q (({[f t]} ∪ s) :: r)))
      by (unfold banFront; by rewrite E).
    cbn [forEach]. rewrite Hb. cbn [mbind option_bind].
    rewrite (IH _ ({[f t]} ∪ s) r) by done.
    unfold setBannedTransactions. simpl. do 3 f_equal. set_solver.
Qed.

(** X22: the exact effect of banning one queued transaction. In a state
    that satisfies the invariants of the queue and has a ban ring with
    front slot [s], let the queue of the source account of [tx] hold at
    slot [i] a transaction with the sequence number and the full hash of
    [tx]. Then [ban] of [tx] alone returns; the queue of the account is
    cut down to its first [i] transactions; the front slot of the ring
    gains exactly the hashes of the transactions from slot [i] on, the
    other slots are untouched; every other account has the fee bids it
    paid for the dropped transactions released; the operation counter of
    the queue goes down by their operations; and the invariants hold
    again. *)
Theorem ban_drops_from_listed (q : TransactionQueue)
    (tx t : TransactionFrameBase) (st : AccountState.t) (i : nat)
    (s : gset N) (r : list (gset N)) :
  queueOk q = true ->
  mBannedTransactions q = s :: r ->
  mAccountStates q !! getSourceID tx = Some st ->
  AccountState.mTransactions st !! i = Some t ->
  getSeqNum t = getSeqNum tx -> getFullHash t = getFullHash tx ->
  exists q',
    ban q [tx] = Some q'
    /\ entryTxs (mAccountStates q' !! getSourceID tx)
       = take i (AccountState.mTransactions st)
    /\ mBannedTransactions q'
       = (list_to_set (getFullHash <$> drop i (AccountState.mTransactions st))
          ∪ s) :: r
    /\ (forall k, k <> getSourceID tx ->
          mAccountStates q' !! k
          = mAccountStates q !! k
            ≫= releasedEntry
                 (feesOn k (drop i (AccountState.mTransactions st))))
    /\ mQueueSizeOps q'
       = to_uint64 (mQueueSizeOps q
                    - opsOf (drop i (AccountState.mTransactions st)))
    /\ queueOk q' = true.
Proof.
  intros Hok Hring Hst Hslot Hseq Hhash.
  apply queueOk_spec in Hok. pose proof Hok as (Hinv & Hops & Hall).
  destruct (Hall _ _ Hst) as (Hc & _ & _).
  set (txs := AccountState.mTransactions st) in *.
  pose proof (lookup_lt_Some _ _ _ Hslot) as Hlt.
  assert (Hne : txs <> []) by (intros E; rewrite E in Hlt; simpl in Hlt; lia).
  set (q0 := setBannedTransactions q (({[getFullHash tx]} ∪ s) :: r)).
  assert (Hready0 : ReadyState q0) by (by apply (ReadyState_same q)).
  set (q1 := setBannedTransactions q0
               ((list_to_set (getFullHash <$> drop i txs)
                 ∪ ({[getFullHash tx]} ∪ s)) :: r)).
  assert (Hready1 : ReadyState q1) by (by apply (ReadyState_same q)).
  destruct (dropTransactions_ready q1 (getSourceID tx) st i (length txs)
              Hready1 Hst Hne)
    as (q' & Hdrop & Hready' & Hring' & _ & Htxs' & _ & Hk & Hqops & _);
    [fold txs; lia|by right|].
  exists q'. split; [|split; [|split; [|split; [|split]]]].
  - unfold ban. rewrite Hring. cbn [head mbind option_bind forEach].
    unfold banFront at 1. rewrite Hring. cbn [mbind option_bind].
    fold q0.
    change (groupBySource [tx]) with [(getSourceID tx, [] ++ [tx])].
    cbn [forEach app]. unfold banAccount. cbn [fst snd].
    change (mAccountStates q0) with (mAccountStates q). rewrite Hst.
    fold txs. replace (isEmpty txs) with false by (by destruct txs).
    cbn [forEach]. unfold banSearch.
    rewrite (lookup_ge_None_2 txs (length txs)) by lia.
    unfold findTx. rewrite (findBySeq_slot _ _ i t Hc Hslot Hseq).
    cbn [mbind option_bind default from_option id].
    rewrite Hslot, Hhash, N.eqb_refl.
    cbn [mbind option_bind].
    rewrite (forEach_banFront_exact getFullHash (drop i txs) q0
               ({[getFullHash tx]} ∪ s) r) by done.
    cbn [mbind option_bind]. fold q1. by rewrite Hdrop.
  - rewrite Htxs'. fold txs. by rewrite drop_all, app_nil_r.
  - rewrite Hring'. unfold q1. simpl. f_equal.
    assert (Hin : getFullHash tx ∈ getFullHash <$> drop i txs).
    { rewrite <- Hhash. apply list_elem_of_fmap_2.
      apply list_elem_of_lookup. exists 0%nat.
      rewrite lookup_drop. by rewrite Nat.add_0_r. }
    set_solver.
  - intros k NE. rewrite (Hk k NE).
    replace (length txs - i)%nat with (length (drop i txs))
      by (rewrite length_drop; lia).
    by rewrite firstn_all.
  - rewrite Hqops.
    replace (length txs - i)%nat with (length (drop i txs))
      by (rewrite length_drop; lia).
    by rewrite firstn_all.
  - by apply queueOk_intro.
Qed.

Lemma ban_drops_from_listed_witness :
  exists q',
    ban sampleQueueOld [sampleOld1] = Some q'
    /\ entryTxs (mAccountStates q' !! 10%N) = []
    /\ mBannedTransactions q'
       = (list_to_set (getFullHash <$> [sampleOld1; sampleOld2])
          ∪ {[ 7%N ]}) :: [∅]
    /\ (forall k, k <> 10%N ->
          mAccountStates q' !! k
          = mAccountStates sampleQueueOld !! k
            ≫= releasedEntry (feesOn k [sampleOld1; sampleOld2]))
    /\ mQueueSizeOps q'
       = to_uint64 (mQueueSizeOps sampleQueueOld
                    - opsOf [sampleOld1; sampleOld2])
    /\ queueOk q' = true.
Proof.
  apply (ban_drops_from_listed sampleQueueOld sampleOld1 sampleOld1
           (AccountState.mk 100 3 3 [sampleOld1; sampleOld2]) 0
           {[ 7%N ]} [∅]).
  - vm_compute. reflexivity.
  - reflexivity.
  - reflexivity.
  - reflexivity.
  - reflexivity.
  - reflexivity.
Defined.
